(** * Tuno VPN tunnel engine: packet model, routing table, secure transport
      and client reconnection loop.

    A shallow embedding of [internal/tunnel/packet.go],
    [internal/tunnel/router.go], [internal/cipher] ([TLSConn]) and of
    [Client.runMainLoop] from [internal/tunnel/client.go], with the
    properties of the tunnel-engine specification stated over it.

    Conventions.
    - A Go [[]byte] is a [list byte]; [uint8], [uint16] and [uint32] values
      are integers in [Z] and every wrap-around of the source is written
      out ([mod 2^16], [mod 2^32]).
    - A Go run-time panic (index or slice bound out of range) is [None] in
      the [option] monad; a Go [error] result is the right injection of a
      sum, or an [option] of an error value where only the error is
      returned.
    - Methods with a pointer receiver take the receiver and return its new
      value.  Methods that run under a mutex are modelled as atomic. *)

From Stdlib Require Import ZArith Lia List String Ascii DecimalString.
From stdpp Require Import base option list strings.
From coqutil Require Import Byte.

Local Open Scope Z_scope.

(** ** Go slices and [encoding/binary] *)

Module Go.

(** [s[lo:hi]]: panics unless [lo <= hi <= cap(s)].  A slice is modelled
by its elements, so its capacity is taken to be its length. *)
Definition slice (s : list byte) (lo hi : nat) : option (list byte) :=
  if decide (lo ≤ hi ∧ hi ≤ length s)%nat
  then Some (take (hi - lo) (drop lo s))
  else None.

(** Write-back of a sub-slice that aliases [s] from offset [lo]. *)
Definition store (s : list byte) (lo : nat) (sub : list byte) : list byte :=
  take lo s ++ sub ++ drop (lo + length sub) s.

(** The built-in [copy(dst, src)]: copies [min(len(dst), len(src))]
    elements and returns the new contents of [dst]. *)
Definition copy (dst src : list byte) : list byte :=
  take (length dst) src ++ drop (length src) dst.

(** [binary.BigEndian.Uint16(b)]. *)
Definition Uint16 (b : list byte) : option Z :=
  b1 ← b !! 1%nat;
  b0 ← b !! 0%nat;
  Some (Z.lor (byte.unsigned b1) (Z.shiftl (byte.unsigned b0) 8)).

(** [binary.BigEndian.PutUint16(b, v)]. *)
Definition PutUint16 (b : list byte) (v : Z) : option (list byte) :=
  _ ← b !! 1%nat;
  Some (<[1%nat := byte.of_Z v]> (<[0%nat := byte.of_Z (Z.shiftr v 8)]> b)).

End Go.

(** ** internal/tunnel/packet.go *)

(** [net.IP] is a byte slice. *)
Abbreviation IP := (list byte).

Definition IPv4Version : Z := 4.
Definition IPv6Version : Z := 6.
Definition MaxPacketSize : Z := 1500.

(** Constants of the Go libraries used by the file. *)
Definition ipv4_HeaderLen : nat := 20.
Definition ipv6_HeaderLen : nat := 40.
Definition net_IPv4len : nat := 4.
Definition net_IPv6len : nat := 16.

Inductive PacketType := PacketTypeIPv4 | PacketTypeIPv6 | PacketTypeUnknown.

#[global] Instance PacketType_eq_dec : EqDecision PacketType.
Proof. solve_decision. Defined.

Record Packet := mkPacket {
  Data : list byte;
  Source : IP;
  Destination : IP;
  Protocol : Z;
  Type_ : PacketType
}.

Definition set_Data (p : Packet) (d : list byte) : Packet :=
  mkPacket d (Source p) (Destination p) (Protocol p) (Type_ p).
Definition set_Source (p : Packet) (a : IP) : Packet :=
  mkPacket (Data p) a (Destination p) (Protocol p) (Type_ p).
Definition set_Destination (p : Packet) (a : IP) : Packet :=
  mkPacket (Data p) (Source p) a (Protocol p) (Type_ p).

(** The fields of [ipv4.Header] and [ipv6.Header] that the package reads. *)
Record ipv4_Header := mkV4Header { Src4 : IP; Dst4 : IP; Protocol4 : Z }.
Record ipv6_Header := mkV6Header { Src6 : IP; Dst6 : IP; NextHeader : Z }.

(** The errors [ParsePacket] builds with [fmt.Errorf], one constructor per
    format string: "packet is too short", "unsupported IP version: %d",
    "IPv4 packet too short: %d bytes", "failed to parse IPv4 header: %v",
    and the two for IPv6. *)
Inductive ParseError :=
| ErrPacketTooShort
| ErrUnsupportedVersion (version : Z)
| ErrIPv4TooShort (len : nat)
| ErrIPv4Header (err : string)
| ErrIPv6TooShort (len : nat)
| ErrIPv6Header (err : string).

Section Parse.

(** [ipv4.ParseHeader] and [ipv6.ParseHeader] of golang.org/x/net are
    not part of the repository: the parser is stated for any behaviour
    of the two. *)
Variable ipv4_ParseHeader : list byte -> ipv4_Header + string.
Variable ipv6_ParseHeader : list byte -> ipv6_Header + string.

Definition parseIPv4Packet (data : list byte) : Packet + ParseError :=
  if (length data <? ipv4_HeaderLen)%nat then inr (ErrIPv4TooShort (length data))
  else
    match ipv4_ParseHeader data with
    | inr err => inr (ErrIPv4Header err)
    | inl header =>
        inl (mkPacket data (Src4 header) (Dst4 header) (Protocol4 header)
               PacketTypeIPv4)
    end.

Definition parseIPv6Packet (data : list byte) : Packet + ParseError :=
  if (length data <? ipv6_HeaderLen)%nat then inr (ErrIPv6TooShort (length data))
  else
    match ipv6_ParseHeader data with
    | inr err => inr (ErrIPv6Header err)
    | inl header =>
        inl (mkPacket data (Src6 header) (Dst6 header) (NextHeader header)
               PacketTypeIPv6)
    end.

(** The version nibble [(data[0] >> 4) & 0x0F]. *)
Definition version_nibble (b0 : byte) : Z :=
  Z.land (Z.shiftr (byte.unsigned b0) 4) 0x0F.

Definition ParsePacket (data : list byte) : Packet + ParseError :=
  match data with
  | [] => inr ErrPacketTooShort
  | b0 :: _ =>
      let version := version_nibble b0 in
      if version =? IPv4Version then parseIPv4Packet data
      else if version =? IPv6Version then parseIPv6Packet data
      else inr (ErrUnsupportedVersion version)
  end.

End Parse.

(** The version nibble of a buffer; [None] for the empty buffer. *)
Definition version_of (data : list byte) : option Z :=
  version_nibble <$> head data.

(** [Packet.ModifyTTL].  [None] is a run-time panic. *)
Definition ModifyTTL (p : Packet) : option (bool * Packet) :=
  match Type_ p with
  | PacketTypeIPv4 =>
      ttl ← Data p !! 8%nat;
      if byte.unsigned ttl <=? 1 then Some (false, p)
      else
        let data := <[8%nat := byte.of_Z (byte.unsigned ttl - 1)]> (Data p) in
        field ← Go.slice data 10 12;
        checksum ← Go.Uint16 field;
        let checksum := (checksum + 0x0100) mod 2 ^ 16 in
        let checksum :=
          if checksum <=? 0x00FF then (checksum + 1) mod 2 ^ 16 else checksum in
        field ← Go.slice data 10 12;
        field ← Go.PutUint16 field checksum;
        Some (true, set_Data p (Go.store data 10 field))
  | PacketTypeIPv6 =>
      hop ← Data p !! 7%nat;
      if byte.unsigned hop <=? 1 then Some (false, p)
      else
        Some (true, set_Data p (<[7%nat := byte.of_Z (byte.unsigned hop - 1)]> (Data p)))
  | PacketTypeUnknown => Some (false, p)
  end.

(** The checksum update of [ModifyTTL] on its own: add [0x0100] in 16
    bits and add the carry back in. *)
Definition ttl_checksum (c : Z) : Z :=
  let c1 := (c + 0x0100) mod 2 ^ 16 in
  if c1 <=? 0x00FF then (c1 + 1) mod 2 ^ 16 else c1.

(** The loop of [recalculateIPv4Checksum]:
    [for i := 0; i < len(oldAddr); i += 2].  [i] grows by two in every
    round, so [len(oldAddr)] rounds of fuel are never used up. *)
Fixpoint adjustment_loop (fuel i : nat) (oldAddr newAddr : list byte)
    (adjustment : Z) : option Z :=
  match fuel with
  | O => Some adjustment
  | S fuel =>
      if (i <? length oldAddr)%nat then
        o ← Go.slice oldAddr i (i + 2) ≫= Go.Uint16;
        let adjustment := (adjustment + o) mod 2 ^ 32 in
        n ← Go.slice newAddr i (i + 2) ≫= Go.Uint16;
        let adjustment := (adjustment + Z.lxor n 0xFFFF) mod 2 ^ 32 in
        adjustment_loop fuel (i + 2) oldAddr newAddr adjustment
      else Some adjustment
  end.

(** [recalculateIPv4Checksum]: returns the new contents of [packet]. *)
Definition recalculateIPv4Checksum (packet oldAddr newAddr : list byte)
    : option (list byte) :=
  oldChecksum ← Go.slice packet 10 12 ≫= Go.Uint16;
  adjustment ← adjustment_loop (length oldAddr) 0 oldAddr newAddr 0;
  let adjustment :=
    (Z.land adjustment 0xFFFF + Z.shiftr adjustment 16) mod 2 ^ 32 in
  let newChecksum := ((adjustment + oldChecksum) mod 2 ^ 32) mod 2 ^ 16 in
  field ← Go.slice packet 10 12;
  field ← Go.PutUint16 field newChecksum;
  Some (Go.store packet 10 field).

Inductive AddressError :=
| ErrInvalidIPv4Source
| ErrInvalidIPv6Source
| ErrInvalidIPv4Destination
| ErrInvalidIPv6Destination
| ErrUnsupportedPacketType.

(** The replacement address has the wrong length for the packet. *)
Definition length_mismatch (p : Packet) (addr : IP) : Prop :=
  (Type_ p = PacketTypeIPv4 ∧ length addr ≠ net_IPv4len) ∨
  (Type_ p = PacketTypeIPv6 ∧ length addr ≠ net_IPv6len).

(** [Packet.ReplaceSourceAddress].  The result is the packet after the call
    and the returned [error] ([None] for [nil]); the outer [None] is a
    panic.  [newSource] is taken not to alias the packet buffer. *)
Definition ReplaceSourceAddress (p : Packet) (newSource : IP)
    : option (Packet * option AddressError) :=
  match Type_ p with
  | PacketTypeIPv4 =>
      if decide (length newSource ≠ net_IPv4len)
      then Some (p, Some ErrInvalidIPv4Source)
      else
        src ← Go.slice (Data p) 12 16;
        let oldSource := Go.copy (replicate net_IPv4len Byte.x00) src in
        let data := Go.store (Data p) 12 (Go.copy src newSource) in
        data ← recalculateIPv4Checksum data oldSource newSource;
        Some (set_Source (set_Data p data) newSource, None)
  | PacketTypeIPv6 =>
      if decide (length newSource ≠ net_IPv6len)
      then Some (p, Some ErrInvalidIPv6Source)
      else
        src ← Go.slice (Data p) 8 24;
        let data := Go.store (Data p) 8 (Go.copy src newSource) in
        Some (set_Source (set_Data p data) newSource, None)
  | PacketTypeUnknown => Some (p, Some ErrUnsupportedPacketType)
  end.

(** [Packet.ReplaceDestinationAddress]. *)
Definition ReplaceDestinationAddress (p : Packet) (newDest : IP)
    : option (Packet * option AddressError) :=
  match Type_ p with
  | PacketTypeIPv4 =>
      if decide (length newDest ≠ net_IPv4len)
      then Some (p, Some ErrInvalidIPv4Destination)
      else
        dst ← Go.slice (Data p) 16 20;
        let oldDest := Go.copy (replicate net_IPv4len Byte.x00) dst in
        let data := Go.store (Data p) 16 (Go.copy dst newDest) in
        data ← recalculateIPv4Checksum data oldDest newDest;
        Some (set_Destination (set_Data p data) newDest, None)
  | PacketTypeIPv6 =>
      if decide (length newDest ≠ net_IPv6len)
      then Some (p, Some ErrInvalidIPv6Destination)
      else
        dst ← Go.slice (Data p) 24 40;
        let data := Go.store (Data p) 24 (Go.copy dst newDest) in
        Some (set_Destination (set_Data p data) newDest, None)
  | PacketTypeUnknown => Some (p, Some ErrUnsupportedPacketType)
  end.

(** *** The Internet checksum of an IPv4 header (RFC 791, RFC 1071),
    recomputed from scratch. *)

(** The big-endian 16-bit words of a byte string; an odd last byte is
    padded with a zero byte. *)
Fixpoint be_words (bs : list byte) : list Z :=
  match bs with
  | hi :: lo :: rest => (byte.unsigned hi * 256 + byte.unsigned lo) :: be_words rest
  | [hi] => [byte.unsigned hi * 256]
  | [] => []
  end.

(** One's-complement addition of two 16-bit words (end-around carry). *)
Definition ones_add (a b : Z) : Z :=
  let s := a + b in s mod 2 ^ 16 + s / 2 ^ 16.

Definition ones_sum (ws : list Z) : Z := foldr ones_add 0 ws.

(** The plain sum of a list of words, and the 16-bit value its
    one's-complement sum folds to: zero for zero, else the residue modulo
    [0xFFFF] taken in [1..0xFFFF]. *)
Definition word_total (ws : list Z) : Z := foldr Z.add 0 ws.

Definition ones_norm (x : Z) : Z :=
  if x =? 0 then 0 else (x - 1) mod 65535 + 1.

Definition is_word (w : Z) : Prop := 0 <= w <= 65535.

(** Header length in bytes, from the IHL nibble of the first byte. *)
Definition IHL (data : list byte) : Z :=
  match data with
  | b0 :: _ => Z.land (byte.unsigned b0) 0x0F
  | [] => 0
  end.

Definition ipv4_header (data : list byte) : list byte :=
  take (Z.to_nat (4 * IHL data)) data.

(** The checksum a sender computes: the complement of the one's-complement
    sum of the header words, the checksum field taken as zero. *)
Definition full_checksum (data : list byte) : Z :=
  0xFFFF - ones_sum (be_words (<[10%nat := Byte.x00]> (<[11%nat := Byte.x00]> (ipv4_header data)))).

(** The check a receiver makes: the one's-complement sum of the header,
    checksum field included, is [0xFFFF]. *)
Definition checksum_verifies (data : list byte) : Prop :=
  ones_sum (be_words (ipv4_header data)) = 0xFFFF.

(** Reading fields of a buffer (zero outside of it). *)
Definition byte_at (data : list byte) (i : nat) : Z :=
  byte.unsigned (default Byte.x00 (data !! i)).

Definition TTL (data : list byte) : Z := byte_at data 8.
Definition HopLimit (data : list byte) : Z := byte_at data 7.
Definition stored_checksum (data : list byte) : Z :=
  byte_at data 10 * 256 + byte_at data 11.

(** A well-formed IPv4 header: at least five 32-bit words long, with a
    checksum field that holds the checksum of the header. *)
Definition ipv4_header_valid (data : list byte) : Prop :=
  5 <= IHL data ∧ stored_checksum data = full_checksum data.

(** *** Models of the two header parsers of golang.org/x/net, used to run
    the parser on concrete buffers. *)

Definition v4InV6Prefix : list byte :=
  replicate 10 Byte.x00 ++ [Byte.xff; Byte.xff].

(** [ipv4.ParseHeader]: rejects buffers shorter than 20 bytes or shorter
    than the header length of the IHL field; addresses are returned in the
    16-byte form of [net.IPv4]. *)
Definition x_net_ipv4_ParseHeader (b : list byte) : ipv4_Header + string :=
  if (length b <? ipv4_HeaderLen)%nat then inr "header too short"%string
  else if (length b <? Z.to_nat (4 * IHL b))%nat then inr "extension header truncated"%string
  else inl (mkV4Header (v4InV6Prefix ++ take 4 (drop 12 b))
                       (v4InV6Prefix ++ take 4 (drop 16 b))
                       (byte_at b 9)).

(** [ipv6.ParseHeader]: rejects buffers shorter than 40 bytes. *)
Definition x_net_ipv6_ParseHeader (b : list byte) : ipv6_Header + string :=
  if (length b <? ipv6_HeaderLen)%nat then inr "header too short"%string
  else inl (mkV6Header (take 16 (drop 8 b)) (take 16 (drop 24 b)) (byte_at b 6)).

Definition parse : list byte -> Packet + ParseError :=
  ParsePacket x_net_ipv4_ParseHeader x_net_ipv6_ParseHeader.

Definition hex (l : list Z) : list byte := map byte.of_Z l.

(** The IPv4 header of the usual worked example of the checksum
    (192.168.0.1 to 192.168.0.199, UDP, TTL 64, checksum 0xB861). *)
Definition sample_v4 : list byte :=
  hex [0x45; 0x00; 0x00; 0x73; 0x00; 0x00; 0x40; 0x00; 0x40; 0x11; 0xb8; 0x61;
       0xc0; 0xa8; 0x00; 0x01; 0xc0; 0xa8; 0x00; 0xc7].

(** The packet [parse] returns for a buffer it accepts. *)
Definition parsed (data : list byte) : Packet :=
  match parse data with
  | inl p => p
  | inr _ => mkPacket [] [] [] 0 PacketTypeUnknown
  end.

(** A 20-byte header from 10.0.0.1 to 113.228.0.0 (TCP, TTL 64) whose
    correct checksum is [0xFEFF]. *)
Definition feff_v4 : list byte :=
  hex [0x45; 0x00; 0x00; 0x14; 0x00; 0x00; 0x00; 0x00; 0x40; 0x06; 0xfe; 0xff;
       0x0a; 0x00; 0x00; 0x01; 0x71; 0xe4; 0x00; 0x00].

(** [sample_v4] with a TTL of 1 (the checksum is not looked at). *)
Definition expired_v4 : list byte := <[8%nat := Byte.x01]> sample_v4.

(** An IPv6 header (ICMPv6, hop limit 64) from fe80::1 to fe80::2. *)
Definition sample_v6 : list byte :=
  hex [0x60; 0x00; 0x00; 0x00; 0x00; 0x00; 0x3a; 0x40;
       0xfe; 0x80; 0; 0; 0; 0; 0; 0; 0; 0; 0; 0; 0; 0; 0; 1;
       0xfe; 0x80; 0; 0; 0; 0; 0; 0; 0; 0; 0; 0; 0; 0; 0; 2].

(** ** internal/tunnel/router.go *)

Inductive RouteType := RouteTypeTUN | RouteTypeInternet | RouteTypeDrop.

(** [net.IPNet]: a network number and a mask, both byte slices. *)
Record IPNet := mkIPNet { IPNet_IP : IP; IPNet_Mask : list byte }.

Record Route := mkRoute { Network : IPNet; RType : RouteType }.

Record Router := mkRouter {
  routes : list Route;
  ipv4Count : Z;
  ipv6Count : Z
}.

Inductive RouterError :=
| ErrInvalidCIDR
| ErrRouteNotFound (cidr : string).

(** Go's [int] on the platforms the program runs on: 64 bits, signed. *)
Definition int64 (z : Z) : Z := (z + 2 ^ 63) mod 2 ^ 64 - 2 ^ 63.

Section Router.

(** The functions of Go's standard package [net] that the router calls;
    the router is stated for any behaviour of them.
    - [ParseCIDR cidr]: the [*IPNet] result of [net.ParseCIDR], [None]
      when it returns an error;
    - [IPNet_String n]: [n.String()];
    - [Contains n ip]: [n.Contains(ip)];
    - [Mask_Size n]: the first result of [n.Mask.Size()];
    - [is_IPv4 n]: [n.IP.To4() != nil]. *)
Variable ParseCIDR : string -> option IPNet.
Variable IPNet_String : IPNet -> string.
Variable Contains : IPNet -> IP -> bool.
Variable Mask_Size : IPNet -> Z.
Variable is_IPv4 : IPNet -> bool.

(** [route.Network.String() == network.String()] *)
Definition same_prefix (network : IPNet) (route : Route) : Prop :=
  IPNet_String (Network route) = IPNet_String network.

#[local] Instance same_prefix_dec network route : Decision (same_prefix network route).
Proof. unfold same_prefix. apply _. Defined.

(** [Router.AddRoute]: the router after the call and the returned error.
    The scan stops at the first route with the same prefix text. *)
Definition AddRoute (r : Router) (cidr : string) (routeType : RouteType)
    : Router * option RouterError :=
  match ParseCIDR cidr with
  | None => (r, Some ErrInvalidCIDR)
  | Some network =>
      match list_find (same_prefix network) (routes r) with
      | Some (i, route) =>
          (mkRouter (<[i := mkRoute (Network route) routeType]> (routes r))
             (ipv4Count r) (ipv6Count r), None)
      | None =>
          let routes' := routes r ++ [mkRoute network routeType] in
          if is_IPv4 network
          then (mkRouter routes' (int64 (ipv4Count r + 1)) (ipv6Count r), None)
          else (mkRouter routes' (ipv4Count r) (int64 (ipv6Count r + 1)), None)
      end
  end.

(** [Router.RemoveRoute]: the found route is overwritten with the last
    one and the slice is cut by one. *)
Definition RemoveRoute (r : Router) (cidr : string) : Router * option RouterError :=
  match ParseCIDR cidr with
  | None => (r, Some ErrInvalidCIDR)
  | Some network =>
      match list_find (same_prefix network) (routes r) with
      | Some (i, _) =>
          let n := length (routes r) in
          let routes' :=
            match routes r !! (n - 1)%nat with
            | Some final => take (n - 1) (<[i := final]> (routes r))
            | None => routes r (* not reached: the scan found a route *)
            end in
          if is_IPv4 network
          then (mkRouter routes' (int64 (ipv4Count r - 1)) (ipv6Count r), None)
          else (mkRouter routes' (ipv4Count r) (int64 (ipv6Count r - 1)), None)
      | None => (r, Some (ErrRouteNotFound cidr))
      end
  end.

(** [Router.ClearRoutes]. *)
Definition ClearRoutes (r : Router) : Router := mkRouter [] 0 0.

(** [NewRouter]: an empty table, then [addPrivateNetworkRoutes], which
    drops the errors of [AddRoute]. *)
Definition default_routes : list (string * RouteType) :=
  [ ("10.0.0.0/8", RouteTypeTUN); ("172.16.0.0/12", RouteTypeTUN);
    ("192.168.0.0/16", RouteTypeTUN); ("169.254.0.0/16", RouteTypeTUN);
    ("fe80::/10", RouteTypeTUN); ("0.0.0.0/0", RouteTypeInternet);
    ("::/0", RouteTypeInternet) ]%string.

Definition addPrivateNetworkRoutes (r : Router) : Router :=
  fold_left (fun r e => (AddRoute r e.1 e.2).1) default_routes r.

Definition NewRouter : Router := addPrivateNetworkRoutes (mkRouter [] 0 0).

(** One round of the scan of [Router.GetRoute]; the state is
    [(matchedRoute, matchedMaskSize)]. *)
Definition GetRoute_step (ip : IP) (st : option Route * Z) (route : Route)
    : option Route * Z :=
  if Contains (Network route) ip then
    let maskSize := Mask_Size (Network route) in
    match st.1 with
    | None => (Some route, maskSize)
    | Some _ => if maskSize >? st.2 then (Some route, maskSize) else st
    end
  else st.

Definition GetRoute_scan (ip : IP) (rs : list Route) : option Route * Z :=
  fold_left (GetRoute_step ip) rs (None, 0).

Definition GetRoute (r : Router) (ip : IP) : RouteType :=
  match (GetRoute_scan ip (routes r)).1 with
  | Some matchedRoute => RType matchedRoute
  | None => RouteTypeInternet
  end.

(** The routers a program can hold: the one [NewRouter] returns, changed
    by any number of calls of [AddRoute], [RemoveRoute] and
    [ClearRoutes]. *)
Inductive reachable : Router -> Prop :=
| reach_NewRouter : reachable NewRouter
| reach_AddRoute r cidr routeType :
    reachable r -> reachable (AddRoute r cidr routeType).1
| reach_RemoveRoute r cidr :
    reachable r -> reachable (RemoveRoute r cidr).1
| reach_ClearRoutes r :
    reachable r -> reachable (ClearRoutes r).

(** The prefix texts of the table, in table order. *)
Definition prefixes (r : Router) : list string :=
  (fun route => IPNet_String (Network route)) <$> routes r.

(** No two entries of the table have the same prefix text. *)
Definition distinct_prefixes (r : Router) : Prop :=
  ∀ i j ri rj, routes r !! i = Some ri -> routes r !! j = Some rj ->
    IPNet_String (Network ri) = IPNet_String (Network rj) -> i = j.

(** The route that longest-prefix match selects for [ip] in [rs]: at
    index [i], containing [ip], with a mask at least as long as that of
    any other route containing [ip], and before every other such route
    of the same mask length. *)
Definition is_longest_match (ip : IP) (rs : list Route) (i : nat) (route : Route) : Prop :=
  rs !! i = Some route ∧ Contains (Network route) ip = true ∧
  ∀ j other, rs !! j = Some other → Contains (Network other) ip = true →
    Mask_Size (Network other) <= Mask_Size (Network route) ∧
    (Mask_Size (Network other) = Mask_Size (Network route) → (i ≤ j)%nat).

End Router.

(** *** A model of the functions of Go's package [net] that the router
    calls, used to run the router on concrete prefixes.  [ParseCIDR] reads
    the IPv4 text form only (every other text is an error), and
    [IPNet_String] writes IPv6 network numbers group by group without the
    [::] shortening of Go. *)

Module GoNet.

Definition isZeros (p : list byte) : bool :=
  forallb (fun b => byte.unsigned b =? 0) p.

(** [IP.To4]; [None] is the nil slice. *)
Definition To4 (ip : IP) : option IP :=
  if bool_decide (length ip = net_IPv4len) then Some ip
  else if bool_decide (length ip = net_IPv6len) && isZeros (take 10 ip)
          && (byte_at ip 10 =? 0xff) && (byte_at ip 11 =? 0xff)
  then Some (take 4 (drop 12 ip))
  else None.

(** [networkNumberAndMask]; a nil result is the empty slice. *)
Definition networkNumberAndMask (n : IPNet) : IP * list byte :=
  let ip :=
    match To4 (IPNet_IP n) with
    | Some ip => Some ip
    | None => if bool_decide (length (IPNet_IP n) = net_IPv6len)
              then Some (IPNet_IP n) else None
    end in
  match ip with
  | None => ([], [])
  | Some ip =>
      let m := IPNet_Mask n in
      if bool_decide (length m = net_IPv4len) then
        if bool_decide (length ip = net_IPv4len) then (ip, m) else ([], [])
      else if bool_decide (length m = net_IPv6len) then
        if bool_decide (length ip = net_IPv4len) then (ip, drop 12 m) else (ip, m)
      else ([], [])
  end.

(** [IPNet.Contains]. *)
Definition Contains (n : IPNet) (ip : IP) : bool :=
  let '(nn, m) := networkNumberAndMask n in
  let ip := match To4 ip with Some x => x | None => ip end in
  if bool_decide (length ip = length nn) then
    forallb (fun i => Z.land (byte_at nn i) (byte_at m i)
                      =? Z.land (byte_at ip i) (byte_at m i))
            (seq 0 (length ip))
  else false.

(** The number of leading one bits of a mask byte that is a run of ones
    followed by zeros. *)
Definition leading_ones (v : Z) : option Z :=
  List.find (fun k => v =? Z.land (Z.shiftl 0xff (8 - k)) 0xff) [0; 1; 2; 3; 4; 5; 6; 7].

(** [simpleMaskLength], with the count so far as an argument. *)
Fixpoint simpleMaskLength (mask : list byte) (n : Z) : Z :=
  match mask with
  | [] => n
  | v :: rest =>
      if byte.unsigned v =? 0xff then simpleMaskLength rest (n + 8)
      else
        match leading_ones (byte.unsigned v) with
        | Some k => if isZeros rest then n + k else -1
        | None => -1
        end
  end.

(** The first result of [IPMask.Size]. *)
Definition Mask_Size (n : IPNet) : Z :=
  let ones := simpleMaskLength (IPNet_Mask n) 0 in
  if ones =? -1 then 0 else ones.

(** [CIDRMask(ones, 8 * l)]. *)
Fixpoint CIDRMask (l : nat) (n : Z) : list byte :=
  match l with
  | O => []
  | S l =>
      if n >=? 8 then Byte.xff :: CIDRMask l (n - 8)
      else byte.of_Z (Z.lxor 0xff (Z.shiftr 0xff n)) :: CIDRMask l 0
  end.

Definition digit (c : ascii) : option Z :=
  let n := Z.of_nat (nat_of_ascii c) in
  if (48 <=? n) && (n <=? 57) then Some (n - 48) else None.

(** Decimal text to a number; [None] for the empty text, for a character
    that is no digit and for a number of [0xFFFFFF] or more. *)
Fixpoint dtoi_digits (s : string) (n : Z) : option Z :=
  match s with
  | EmptyString => Some n
  | String c s =>
      d ← digit c;
      let n := n * 10 + d in
      if n >=? 0xFFFFFF then None else dtoi_digits s n
  end.

Definition dtoi (s : string) : option Z :=
  match s with
  | EmptyString => None
  | _ => dtoi_digits s 0
  end.

(** The text before and after the first occurrence of [sep]. *)
Fixpoint cut (sep : ascii) (s : string) : option (string * string) :=
  match s with
  | EmptyString => None
  | String c s =>
      if Ascii.eqb c sep then Some (EmptyString, s)
      else '(a, b) ← cut sep s; Some (String c a, b)
  end.

(** One octet of a dotted address: decimal, at most 255, no leading
    zero. *)
Definition octet (s : string) : option byte :=
  match s with
  | String "0" (String _ _) => None
  | _ => n ← dtoi s; if n <=? 255 then Some (byte.of_Z n) else None
  end.

Definition parseIPv4 (s : string) : option IP :=
  '(a, s) ← cut "." s;
  '(b, s) ← cut "." s;
  '(c, d) ← cut "." s;
  a ← octet a; b ← octet b; c ← octet c; d ← octet d;
  Some [a; b; c; d].

(** [IP.Mask] for an address and a mask of the same length. *)
Definition Mask (ip : IP) (mask : list byte) : IP :=
  zip_with (fun a m => byte.of_Z (Z.land (byte.unsigned a) (byte.unsigned m))) ip mask.

(** [net.ParseCIDR] on the IPv4 text form [a.b.c.d/n]. *)
Definition ParseCIDR (s : string) : option IPNet :=
  '(addr, mask) ← cut "/" s;
  ip ← parseIPv4 addr;
  n ← dtoi mask;
  if n >? 32 then None
  else
    let m := CIDRMask 4 n in
    Some (mkIPNet (Mask ip m) m).

Definition uitoa (n : Z) : string :=
  DecimalString.NilZero.string_of_uint (N.to_uint (Z.to_N n)).

(** Lower-case hexadecimal text: [hexString] as [IPMask.String] writes a
mask, two digits a byte; [hexGroup] as a 16-bit group of an IPv6
address, without leading zeros. *)
Definition hexDigit (n : Z) : string :=
  String.substring (Z.to_nat n) 1 "0123456789abcdef".

Definition hexString (m : list byte) : string :=
  fold_right (fun b acc => hexDigit (byte.unsigned b / 16) +:+ hexDigit (byte.unsigned b mod 16) +:+ acc)
    EmptyString m.

Definition hexGroup (w : Z) : string :=
  if w <? 0x10 then hexDigit w
  else if w <? 0x100 then hexDigit (w / 16) +:+ hexDigit (w mod 16)
  else if w <? 0x1000 then hexDigit (w / 256) +:+ hexDigit (w / 16 mod 16) +:+ hexDigit (w mod 16)
  else hexDigit (w / 4096) +:+ hexDigit (w / 256 mod 16) +:+ hexDigit (w / 16 mod 16)
       +:+ hexDigit (w mod 16).

Definition join (sep : string) (l : list string) : string :=
  match l with
  | [] => EmptyString
  | x :: l => fold_left (fun acc y => acc +:+ sep +:+ y) l x
  end.

(** [IP.String] for a network number of 4 or 16 bytes. *)
Definition IP_String (ip : IP) : string :=
  if bool_decide (length ip = net_IPv4len)
  then join "." (map (fun b => uitoa (byte.unsigned b)) ip)
  else join ":" (map hexGroup (be_words ip)).

(** [IPNet.String]. *)
Definition IPNet_String (n : IPNet) : string :=
  let '(nn, m) := networkNumberAndMask n in
  match nn, m with
  | [], _ | _, [] => "<nil>"
  | _, _ =>
      let l := simpleMaskLength m 0 in
      if l =? -1 then IP_String nn +:+ "/" +:+ hexString m
      else IP_String nn +:+ "/" +:+ uitoa l
  end.

Definition is_IPv4 (n : IPNet) : bool :=
  match To4 (IPNet_IP n) with Some _ => true | None => false end.

Definition AddRoute := AddRoute ParseCIDR IPNet_String is_IPv4.
Definition RemoveRoute := RemoveRoute ParseCIDR IPNet_String is_IPv4.
Definition GetRoute := GetRoute Contains Mask_Size.
Definition NewRouter := NewRouter ParseCIDR IPNet_String is_IPv4.

End GoNet.

(** The table of the routing example: the two routes, added in this
    order to a cleared table, and the table after the first is removed. *)
Definition two_routes : Router :=
  (GoNet.AddRoute
     (GoNet.AddRoute (ClearRoutes GoNet.NewRouter) "10.0.0.0/8" RouteTypeTUN).1
     "0.0.0.0/0" RouteTypeInternet).1.

Definition one_route : Router := (GoNet.RemoveRoute two_routes "10.0.0.0/8").1.

(** ** internal/cipher: [TLSConn] *)

Module cipher.

(** A call on the wrapped [*tls.Conn]. *)
Inductive ConnCall :=
| ConnRead (len : nat)
| ConnWrite (b : list byte)
| ConnClose.

Inductive IOError :=
| ErrClosedPipe               (* io.ErrClosedPipe *)
| ErrConn (msg : string).     (* an error of the wrapped connection *)

(** The wrapper: the wrapped connection, kept as the calls made on it so
    far (latest first), and the [closed] flag. *)
Record TLSConn := mkTLSConn {
  conn : list ConnCall;
  closed : bool
}.

Section TLSConn.

(** The wrapped connection is outside of the repository: what a call
    on it returns (a byte count and an error) is any function of the
    calls made before. *)
Variable conn_io : list ConnCall -> ConnCall -> Z * option IOError.

Definition on_conn (t : TLSConn) (c : ConnCall) : TLSConn * (Z * option IOError) :=
  (mkTLSConn (c :: conn t) (closed t), conn_io (conn t) c).

(** [TLSConn.Read], for a buffer of [len] bytes. *)
Definition Read (t : TLSConn) (len : nat) : TLSConn * (Z * option IOError) :=
  if closed t then (t, (0, Some ErrClosedPipe))
  else on_conn t (ConnRead len).

(** [TLSConn.Write]. *)
Definition Write (t : TLSConn) (b : list byte) : TLSConn * (Z * option IOError) :=
  if closed t then (t, (0, Some ErrClosedPipe))
  else on_conn t (ConnWrite b).

(** [TLSConn.Close]. *)
Definition Close (t : TLSConn) : TLSConn * option IOError :=
  if closed t then (t, None)
  else
    let t := mkTLSConn (conn t) true in
    let '(t, (_, err)) := on_conn t ConnClose in
    (t, err).

(** A call on the wrapper and what it returned. *)
Inductive Call := CallRead (len : nat) | CallWrite (b : list byte) | CallClose.

Inductive Returned :=
| RetIO (n : Z) (err : option IOError)
| RetClose (err : option IOError).

Definition call (t : TLSConn) (c : Call) : TLSConn * Returned :=
  match c with
  | CallRead len => let '(t, (n, err)) := Read t len in (t, RetIO n err)
  | CallWrite b => let '(t, (n, err)) := Write t b in (t, RetIO n err)
  | CallClose => let '(t, err) := Close t in (t, RetClose err)
  end.

(** A sequence of calls, one after the other, with their results. *)
Fixpoint calls (t : TLSConn) (cs : list Call) : TLSConn * list Returned :=
  match cs with
  | [] => (t, [])
  | c :: cs =>
      let '(t, r) := call t c in
      let '(t, rs) := calls t cs in
      (t, r :: rs)
  end.

(** What a call on a closed wrapper has to return. *)
Definition closed_result (c : Call) : Returned :=
  match c with
  | CallRead _ | CallWrite _ => RetIO 0 (Some ErrClosedPipe)
  | CallClose => RetClose None
  end.

End TLSConn.

(** A wrapped connection that accepts every call. *)
Definition conn_ok (past : list ConnCall) (c : ConnCall) : Z * option IOError :=
  match c with
  | ConnRead len => (Z.of_nat len, None)
  | ConnWrite b => (Z.of_nat (length b), None)
  | ConnClose => (0, None)
  end.

End cipher.

(** ** internal/tunnel/client.go: the reconnection loop *)

(** The fields of [config.ClientConfig] that the loop reads. *)
Record ClientConfig := mkClientConfig {
  Reconnect : bool;
  ReconnectDelay : Z;
  MaxRetries : Z
}.

(** The fields of [Client] that the loop reads or writes; [conn] is
    whether the connection pointer is non-nil, [stopped] whether [stopCh]
    has been closed. *)
Record Client := mkClient {
  config : ClientConfig;
  conn : bool;
  isRunning : bool;
  stopped : bool;
  reconnect : bool;
  retries : Z
}.

(** [NewClient]. *)
Definition NewClient (cfg : ClientConfig) : Client :=
  mkClient cfg false false false (Reconnect cfg) 0.

(** The first lines of [Client.Connect]: the flag is set before the loop
    is started. *)
Definition Connect_flag (c : Client) : Client :=
  mkClient (config c) (conn c) true (stopped c) (reconnect c) (retries c).

(** [Client.Stop]. *)
Definition Stop (c : Client) : Client :=
  if negb (isRunning c) then c
  else mkClient (config c) false false true (reconnect c) (retries c).

(** What the surroundings of the loop answer in one round of it. *)
Inductive Wait :=
| DelayElapsed      (* <-time.After(delay) *)
| StopSignal.       (* <-c.stopCh: Stop has been called *)

Inductive ConnectFailure :=
| DialFailed        (* net.DialTimeout failed: c.conn is not assigned *)
| HandshakeFailed.  (* NewTLSClientConn failed: c.conn is assigned nil *)

Inductive Session :=
| PumpError (stopCalled : bool) (w : Wait)  (* <-errCh; Stop may have run *)
| SessionStop.                               (* <-c.stopCh *)

Inductive Round :=
| ConnectFailed (f : ConnectFailure) (w : Wait)
| Connected (s : Session).

Definition set_isRunning (c : Client) (b : bool) : Client :=
  mkClient (config c) (conn c) b (stopped c) (reconnect c) (retries c).
Definition set_retries (c : Client) (n : Z) : Client :=
  mkClient (config c) (conn c) (isRunning c) (stopped c) (reconnect c) n.
Definition set_conn (c : Client) (b : bool) : Client :=
  mkClient (config c) b (isRunning c) (stopped c) (reconnect c) (retries c).

(** What a failed [connectToServer] leaves of the client: a failed dial
    leaves [c.conn] as it was, a failed handshake assigns nil to it. *)
Definition after_failure (f : ConnectFailure) (c : Client) : Client :=
  match f with DialFailed => c | HandshakeFailed => set_conn c false end.

(** The test of the loop after a failed connection attempt:
    [!c.reconnect || (c.config.MaxRetries > 0 && c.retries >= c.config.MaxRetries)]. *)
Definition gives_up (c : Client) : bool :=
  negb (reconnect c)
  || ((MaxRetries (config c) >? 0) && (retries c >=? MaxRetries (config c))).

(** [Client.runMainLoop], one round of the [for] loop for each element of
    [env].  The result is the client when the function returns and the
    number of calls of [connectToServer] ([attempts] counts them); [None]
    when [env] ends while the loop is still running. *)
Fixpoint runMainLoop (env : list Round) (c : Client) (attempts : nat)
    : option (Client * nat) :=
  if negb (isRunning c) then Some (c, attempts)
  else
    match env with
    | [] => None
    | ConnectFailed f w :: env =>
        let c := after_failure f c in
        if gives_up c then Some (set_isRunning c false, S attempts)
        else
          let c := set_retries c (int64 (retries c + 1)) in
          match w with
          | DelayElapsed => runMainLoop env c (S attempts)
          | StopSignal => Some (Stop c, S attempts)
          end
    | Connected s :: env =>
        let c := set_retries (set_conn c true) 0 in
        match s with
        | SessionStop => Some (Stop c, S attempts)
        | PumpError stopCalled w =>
            let c := if stopCalled then Stop c else c in
            let c := set_conn c false in
            if negb (isRunning c) then Some (c, S attempts)
            else if reconnect c then
              match w with
              | DelayElapsed => runMainLoop env c (S attempts)
              | StopSignal => Some (Stop c, S attempts)
              end
            else Some (set_isRunning c false, S attempts)
        end
    end.

(** The client of the reconnection example ([MaxRetries = 2], a delay of
    5 seconds), once [Connect] has set the flag, and the rounds in which
    the dial fails and the delay elapses. *)
Definition retry_twice : Client :=
  Connect_flag (NewClient (mkClientConfig true 5 2)).

Definition dial_fails (n : nat) : list Round :=
  replicate n (ConnectFailed DialFailed DelayElapsed).

(** The engine run state after the loop has returned. *)
Definition engine_stopped (c : Client) : Prop := isRunning c = false.

(** The surroundings in which the server is unreachable and nobody calls
    [Stop]: every connection attempt fails and every delay elapses. *)
Definition unreachable (env : list Round) : Prop :=
  Forall (fun r => ∃ f, r = ConnectFailed f DelayElapsed) env.

(** ** Forwarding a packet over several hops *)

(** The hop count a packet carries: the TTL byte of an IPv4 buffer, the
    hop-limit byte of an IPv6 buffer. *)
Definition hops_left (p : Packet) : Z :=
  match Type_ p with
  | PacketTypeIPv4 => TTL (Data p)
  | PacketTypeIPv6 => HopLimit (Data p)
  | PacketTypeUnknown => 0
  end.

(** [n] forwarding hops in a row, each calling [ModifyTTL] on the packet
    the hop before left, until one returns false: the number of hops that
    returned true and the packet at the end. *)
Fixpoint ModifyTTL_times (n : nat) (p : Packet) : option (nat * Packet) :=
  match n with
  | O => Some (O, p)
  | S n =>
      '(ok, p) ← ModifyTTL p;
      if ok : bool then '(k, p) ← ModifyTTL_times n p; Some (S k, p)
      else Some (O, p)
  end.

(** A packet whose buffer holds the bytes [ModifyTTL] touches. *)
Definition holds_hop_fields (p : Packet) : Prop :=
  (Type_ p = PacketTypeIPv4 ∧ (12 ≤ length (Data p))%nat) ∨
  (Type_ p = PacketTypeIPv6 ∧ (8 ≤ length (Data p))%nat).

(** The place and the size of the two addresses in the buffer of a
    packet. *)
Definition addr_size (p : Packet) : nat :=
  match Type_ p with
  | PacketTypeIPv4 => net_IPv4len
  | _ => net_IPv6len
  end.

Definition source_offset (p : Packet) : nat :=
  match Type_ p with PacketTypeIPv4 => 12 | _ => 8 end.

Definition destination_offset (p : Packet) : nat :=
  match Type_ p with PacketTypeIPv4 => 16 | _ => 24 end.

(** The bytes of a buffer outside of which an address rewrite at
    [offset] writes nothing: the address itself and, in an IPv4 header,
    the two checksum bytes. *)
Definition may_change (p : Packet) (offset i : nat) : Prop :=
  (offset ≤ i < offset + addr_size p)%nat ∨
  (Type_ p = PacketTypeIPv4 ∧ (i = 10 ∨ i = 11)%nat).

(** [n] bytes of a buffer from [offset] on. *)
Definition bytes_from (data : list byte) (offset n : nat) : list byte :=
  take n (drop offset data).

(** The buffer after a rewrite of 4 address bytes at [lo] and of the
    checksum bytes [x], [y]. *)
Definition rewritten_v4 (data new : list byte) (lo : nat) (x y : byte) : list byte :=
  let data1 := take lo data ++ new ++ drop (lo + 4) data in
  take 10 data1 ++ [x; y] ++ drop 12 data1.

(** Addresses for the examples: 10.0.0.1, fe80::9 and fe80::7. *)
Definition ten_0_0_1 : IP := hex [10; 0; 0; 1].
Definition fe80_9 : IP := hex [0xfe; 0x80; 0; 0; 0; 0; 0; 0; 0; 0; 0; 0; 0; 0; 0; 9].
Definition fe80_7 : IP := hex [0xfe; 0x80; 0; 0; 0; 0; 0; 0; 0; 0; 0; 0; 0; 0; 0; 7].

(** ** The read-only interface of the router *)

(** [Router.GetRoutes]: a copy of the table. *)
Definition GetRoutes (r : Router) : list Route := routes r.

(** [Router.GetStats]: the length of the table and the two counters. *)
Definition GetStats (r : Router) : Z * Z * Z :=
  (Z.of_nat (length (routes r)), ipv4Count r, ipv6Count r).

(** The values of a Go [int]. *)
Definition in_int64 (z : Z) : Prop := - 2 ^ 63 <= z < 2 ^ 63.


(** The number of routes of a table whose network is of the IPv4 family
    ([v4 = true]) or not ([v4 = false]), as [AddRoute] and [RemoveRoute]
    tell the families apart: [network.IP.To4() != nil]. *)
Definition family_count (is_IPv4 : IPNet -> bool) (v4 : bool) (rs : list Route) : Z :=
  Z.of_nat (length (filter (fun route => is_IPv4 (Network route) = v4) rs)).

(** The two counters against the table: their sum and the length of the
    table differ by a multiple of [2^64]. *)
Definition counters_agree (r : Router) : Prop :=
  (ipv4Count r + ipv6Count r - Z.of_nat (length (routes r))) mod 2 ^ 64 = 0.

(** The prefix text of a network [ParseCIDR] returns tells its family. *)
Definition text_tells_family (ParseCIDR : string -> option IPNet)
    (IPNet_String : IPNet -> string) (is_IPv4 : IPNet -> bool) : Prop :=
  ∀ c1 c2 n1 n2, ParseCIDR c1 = Some n1 -> ParseCIDR c2 = Some n2 ->
                 IPNet_String n1 = IPNet_String n2 -> is_IPv4 n1 = is_IPv4 n2.

(** Every route holds a network [ParseCIDR] returned, and each counter
    is the number of routes of its family, as a Go integer. *)
Definition counted (ParseCIDR : string -> option IPNet) (is_IPv4 : IPNet -> bool)
    (r : Router) : Prop :=
  (∀ route, route ∈ routes r -> ∃ cidr, ParseCIDR cidr = Some (Network route)) ∧
  ipv4Count r = int64 (family_count is_IPv4 true (routes r)) ∧
  ipv6Count r = int64 (family_count is_IPv4 false (routes r)).

(** The prefix [192.168.0.0/16], which the table of the routing example
    does not hold. *)
Definition net_192_168 : IPNet := mkIPNet (hex [192; 168; 0; 0]) (hex [255; 255; 0; 0]).

(** *** Sequences of calls on a [TLSConn] *)

(** The call on the wrapped connection that a call on an open wrapper
    makes. *)
Definition to_conn (c : cipher.Call) : cipher.ConnCall :=
  match c with
  | cipher.CallRead len => cipher.ConnRead len
  | cipher.CallWrite b => cipher.ConnWrite b
  | cipher.CallClose => cipher.ConnClose
  end.

(** What the wrapper returns of the answer of the wrapped connection:
    [Read] and [Write] return count and error, [Close] the error. *)
Definition returned (c : cipher.Call) (answer : Z * option cipher.IOError) : cipher.Returned :=
  match c with
  | cipher.CallRead _ | cipher.CallWrite _ => cipher.RetIO answer.1 answer.2
  | cipher.CallClose => cipher.RetClose answer.2
  end.

(** The calls of a sequence up to and including its first [Close]. *)
Fixpoint until_Close (cs : list cipher.Call) : list cipher.Call :=
  match cs with
  | [] => []
  | cipher.CallClose :: _ => [cipher.CallClose]
  | c :: cs => c :: until_Close cs
  end.

Definition has_Close (cs : list cipher.Call) : bool :=
  existsb (fun c => match c with cipher.CallClose => true | _ => false end) cs.

(** *** The client around the reconnection loop *)

(** [Client.IsConnected]. *)
Definition IsConnected (c : Client) : bool := isRunning c && conn c.

(** The deferred function of [runMainLoop], which runs when the loop
    returns: a send on [stopCh] that does not wait.  On the open channel
    the value is taken by [Connect], which waits for it, or dropped, and
    the client is as it was; on the channel that [Stop] has closed, a
    send is a run-time panic in Go, [None] here. *)
Definition signal_done (c : Client) : option Client :=
  if stopped c then None else Some c.

(** Rounds in which nobody calls [Stop]: a failed attempt followed by the
    full delay, or a session that ends in an error of a pump followed by
    the full delay. *)
Definition no_Stop (r : Round) : Prop :=
  match r with
  | ConnectFailed _ DelayElapsed => True
  | Connected (PumpError false DelayElapsed) => True
  | _ => False
  end.

(** Rounds in which [Stop] is called while the connection is up. *)
Definition Stop_in_session (r : Round) : Prop :=
  match r with
  | Connected SessionStop => True
  | Connected (PumpError true _) => True
  | _ => False
  end.

(** Rounds of an example: a session that ends in an error of a pump, the
    delay, a failed dial, and [Stop] during the delay that follows. *)
Definition session_then_Stop : list Round :=
  [Connected (PumpError false DelayElapsed); ConnectFailed DialFailed StopSignal].

(** *** Setting the connection up: [connectToServer], [NewTLSClientConn]
    and [NewTLSServerConn] *)

(** What the set-up does to the network and to the files, step by
    step. *)
Inductive NetAction :=
| Dial                   (* net.DialTimeout *)
| ReadCAFile             (* os.ReadFile(cfg.CACertFile) *)
| ParseCA                (* caCertPool.AppendCertsFromPEM *)
| LoadKeyPair            (* tls.LoadX509KeyPair *)
| SetHandshakeDeadline   (* tlsConn.SetDeadline(now + 10 s) *)
| Handshake              (* tlsConn.Handshake *)
| ClearDeadline          (* tlsConn.SetDeadline(time.Time{}) *)
| CloseTLS               (* tlsConn.Close, which closes the connection under it *)
| CloseTCP.              (* conn.Close on the TCP connection *)

#[global] Instance NetAction_eq_dec : EqDecision NetAction.
Proof. solve_decision. Defined.

(** Which of the steps that can fail succeed. *)
Record Outcomes := mkOutcomes {
  dial_ok : bool;
  read_ca_ok : bool;
  parse_ca_ok : bool;
  load_pair_ok : bool;
  set_deadline_ok : bool;
  handshake_ok : bool;
  clear_deadline_ok : bool
}.

(** The fields of [config.ClientConfig] that [NewTLSClientConn] reads. *)
Record ClientTLSConfig := mkClientTLSConfig {
  CACertFile : string;
  AuthMode : string;
  ClientCert : string;
  ClientKey : string;
  SkipVerify : bool
}.

(** A computation that acts on its surroundings and returns a value or
    an error ([None]): the actions done, in order, and the result. *)
Definition Traced (Act A : Type) : Type := list Act * option A.

Definition ret_traced {Act A} (a : A) : Traced Act A := ([], Some a).

Definition bind_traced {Act A B} (m : Traced Act A) (f : A -> Traced Act B) : Traced Act B :=
  match m with
  | (tr, None) => (tr, None)
  | (tr, Some a) => let '(tr', r) := f a in (tr ++ tr', r)
  end.

(** One step, which fails or not. *)
Definition step {Act} (a : Act) (ok : bool) : Traced Act unit :=
  ([a], if ok then Some tt else None).

(** [if err != nil { cleanup; return nil, err }]. *)
Definition on_error {Act A} (m : Traced Act A) (cleanup : list Act) : Traced Act A :=
  match m with
  | (tr, None) => (tr ++ cleanup, None)
  | _ => m
  end.

(** The end of both constructors: deadline, handshake, deadline cleared;
    the first failure closes the TCP connection, the later ones the TLS
    connection over it. *)
Definition handshake_with_deadline (o : Outcomes) : Traced NetAction cipher.TLSConn :=
  bind_traced (on_error (step SetHandshakeDeadline (set_deadline_ok o)) [CloseTCP]) (fun _ =>
  bind_traced (on_error (step Handshake (handshake_ok o)) [CloseTLS]) (fun _ =>
  bind_traced (on_error (step ClearDeadline (clear_deadline_ok o)) [CloseTLS]) (fun _ =>
  ret_traced (cipher.mkTLSConn [] false)))).

(** [cipher.NewTLSServerConn]. *)
Definition NewTLSServerConn (o : Outcomes) : Traced NetAction cipher.TLSConn :=
  bind_traced (step LoadKeyPair (load_pair_ok o)) (fun _ =>
  handshake_with_deadline o).

Definition uses_CA (cfg : ClientTLSConfig) : bool :=
  negb (String.eqb (CACertFile cfg) "").

Definition uses_certificate (cfg : ClientTLSConfig) : bool :=
  String.eqb (AuthMode cfg) "certificate"
  && negb (String.eqb (ClientCert cfg) "") && negb (String.eqb (ClientKey cfg) "").

(** [cipher.NewTLSClientConn]. *)
Definition NewTLSClientConn (cfg : ClientTLSConfig) (o : Outcomes)
    : Traced NetAction cipher.TLSConn :=
  bind_traced (if uses_CA cfg
               then bind_traced (step ReadCAFile (read_ca_ok o)) (fun _ =>
                    step ParseCA (parse_ca_ok o))
               else ret_traced tt) (fun _ =>
  bind_traced (if uses_certificate cfg
               then step LoadKeyPair (load_pair_ok o)
               else ret_traced tt) (fun _ =>
  handshake_with_deadline o)).

(** [Client.connectToServer]: the actions, the client, and the failure
    if the function returns an error.  [c.conn] is assigned whatever
    [NewTLSClientConn] returns, nil in case of an error. *)
Definition connectToServer (cfg : ClientTLSConfig) (o : Outcomes) (c : Client)
    : list NetAction * Client * option ConnectFailure :=
  if negb (dial_ok o) then ([Dial], c, Some DialFailed)
  else
    match NewTLSClientConn cfg o with
    | (tr, None) => (Dial :: tr ++ [CloseTCP], set_conn c false, Some HandshakeFailed)
    | (tr, Some _) => (Dial :: tr, set_conn c true, None)
    end.

(** The steps of [NewTLSClientConn] that a configuration asks for all
    succeed. *)
Definition tls_steps_ok (cfg : ClientTLSConfig) (o : Outcomes) : bool :=
  (negb (uses_CA cfg) || (read_ca_ok o && parse_ca_ok o))
  && (negb (uses_certificate cfg) || load_pair_ok o)
  && set_deadline_ok o && handshake_ok o && clear_deadline_ok o.

(** A connection is closed by closing it or the TLS connection over it. *)
Definition closes (a : NetAction) : bool :=
  match a with CloseTLS | CloseTCP => true | _ => false end.

(** *** The two pumps of the client: [handleTUNPackets] and
    [handleServerPackets] *)

(** One turn of the loop of a pump, as its surroundings decide it: the
    client is not running any more when the loop tests [c.isRunning], or
    [Read] returns an error, or [Read] fills the first [n] bytes of the
    buffer and returns [n]; [data] is [buffer[:n]]. *)
Inductive Turn :=
| NotRunning
| ReadError
| ReadData (data : list byte).

(** How a pump is left: the surroundings gave no more turns, the loop
    ended because the client is not running, or an error went to
    [errCh] after a failed read or a failed write. *)
Inductive PumpExit :=
| StillPumping
| LoopEnded
| FailedRead
| FailedWrite.

Section Pumps.

Variable ipv4_ParseHeader : list byte -> ipv4_Header + string.
Variable ipv6_ParseHeader : list byte -> ipv6_Header + string.

(** The body that the two pumps share, for a destination of any kind:
    [write] is the [Write] of the destination, with the state of the
    destination after the call and whether the call succeeded; [bytes] is
    the counter of the pump, a [uint64]. *)
Fixpoint pump {W : Type} (write : W -> list byte -> W * bool)
    (env : list Turn) (w : W) (bytes : Z) : W * Z * PumpExit :=
  match env with
  | [] => (w, bytes, StillPumping)
  | NotRunning :: _ => (w, bytes, LoopEnded)
  | ReadError :: _ => (w, bytes, FailedRead)
  | ReadData data :: env =>
      let bytes := (bytes + Z.of_nat (length data)) mod 2 ^ 64 in
      match ParsePacket ipv4_ParseHeader ipv6_ParseHeader data with
      | inr _ => pump write env w bytes
      | inl packet =>
          let '(w, ok) := write w (Data packet) in
          if ok then pump write env w bytes else (w, bytes, FailedWrite)
      end
  end.

(** [c.conn.Write] as the pump uses it: the count is dropped. *)
Definition conn_Write (conn_io : list cipher.ConnCall -> cipher.ConnCall -> Z * option cipher.IOError)
    (t : cipher.TLSConn) (b : list byte) : cipher.TLSConn * bool :=
  let '(t, (_, err)) := cipher.Write conn_io t b in
  (t, match err with None => true | Some _ => false end).

(** [Client.handleTUNPackets]: the turns are those of [c.tunDevice.Read],
    the destination is the secure transport [c.conn], taken as the same
    wrapper for the whole run of the pump, the counter is [c.bytesOut]. *)
Definition handleTUNPackets
    (conn_io : list cipher.ConnCall -> cipher.ConnCall -> Z * option cipher.IOError)
    (env : list Turn) (t : cipher.TLSConn) (bytesOut : Z) : cipher.TLSConn * Z * PumpExit :=
  pump (conn_Write conn_io) env t bytesOut.

(** [TUNDevice.Write] as the pump uses it: the device is kept as the
    buffers written to it so far (latest first); whether a write succeeds
    is any function of them. *)
Definition tun_Write (tun_ok : list (list byte) -> list byte -> bool)
    (written : list (list byte)) (b : list byte) : list (list byte) * bool :=
  (b :: written, tun_ok written b).

(** [Client.handleServerPackets]: the turns are those of [c.conn.Read],
    the destination is the TUN device, the counter is [c.bytesIn]. *)
Definition handleServerPackets (tun_ok : list (list byte) -> list byte -> bool)
    (env : list Turn) (written : list (list byte)) (bytesIn : Z)
    : list (list byte) * Z * PumpExit :=
  pump (tun_Write tun_ok) env written bytesIn.

(** Whether a buffer parses. *)
Definition parses (data : list byte) : bool :=
  match ParsePacket ipv4_ParseHeader ipv6_ParseHeader data with
  | inl _ => true
  | inr _ => false
  end.

End Pumps.

(** The buffers of the turns in which [Read] succeeds, up to the first
    turn in which it does not or the client is not running. *)
Fixpoint leading_reads (env : list Turn) : list (list byte) :=
  match env with
  | ReadData data :: env => data :: leading_reads env
  | _ => []
  end.

(** The number of bytes of some buffers. *)
Definition total_length (l : list (list byte)) : Z :=
  Z.of_nat (length (concat l)).

(** The exit of a pump that no failed write stops, read off the turn
    that follows the leading reads. *)
Definition exit_of (env : list Turn) : PumpExit :=
  match env !! length (leading_reads env) with
  | Some NotRunning => LoopEnded
  | Some ReadError => FailedRead
  | _ => StillPumping
  end.

(** Turns of an example: an IPv4 packet, three bytes that are no packet,
    an IPv6 packet, and the client stopped. *)
Definition packets_and_noise : list Turn :=
  [ReadData sample_v4; ReadData (hex [1; 2; 3]); ReadData sample_v6; NotRunning].

(** *** The TUN device: [NewTUNDevice], [createTUN], [configureTUN] *)

(** What the creation of the device asks of the system, step by step. *)
Inductive SysAction :=
| ParseTunIP     (* net.ParseCIDR(tunIP) *)
| OpenTun        (* unix.Open of /dev/net/tun *)
| SetIff         (* the TUNSETIFF ioctl *)
| CloseFd        (* unix.Close(fd) *)
| LinkByName     (* netlink.LinkByName *)
| LinkSetMTU     (* netlink.LinkSetMTU *)
| AddrAdd        (* netlink.AddrAdd *)
| LinkSetUp.     (* netlink.LinkSetUp *)

#[global] Instance SysAction_eq_dec : EqDecision SysAction.
Proof. solve_decision. Defined.

(** Which of the steps succeed; for [AddrAdd], the text of its error
    ([None]: no error). *)
Record TunOutcomes := mkTunOutcomes {
  parse_ip_ok : bool;
  open_ok : bool;
  ioctl_ok : bool;
  link_ok : bool;
  mtu_ok : bool;
  addr_add_error : option string;
  up_ok : bool
}.

(** [strings.Contains]. *)
Definition strings_Contains (s substr : string) : bool :=
  match String.index 0 substr s with Some _ => true | None => false end.

(** [createTUN]. *)
Definition createTUN (o : TunOutcomes) : Traced SysAction unit :=
  bind_traced (step OpenTun (open_ok o)) (fun _ =>
  on_error (step SetIff (ioctl_ok o)) [CloseFd]).

(** Whether [configureTUN] goes on after [AddrAdd]: there is no error,
    or its text contains [file exists]. *)
Definition addr_add_passes (o : TunOutcomes) : bool :=
  match addr_add_error o with
  | None => true
  | Some msg => strings_Contains msg "file exists"
  end.

(** [configureTUN]. *)
Definition configureTUN (o : TunOutcomes) : Traced SysAction unit :=
  bind_traced (step LinkByName (link_ok o)) (fun _ =>
  bind_traced (step LinkSetMTU (mtu_ok o)) (fun _ =>
  bind_traced (step AddrAdd (addr_add_passes o)) (fun _ =>
  step LinkSetUp (up_ok o)))).

(** The field of [TUNDevice] that [Start] and [Stop] read or write. *)
Record TUNDevice := mkTUNDevice {
  tun_isRunning : bool
}.

(** [NewTUNDevice]; [known] is whether the configuration is a
    [*config.ServerConfig] or a [*config.ClientConfig]. *)
Definition NewTUNDevice (known : bool) (o : TunOutcomes) : Traced SysAction TUNDevice :=
  if negb known then ([], None)
  else
    bind_traced (step ParseTunIP (parse_ip_ok o)) (fun _ =>
    bind_traced (createTUN o) (fun _ =>
    bind_traced (on_error (configureTUN o) [CloseFd]) (fun _ =>
    ret_traced (mkTUNDevice false)))).

(** Every step of the creation succeeds. *)
Definition tun_steps_ok (o : TunOutcomes) : bool :=
  parse_ip_ok o && open_ok o && ioctl_ok o && link_ok o && mtu_ok o
  && addr_add_passes o && up_ok o.

(** ** internal/config and the overrides of cmd/tunocli *)

Module config.

(** The fields of [ServerConfig] and [ClientConfig] that [validateConfig]
    reads or the command line overrides. *)
Record ServerConfig := mkServerConfig {
  ListenAddr : string;
  sTunDevice : string;
  sTunIP : string;
  CertFile : string;
  KeyFile : string
}.

Record ClientConfig := mkClientConfig {
  ServerAddr : string;
  cTunDevice : string;
  cTunIP : string;
  cCACertFile : string
}.

(** The argument of [validateConfig], an [interface{}]. *)
Inductive AnyConfig :=
| Server (cfg : ServerConfig)
| Client (cfg : ClientConfig)
| Other.

Inductive ConfigError :=
| ErrListenAddrEmpty
| ErrServerAddrEmpty
| ErrTunDeviceEmpty
| ErrTunIPEmpty
| ErrCertAndKeyRequired
| ErrUnknownConfigType.

Definition empty (s : string) : bool := String.eqb s "".

(** [validateConfig]; [None] is the nil error. *)
Definition validateConfig (c : AnyConfig) : option ConfigError :=
  match c with
  | Server cfg =>
      if empty (ListenAddr cfg) then Some ErrListenAddrEmpty
      else if empty (sTunDevice cfg) then Some ErrTunDeviceEmpty
      else if empty (sTunIP cfg) then Some ErrTunIPEmpty
      else if empty (CertFile cfg) || empty (KeyFile cfg) then Some ErrCertAndKeyRequired
      else None
  | Client cfg =>
      if empty (ServerAddr cfg) then Some ErrServerAddrEmpty
      else if empty (cTunDevice cfg) then Some ErrTunDeviceEmpty
      else if empty (cTunIP cfg) then Some ErrTunIPEmpty
      else None
  | Other => Some ErrUnknownConfigType
  end.

(** [if flag != "" { field = flag }]. *)
Definition override (flag field : string) : string :=
  if empty flag then field else flag.

(** The overrides of the [server] command, after [LoadServerConfig]. *)
Definition server_overrides (listenAddr tunDevice tunIP certFile keyFile : string)
    (cfg : ServerConfig) : ServerConfig :=
  mkServerConfig (override listenAddr (ListenAddr cfg)) (override tunDevice (sTunDevice cfg))
    (override tunIP (sTunIP cfg)) (override certFile (CertFile cfg))
    (override keyFile (KeyFile cfg)).

(** The overrides of the [client] command, after [LoadClientConfig]. *)
Definition client_overrides (serverAddr tunDevice tunIP caCertFile : string)
    (cfg : ClientConfig) : ClientConfig :=
  mkClientConfig (override serverAddr (ServerAddr cfg)) (override tunDevice (cTunDevice cfg))
    (override tunIP (cTunIP cfg)) (override caCertFile (cCACertFile cfg)).

End config.
(** * Properties *)

(** ** Bytes and 16-bit words *)

Lemma byte_range (b : byte) : 0 <= byte.unsigned b < 256.
Proof. pose proof (byte.unsigned_range b). lia. Qed.

Lemma byte_of_Z_small (z : Z) : 0 <= z < 256 -> byte.unsigned (byte.of_Z z) = z.
Proof.
  intros Hz. rewrite byte.unsigned_of_Z. unfold byte.wrap.
  apply Z.mod_small. lia.
Qed.

(** A byte and a value shifted left by eight bits share no bit. *)
Lemma land_low_high (hi lo : Z) :
  0 <= hi -> 0 <= lo < 256 -> Z.land lo (hi * 2 ^ 8) = 0.
Proof.
  intros Hhi Hlo.
  apply Z.bits_inj'; intros n Hn. rewrite Z.land_spec, Z.bits_0.
  destruct (Z.ltb_spec n 8).
  - rewrite Z.mul_pow2_bits_low by lia. apply Bool.andb_false_r.
  - replace (Z.testbit lo n) with false; [reflexivity|].
    symmetry. destruct (Z.eq_dec lo 0) as [->|].
    + apply Z.bits_0.
    + apply Z.bits_above_log2; [lia|].
      apply Z.log2_lt_pow2; [lia|].
      apply Z.lt_le_trans with (2 ^ 8); [change (2 ^ 8) with 256; lia|].
      apply Z.pow_le_mono_r; lia.
Qed.

(** [lo | hi << 8] is [hi * 256 + lo] for two bytes. *)
Lemma lor_shiftl_bytes (hi lo : Z) :
  0 <= hi -> 0 <= lo < 256 -> Z.lor lo (Z.shiftl hi 8) = hi * 256 + lo.
Proof.
  intros Hhi Hlo.
  rewrite Z.shiftl_mul_pow2 by lia.
  rewrite <- Z.lxor_lor by (apply land_low_high; lia).
  rewrite <- Z.add_nocarry_lxor by (apply land_low_high; lia).
  change (2 ^ 8) with 256. lia.
Qed.

Lemma Uint16_pair (hi lo : byte) :
  Go.Uint16 [hi; lo] = Some (byte.unsigned hi * 256 + byte.unsigned lo).
Proof.
  unfold Go.Uint16. simpl. f_equal.
  apply lor_shiftl_bytes; pose proof (byte_range hi); pose proof (byte_range lo); lia.
Qed.

(** The two bytes [PutUint16] writes, read back as a word. *)
Lemma PutUint16_bytes (v : Z) :
  0 <= v < 65536 ->
  byte.unsigned (byte.of_Z (Z.shiftr v 8)) * 256 + byte.unsigned (byte.of_Z v) = v.
Proof.
  intros Hv. rewrite !byte.unsigned_of_Z. unfold byte.wrap.
  rewrite Z.shiftr_div_pow2 by lia.
  change (2 ^ 8) with 256. Z.div_mod_to_equations. lia.
Qed.

(** ** One's-complement sums *)

Lemma ones_norm_range (x : Z) : 0 <= x -> 0 <= ones_norm x <= 65535.
Proof.
  intros Hx. unfold ones_norm. destruct (Z.eqb_spec x 0); [lia|].
  Z.div_mod_to_equations. lia.
Qed.

(** Adding a word to a folded sum folds the plain sum. *)
Lemma ones_add_norm (a b : Z) :
  is_word a -> 0 <= b -> ones_add a (ones_norm b) = ones_norm (a + b).
Proof.
  unfold is_word, ones_add, ones_norm. intros Ha Hb.
  change (2 ^ 16) with 65536.
  destruct (Z.eqb_spec b 0); destruct (Z.eqb_spec (a + b) 0);
    Z.div_mod_to_equations; lia.
Qed.

Lemma word_total_nonneg (ws : list Z) : Forall is_word ws -> 0 <= word_total ws.
Proof. induction 1 as [|w ws Hw _ IH]; simpl; unfold is_word in *; lia. Qed.

Lemma ones_sum_norm (ws : list Z) :
  Forall is_word ws -> ones_sum ws = ones_norm (word_total ws).
Proof.
  induction 1 as [|w ws Hw Hws IH]; [reflexivity|].
  simpl. fold (ones_sum ws). rewrite IH.
  apply ones_add_norm; [assumption | apply word_total_nonneg; assumption].
Qed.

(** The words of a byte string are 16-bit words.  The function recurses
    two bytes at a time, so the statement covers a string and the string
    with one more byte. *)
Lemma be_words_is_word (bs : list byte) :
  Forall is_word (be_words bs) ∧ ∀ b, Forall is_word (be_words (b :: bs)).
Proof.
  induction bs as [|b' bs [IH1 IH2]].
  - split; [constructor|]. intros b. simpl. constructor; [|constructor].
    unfold is_word. pose proof (byte_range b). lia.
  - split; [apply IH2|]. intros b. simpl. constructor; [|exact IH1].
    unfold is_word. pose proof (byte_range b). pose proof (byte_range b'). lia.
Qed.

Lemma ones_sum_be_words (bs : list byte) :
  ones_sum (be_words bs) = ones_norm (word_total (be_words bs)).
Proof. apply ones_sum_norm, be_words_is_word. Qed.

Lemma word_total_be_words_nonneg (bs : list byte) : 0 <= word_total (be_words bs).
Proof. apply word_total_nonneg, be_words_is_word. Qed.

(** The arithmetic of the TTL update.  [rest] is the plain sum of the
    header words other than the TTL word [w] and the checksum [c]. *)
Lemma ttl_update_arith (rest w c : Z) :
  0 <= rest -> 512 <= w <= 65535 ->
  c = 65535 - ones_norm (rest + w) ->
  ones_norm (rest + (w - 256) + ttl_checksum c) = 65535 ∧
  (c ≠ 0xFEFF -> ttl_checksum c = 65535 - ones_norm (rest + (w - 256))).
Proof.
  unfold ttl_checksum.
  intros Hrest Hw Hc. cbv zeta. change (2 ^ 16) with 65536.
  unfold ones_norm in *.
  destruct (Z.eqb_spec (rest + w) 0); [lia|].
  destruct (Z.eqb_spec (rest + (w - 256)) 0); [lia|].
  assert (Hc' : 0 <= c <= 65534) by (Z.div_mod_to_equations; lia).
  destruct (Z.leb_spec ((c + 256) mod 65536) 255) as [Hle|Hgt].
  - assert (Hhi : 65280 <= c) by (Z.div_mod_to_equations; lia).
    replace ((c + 256) mod 65536) with (c + 256 - 65536)
      by (Z.div_mod_to_equations; lia).
    replace ((c + 256 - 65536 + 1) mod 65536) with (c - 65279)
      by (Z.div_mod_to_equations; lia).
    destruct (Z.eqb_spec (rest + (w - 256) + (c - 65279)) 0); [lia|].
    split; [|intros _]; Z.div_mod_to_equations; lia.
  - assert (Hlo : c < 65280) by (Z.div_mod_to_equations; lia).
    replace ((c + 256) mod 65536) with (c + 256)
      by (Z.div_mod_to_equations; lia).
    destruct (Z.eqb_spec (rest + (w - 256) + (c + 256)) 0); [lia|].
    split; [|intros Hne]; Z.div_mod_to_equations; lia.
Qed.

(** [explode data n]: the first [n] bytes of a buffer known to be long
    enough, by name. *)
Tactic Notation "explode" ident(data) integer(n) :=
  do n (destruct data as [|? data]; [simpl in *; lia|]).

(** ** [ModifyTTL] on a packet that is still alive *)

Lemma ModifyTTL_v4_live (a0 a1 a2 a3 a4 a5 a6 a7 ttl a9 c0 c1 : byte)
    (rest : list byte) (s d : IP) (pr : Z) :
  2 <= byte.unsigned ttl ->
  ModifyTTL (mkPacket (a0 :: a1 :: a2 :: a3 :: a4 :: a5 :: a6 :: a7 :: ttl :: a9
                          :: c0 :: c1 :: rest) s d pr PacketTypeIPv4)
  = let c := ttl_checksum (byte.unsigned c0 * 256 + byte.unsigned c1) in
    Some (true,
          mkPacket (a0 :: a1 :: a2 :: a3 :: a4 :: a5 :: a6 :: a7
                      :: byte.of_Z (byte.unsigned ttl - 1) :: a9
                      :: byte.of_Z (Z.shiftr c 8) :: byte.of_Z c :: rest)
            s d pr PacketTypeIPv4).
Proof.
  intros Httl. unfold ModifyTTL.
  cbn [Type_ Data lookup list_lookup mbind option_bind].
  destruct (Z.leb_spec (byte.unsigned ttl) 1); [lia|].
  cbn [insert list_insert]. unfold Go.slice.
  case_decide as Hlen; [|simpl in Hlen; lia].
  cbn [firstn skipn Nat.sub mbind option_bind].
  rewrite Uint16_pair. cbn [mbind option_bind].
  unfold Go.PutUint16, Go.store.
  cbn [lookup list_lookup mbind option_bind insert list_insert app length
       Nat.add firstn skipn].
  reflexivity.
Qed.

Lemma ModifyTTL_v6_live (a0 a1 a2 a3 a4 a5 a6 hop : byte)
    (rest : list byte) (s d : IP) (pr : Z) :
  2 <= byte.unsigned hop ->
  ModifyTTL (mkPacket (a0 :: a1 :: a2 :: a3 :: a4 :: a5 :: a6 :: hop :: rest)
               s d pr PacketTypeIPv6)
  = Some (true,
          mkPacket (a0 :: a1 :: a2 :: a3 :: a4 :: a5 :: a6
                      :: byte.of_Z (byte.unsigned hop - 1) :: rest)
            s d pr PacketTypeIPv6).
Proof.
  intros Hhop. unfold ModifyTTL.
  cbn [Type_ Data lookup list_lookup mbind option_bind].
  destruct (Z.leb_spec (byte.unsigned hop) 1); [lia|]. reflexivity.
Qed.

Lemma ttl_checksum_range (c : Z) : 0 <= ttl_checksum c < 65536.
Proof.
  unfold ttl_checksum. change (2 ^ 16) with 65536.
  destruct (Z.leb_spec ((c + 256) mod 65536) 255);
    Z.div_mod_to_equations; lia.
Qed.

(** ** The address rewrite does not panic *)

Lemma adjustment_loop_step (fuel i : nat) (oldAddr newAddr : list byte) (adj o n : Z) :
  (i < length oldAddr)%nat ->
  Go.slice oldAddr i (i + 2) ≫= Go.Uint16 = Some o ->
  Go.slice newAddr i (i + 2) ≫= Go.Uint16 = Some n ->
  adjustment_loop (S fuel) i oldAddr newAddr adj
  = adjustment_loop fuel (i + 2) oldAddr newAddr
      (((adj + o) mod 2 ^ 32 + Z.lxor n 0xFFFF) mod 2 ^ 32).
Proof.
  intros Hi Ho Hn. cbn [adjustment_loop].
  destruct (Nat.ltb_spec i (length oldAddr)); [|lia].
  rewrite Ho. cbn [mbind option_bind]. rewrite Hn. reflexivity.
Qed.

Lemma adjustment_loop_exit (fuel i : nat) (oldAddr newAddr : list byte) (adj : Z) :
  (length oldAddr ≤ i)%nat ->
  adjustment_loop fuel i oldAddr newAddr adj = Some adj.
Proof.
  intros Hi. destruct fuel; [reflexivity|]. cbn [adjustment_loop].
  destruct (Nat.ltb_spec i (length oldAddr)); [lia|reflexivity].
Qed.

Lemma adjustment_loop_IPv4 (o0 o1 o2 o3 n0 n1 n2 n3 : byte) :
  is_Some (adjustment_loop 4 0 [o0; o1; o2; o3] [n0; n1; n2; n3] 0).
Proof.
  erewrite adjustment_loop_step;
    [| simpl; lia | apply (Uint16_pair o0 o1) | apply (Uint16_pair n0 n1)].
  erewrite adjustment_loop_step;
    [| simpl; lia | apply (Uint16_pair o2 o3) | apply (Uint16_pair n2 n3)].
  rewrite adjustment_loop_exit by (simpl; lia). eauto.
Qed.

Lemma recalculate_no_panic (packet : list byte) (o0 o1 o2 o3 n0 n1 n2 n3 : byte) :
  (12 ≤ length packet)%nat ->
  is_Some (recalculateIPv4Checksum packet [o0; o1; o2; o3] [n0; n1; n2; n3]).
Proof.
  intros Hlen. explode packet 12.
  unfold recalculateIPv4Checksum, Go.slice.
  case_decide as H12; [|simpl in H12; lia].
  cbn [firstn skipn Nat.sub mbind option_bind].
  rewrite !Uint16_pair. cbn [mbind option_bind length].
  destruct (adjustment_loop_IPv4 o0 o1 o2 o3 n0 n1 n2 n3) as [adj ->].
  cbn [mbind option_bind]. unfold Go.PutUint16.
  cbn [lookup list_lookup mbind option_bind]. eauto.
Qed.

Ltac crush_slices :=
  repeat (rewrite ?take_0, ?drop_0, ?take_nil, ?drop_nil;
          cbn [firstn skipn length replicate app Nat.add Nat.sub]).

Lemma ReplaceSource_v4_ok (data : list byte) (s d newSource : IP) (pr : Z) :
  (20 ≤ length data)%nat -> length newSource = 4%nat ->
  ∃ data', ReplaceSourceAddress (mkPacket data s d pr PacketTypeIPv4) newSource
           = Some (mkPacket data' newSource d pr PacketTypeIPv4, None).
Proof.
  intros Hlen Hnew. unfold ReplaceSourceAddress. cbn [Type_ Data].
  case_decide; [contradiction|].
  explode data 16.
  destruct newSource as [|n0 [|n1 [|n2 [|n3 [|]]]]]; try discriminate.
  unfold Go.slice at 1. case_decide as H16; [|simpl in H16; lia].
  cbn [mbind option_bind].
  unfold Go.copy, Go.store, net_IPv4len. crush_slices.
  match goal with
  | |- context [recalculateIPv4Checksum ?pk [?o0; ?o1; ?o2; ?o3] _] =>
      destruct (recalculate_no_panic pk o0 o1 o2 o3 n0 n1 n2 n3) as [data' ->];
      [simpl; lia|]
  end.
  eexists. reflexivity.
Qed.

Lemma ReplaceDestination_v4_ok (data : list byte) (s d newDest : IP) (pr : Z) :
  (20 ≤ length data)%nat -> length newDest = 4%nat ->
  ∃ data', ReplaceDestinationAddress (mkPacket data s d pr PacketTypeIPv4) newDest
           = Some (mkPacket data' s newDest pr PacketTypeIPv4, None).
Proof.
  intros Hlen Hnew. unfold ReplaceDestinationAddress. cbn [Type_ Data].
  case_decide; [contradiction|].
  explode data 20.
  destruct newDest as [|n0 [|n1 [|n2 [|n3 [|]]]]]; try discriminate.
  unfold Go.slice at 1. case_decide as H20; [|simpl in H20; lia].
  cbn [mbind option_bind].
  unfold Go.copy, Go.store, net_IPv4len. crush_slices.
  match goal with
  | |- context [recalculateIPv4Checksum ?pk [?o0; ?o1; ?o2; ?o3] _] =>
      destruct (recalculate_no_panic pk o0 o1 o2 o3 n0 n1 n2 n3) as [data' ->];
      [simpl; lia|]
  end.
  eexists. reflexivity.
Qed.

Lemma ReplaceSource_v6_ok (data : list byte) (s d newSource : IP) (pr : Z) :
  (40 ≤ length data)%nat -> length newSource = 16%nat ->
  ∃ data', ReplaceSourceAddress (mkPacket data s d pr PacketTypeIPv6) newSource
           = Some (mkPacket data' newSource d pr PacketTypeIPv6, None).
Proof.
  intros Hlen Hnew. unfold ReplaceSourceAddress. cbn [Type_ Data].
  case_decide; [contradiction|].
  unfold Go.slice. case_decide; [|lia]. eexists. reflexivity.
Qed.

Lemma ReplaceDestination_v6_ok (data : list byte) (s d newDest : IP) (pr : Z) :
  (40 ≤ length data)%nat -> length newDest = 16%nat ->
  ∃ data', ReplaceDestinationAddress (mkPacket data s d pr PacketTypeIPv6) newDest
           = Some (mkPacket data' s newDest pr PacketTypeIPv6, None).
Proof.
  intros Hlen Hnew. unfold ReplaceDestinationAddress. cbn [Type_ Data].
  case_decide; [contradiction|].
  unfold Go.slice. case_decide; [|lia]. eexists. reflexivity.
Qed.

(** ** Parsed packets *)

Section ParsedPackets.

Variable ipv4_ParseHeader : list byte -> ipv4_Header + string.
Variable ipv6_ParseHeader : list byte -> ipv6_Header + string.

Abbreviation ParsePacket := (ParsePacket ipv4_ParseHeader ipv6_ParseHeader).

(** What a successful parse tells about the packet: it views the very
    buffer, and the buffer holds a whole fixed header of the version of
    its tag. *)
Lemma ParsePacket_inl (data : list byte) (p : Packet) :
  ParsePacket data = inl p ->
  Data p = data ∧
  ((Type_ p = PacketTypeIPv4 ∧ version_of data = Some 4 ∧ (20 ≤ length data)%nat) ∨
   (Type_ p = PacketTypeIPv6 ∧ version_of data = Some 6 ∧ (40 ≤ length data)%nat)).
Proof.
  unfold ParsePacket, version_of.
  destruct data as [|b0 rest]; [discriminate|].
  cbn [head fmap option_fmap option_map].
  unfold IPv4Version, IPv6Version.
  destruct (Z.eqb_spec (version_nibble b0) 4) as [E4|N4].
  - unfold parseIPv4Packet, ipv4_HeaderLen.
    destruct (Nat.ltb_spec (length (b0 :: rest)) 20); [discriminate|].
    destruct (ipv4_ParseHeader (b0 :: rest)); [|discriminate].
    intros [= <-]. simpl. rewrite E4. split; [reflexivity|]. left. auto.
  - destruct (Z.eqb_spec (version_nibble b0) 6) as [E6|N6]; [|discriminate].
    unfold parseIPv6Packet, ipv6_HeaderLen.
    destruct (Nat.ltb_spec (length (b0 :: rest)) 40); [discriminate|].
    destruct (ipv6_ParseHeader (b0 :: rest)); [|discriminate].
    intros [= <-]. simpl. rewrite E6. split; [reflexivity|]. right. auto.
Qed.

(** C8.  [ParsePacket] fails on the empty buffer (too short), on a buffer
    whose version nibble is neither 4 nor 6 (unsupported version), on a
    version-4 buffer of fewer than 20 bytes and on a version-6 buffer of
    fewer than 40 bytes (too short); when it succeeds the type tag of
    the packet is the one of the version nibble of the buffer. *)
Theorem C8_ParsePacket_errors (data : list byte) :
  (data = [] -> ParsePacket data = inr ErrPacketTooShort) ∧
  (∀ v, version_of data = Some v -> v ≠ 4 -> v ≠ 6 ->
        ParsePacket data = inr (ErrUnsupportedVersion v)) ∧
  (version_of data = Some 4 -> (length data < 20)%nat ->
     ParsePacket data = inr (ErrIPv4TooShort (length data))) ∧
  (version_of data = Some 6 -> (length data < 40)%nat ->
     ParsePacket data = inr (ErrIPv6TooShort (length data))) ∧
  (∀ p, ParsePacket data = inl p ->
        (Type_ p = PacketTypeIPv4 ∧ version_of data = Some 4) ∨
        (Type_ p = PacketTypeIPv6 ∧ version_of data = Some 6)).
Proof.
  repeat split.
  - intros ->. reflexivity.
  - intros v Hv N4 N6. destruct data as [|b0 rest]; [discriminate|].
    injection Hv as <-. unfold ParsePacket, IPv4Version, IPv6Version.
    destruct (Z.eqb_spec (version_nibble b0) 4); [contradiction|].
    destruct (Z.eqb_spec (version_nibble b0) 6); [contradiction|].
    reflexivity.
  - intros Hv Hlen. destruct data as [|b0 rest]; [discriminate|].
    injection Hv as Hv. unfold ParsePacket, IPv4Version. rewrite Hv. simpl Z.eqb.
    cbv iota. unfold parseIPv4Packet, ipv4_HeaderLen.
    destruct (Nat.ltb_spec (length (b0 :: rest)) 20); [reflexivity|lia].
  - intros Hv Hlen. destruct data as [|b0 rest]; [discriminate|].
    injection Hv as Hv. unfold ParsePacket, IPv4Version, IPv6Version. rewrite Hv.
    simpl Z.eqb. cbv iota. unfold parseIPv6Packet, ipv6_HeaderLen.
    destruct (Nat.ltb_spec (length (b0 :: rest)) 40); [reflexivity|lia].
  - intros p Hp. apply ParsePacket_inl in Hp as [_ [(? & ? & _)|(? & ? & _)]]; auto.
Qed.

(** C3.  On a parsed IPv4 packet whose TTL is at most 1 and on a parsed
    IPv6 packet whose hop limit is at most 1, [ModifyTTL] returns false
    and the packet, buffer included, stays as it was. *)
Theorem C3_ModifyTTL_expired (data : list byte) (p : Packet) :
  ParsePacket data = inl p ->
  (Type_ p = PacketTypeIPv4 ∧ TTL data <= 1) ∨
  (Type_ p = PacketTypeIPv6 ∧ HopLimit data <= 1) ->
  ModifyTTL p = Some (false, p) ∧ Data p = data.
Proof.
  intros Hp Hexp.
  apply ParsePacket_inl in Hp as [HD Hv]. split; [|exact HD].
  destruct p as [d s dst pr ty]. simpl in *. subst d.
  unfold ModifyTTL. simpl Type_. simpl Data.
  destruct Hexp as [[-> Httl]|[-> Hhop]].
  - destruct Hv as [(_ & _ & Hlen)|(? & _)]; [|discriminate].
    explode data 9. unfold TTL, byte_at in Httl. simpl in Httl. simpl.
    destruct (Z.leb_spec (byte.unsigned b7) 1); [reflexivity|lia].
  - destruct Hv as [(? & _)|(_ & _ & Hlen)]; [discriminate|].
    explode data 8. unfold HopLimit, byte_at in Hhop. simpl in Hhop. simpl.
    destruct (Z.leb_spec (byte.unsigned b6) 1); [reflexivity|lia].
Qed.

(** C10.  On a parsed packet that is still alive, [ModifyTTL] returns
    true and writes only the TTL byte (offset 8) and the checksum bytes
    (offsets 10 and 11) of an IPv4 buffer, and only the hop-limit byte
    (offset 7) of an IPv6 buffer: the length and every other byte of the
    buffer, and the other fields of the packet, are as before. *)
Theorem C10_ModifyTTL_frame (data : list byte) (p : Packet) :
  ParsePacket data = inl p ->
  (Type_ p = PacketTypeIPv4 ∧ 2 <= TTL data) ∨
  (Type_ p = PacketTypeIPv6 ∧ 2 <= HopLimit data) ->
  ∃ data',
    ModifyTTL p = Some (true, set_Data p data') ∧
    length data' = length data ∧
    ∀ i : nat,
      (Type_ p = PacketTypeIPv4 -> i ≠ 8%nat ∧ i ≠ 10%nat ∧ i ≠ 11%nat) ->
      (Type_ p = PacketTypeIPv6 -> i ≠ 7%nat) ->
      data' !! i = data !! i.
Proof.
  intros Hp Hlive.
  apply ParsePacket_inl in Hp as [HD Hv].
  destruct p as [d s dst pr ty]. simpl in *. subst d.
  destruct Hlive as [[-> Httl]|[-> Hhop]].
  - destruct Hv as [(_ & _ & Hlen)|(? & _)]; [|discriminate].
    explode data 12. unfold TTL, byte_at in Httl. simpl in Httl.
    rewrite ModifyTTL_v4_live by assumption. cbv zeta.
    eexists. split; [reflexivity|]. split; [reflexivity|].
    intros i Hi _. destruct Hi as (H8 & H10 & H11); [reflexivity|].
    do 12 (destruct i as [|i]; [reflexivity || congruence|]). reflexivity.
  - destruct Hv as [(? & _)|(_ & _ & Hlen)]; [discriminate|].
    explode data 8. unfold HopLimit, byte_at in Hhop. simpl in Hhop.
    rewrite ModifyTTL_v6_live by assumption.
    eexists. split; [reflexivity|]. split; [reflexivity|].
    intros i _ Hi. specialize (Hi eq_refl).
    do 8 (destruct i as [|i]; [reflexivity || congruence|]). reflexivity.
Qed.

(** C1.  On a parsed IPv4 packet with a well-formed header
    (five or more header words, a correct stored checksum) and a TTL of
    at least 2, [ModifyTTL] returns true, lowers the TTL by exactly 1 and
    writes a checksum with which the header still verifies; the written
    checksum is the one a recomputation of the header from scratch gives
    whenever the old checksum was not [0xFEFF]. *)
Theorem C1_ModifyTTL_checksum (data : list byte) (p : Packet) :
  ParsePacket data = inl p ->
  Type_ p = PacketTypeIPv4 ->
  2 <= TTL data ->
  ipv4_header_valid data ->
  ∃ data',
    ModifyTTL p = Some (true, set_Data p data') ∧
    TTL data' = TTL data - 1 ∧
    checksum_verifies data' ∧
    (stored_checksum data ≠ 0xFEFF -> stored_checksum data' = full_checksum data').
Proof.
  intros Hp Hty Httl [Hihl Hsum].
  apply ParsePacket_inl in Hp as [HD Hv].
  destruct p as [d s dst pr ty]. simpl in *. subst d ty.
  destruct Hv as [(_ & _ & Hlen)|(? & _)]; [|discriminate].
  explode data 20.
  unfold TTL, byte_at in Httl |- *. simpl in Httl.
  rewrite ModifyTTL_v4_live by assumption. cbv zeta.
  eexists. split; [reflexivity|].
  unfold checksum_verifies, full_checksum, stored_checksum, ipv4_header, byte_at in *.
  cbn [IHL lookup list_lookup default from_option id] in *.
  set (k := Z.to_nat (4 * Z.land (byte.unsigned b) 15 - 20)).
  replace (Z.to_nat (4 * Z.land (byte.unsigned b) 15)) with (20 + k)%nat in * by lia.
  cbn [Nat.add firstn insert list_insert] in *.
  rewrite !ones_sum_be_words in *.
  cbn [be_words word_total foldr] in *.
  fold (word_total (be_words (take k data))) in *.
  pose proof (word_total_be_words_nonneg (take k data)) as HT.
  set (T := word_total (be_words (take k data))) in *. clearbody T.
  change (byte.unsigned Byte.x00) with 0 in *.
  rewrite PutUint16_bytes by apply ttl_checksum_range.
  rewrite byte_of_Z_small by (pose proof (byte_range b7); lia).
  pose proof (byte_range b). pose proof (byte_range b0). pose proof (byte_range b1).
  pose proof (byte_range b2). pose proof (byte_range b3). pose proof (byte_range b4).
  pose proof (byte_range b5). pose proof (byte_range b6). pose proof (byte_range b7).
  pose proof (byte_range b8). pose proof (byte_range b11). pose proof (byte_range b12).
  pose proof (byte_range b13). pose proof (byte_range b14). pose proof (byte_range b15).
  pose proof (byte_range b16). pose proof (byte_range b17). pose proof (byte_range b18).
  destruct (ttl_update_arith
              (byte.unsigned b * 256 + byte.unsigned b0
               + byte.unsigned b1 * 256 + byte.unsigned b2
               + byte.unsigned b3 * 256 + byte.unsigned b4
               + byte.unsigned b5 * 256 + byte.unsigned b6
               + byte.unsigned b11 * 256 + byte.unsigned b12
               + byte.unsigned b13 * 256 + byte.unsigned b14
               + byte.unsigned b15 * 256 + byte.unsigned b16
               + byte.unsigned b17 * 256 + byte.unsigned b18 + T)
              (byte.unsigned b7 * 256 + byte.unsigned b8)
              (byte.unsigned b9 * 256 + byte.unsigned b10)) as [R2 R3];
    [lia | lia | |].
  { rewrite Hsum. do 2 f_equal. lia. }
  split; [reflexivity|]. split.
  - rewrite <- R2. f_equal. lia.
  - intros Hne. rewrite (R3 Hne). do 2 f_equal. lia.
Qed.

(** C9.  On a parsed packet, [ReplaceSourceAddress] and
    [ReplaceDestinationAddress] return (they do not panic), they return
    an error exactly when the new address is not 4 bytes long for an
    IPv4 packet or not 16 bytes long for an IPv6 packet, and when they
    return an error the packet (buffer, source, destination) is as
    before. *)
Theorem C9_Replace_address_errors (data : list byte) (p : Packet) (newAddr : IP) :
  ParsePacket data = inl p ->
  (∃ p' err, ReplaceSourceAddress p newAddr = Some (p', err) ∧
             (err ≠ None ↔ length_mismatch p newAddr) ∧
             (err ≠ None -> p' = p)) ∧
  (∃ p' err, ReplaceDestinationAddress p newAddr = Some (p', err) ∧
             (err ≠ None ↔ length_mismatch p newAddr) ∧
             (err ≠ None -> p' = p)).
Proof.
  intros Hp. apply ParsePacket_inl in Hp as [HD Hv].
  destruct p as [d s dst pr ty]. simpl in HD. subst d.
  unfold length_mismatch, net_IPv4len, net_IPv6len. cbn [Type_].
  destruct Hv as [(Hty & _ & Hlen)|(Hty & _ & Hlen)]; simpl in Hty; subst ty.
  - destruct (decide (length newAddr = 4%nat)) as [Heq|Hne].
    + destruct (ReplaceSource_v4_ok data s dst newAddr pr Hlen Heq) as [d1 ->].
      destruct (ReplaceDestination_v4_ok data s dst newAddr pr Hlen Heq) as [d2 ->].
      split; eexists _, None; (split; [reflexivity|]);
        (split; [split; [congruence | intros [[_ ?]|[? _]]; congruence] | congruence]).
    + unfold ReplaceSourceAddress, ReplaceDestinationAddress, net_IPv4len.
      cbn [Type_]. case_decide; [|contradiction].
      split; eexists _, (Some _); (split; [reflexivity|]);
        (split; [split; [auto | congruence] | reflexivity]).
  - destruct (decide (length newAddr = 16%nat)) as [Heq|Hne].
    + destruct (ReplaceSource_v6_ok data s dst newAddr pr Hlen Heq) as [d1 ->].
      destruct (ReplaceDestination_v6_ok data s dst newAddr pr Hlen Heq) as [d2 ->].
      split; eexists _, None; (split; [reflexivity|]);
        (split; [split; [congruence | intros [[? _]|[_ ?]]; congruence] | congruence]).
    + unfold ReplaceSourceAddress, ReplaceDestinationAddress, net_IPv6len.
      cbn [Type_]. case_decide; [|contradiction].
      split; eexists _, (Some _); (split; [reflexivity|]);
        (split; [split; [auto | congruence] | reflexivity]).
Qed.

End ParsedPackets.

(** ** The packet operations on concrete buffers *)

Lemma sample_v4_valid : ipv4_header_valid sample_v4.
Proof. split; [vm_compute; discriminate | vm_compute; reflexivity]. Qed.

(** C2.  The address rewrite does not keep the checksum right.  The sample
    header is well formed; after [ReplaceSourceAddress] with 10.0.0.1 the
    stored checksum is [0x6F09] where the recomputation of the header
    gives [0x6F0A], after [ReplaceDestinationAddress] with 10.0.0.1 it is
    [0x6FCF] where the recomputation gives [0x6FD0], and in both cases the
    header no longer verifies: [recalculateIPv4Checksum] drops the carry
    of its last addition. *)
Theorem C2_Replace_checksum_wrong :
  parse sample_v4 = inl (parsed sample_v4) ∧
  ipv4_header_valid sample_v4 ∧
  (∃ p', ReplaceSourceAddress (parsed sample_v4) (hex [10; 0; 0; 1]) = Some (p', None) ∧
         stored_checksum (Data p') = 0x6F09 ∧
         full_checksum (Data p') = 0x6F0A ∧
         ¬ checksum_verifies (Data p')) ∧
  (∃ p', ReplaceDestinationAddress (parsed sample_v4) (hex [10; 0; 0; 1]) = Some (p', None) ∧
         stored_checksum (Data p') = 0x6FCF ∧
         full_checksum (Data p') = 0x6FD0 ∧
         ¬ checksum_verifies (Data p')).
Proof.
  split; [reflexivity|]. split; [exact sample_v4_valid|].
  split; eexists; (split; [vm_compute; reflexivity|]);
    (split; [vm_compute; reflexivity|]); (split; [vm_compute; reflexivity|]);
    vm_compute; discriminate.
Qed.

(** Even the rewrite of the source address with the address the header
    already has changes the stored checksum. *)
Lemma Replace_same_source_changes_checksum :
  ∃ p', ReplaceSourceAddress (parsed sample_v4) (hex [192; 168; 0; 1]) = Some (p', None) ∧
        take 10 (Data p') = take 10 sample_v4 ∧
        drop 12 (Data p') = drop 12 sample_v4 ∧
        stored_checksum sample_v4 = 0xB861 ∧
        stored_checksum (Data p') = 0xB860.
Proof.
  eexists. split; [vm_compute; reflexivity|]. repeat split; vm_compute; reflexivity.
Qed.

(** C1 without the exception for [0xFEFF] does not hold.  The header
    [feff_v4] parses, has a TTL of 64 and a correct checksum, [0xFEFF];
    [ModifyTTL] returns true and stores [0xFFFF], where the recomputation
    of the new header from scratch gives [0x0000]. *)
Lemma C1_counterexample :
  parse feff_v4 = inl (parsed feff_v4) ∧
  Type_ (parsed feff_v4) = PacketTypeIPv4 ∧
  TTL feff_v4 = 64 ∧
  stored_checksum feff_v4 = full_checksum feff_v4 ∧
  ∃ p', ModifyTTL (parsed feff_v4) = Some (true, p') ∧
        TTL (Data p') = 63 ∧
        stored_checksum (Data p') = 0xFFFF ∧
        full_checksum (Data p') = 0x0000 ∧
        stored_checksum (Data p') ≠ full_checksum (Data p').
Proof.
  split; [reflexivity|]. split; [reflexivity|]. split; [reflexivity|].
  split; [vm_compute; reflexivity|].
  eexists. split; [vm_compute; reflexivity|].
  repeat split; try (vm_compute; reflexivity). vm_compute. discriminate.
Qed.

(** An incremental update cannot repair a checksum that was wrong before
    the call: with the checksum field of the sample header zeroed,
    [ModifyTTL] stores [0x0100], not the checksum of the header. *)
Lemma ModifyTTL_keeps_wrong_checksum :
  let data := <[10%nat := Byte.x00]> (<[11%nat := Byte.x00]> sample_v4) in
  ∃ p', ModifyTTL (parsed data) = Some (true, p') ∧
        stored_checksum (Data p') = 0x0100 ∧
        full_checksum (Data p') = 0xB961.
Proof.
  eexists. split; [vm_compute; reflexivity|]. split; vm_compute; reflexivity.
Qed.

(** The theorems on parsed packets, applied to the sample buffers. *)

Lemma C1_witness :
  ∃ data',
    ModifyTTL (parsed sample_v4) = Some (true, set_Data (parsed sample_v4) data') ∧
    TTL data' = TTL sample_v4 - 1 ∧
    checksum_verifies data' ∧
    (stored_checksum sample_v4 ≠ 0xFEFF -> stored_checksum data' = full_checksum data').
Proof.
  apply (C1_ModifyTTL_checksum x_net_ipv4_ParseHeader x_net_ipv6_ParseHeader sample_v4).
  - reflexivity.
  - reflexivity.
  - vm_compute. discriminate.
  - exact sample_v4_valid.
Defined.

Lemma C3_witness :
  (ModifyTTL (parsed expired_v4) = Some (false, parsed expired_v4) ∧
   Data (parsed expired_v4) = expired_v4).
Proof.
  apply (C3_ModifyTTL_expired x_net_ipv4_ParseHeader x_net_ipv6_ParseHeader expired_v4).
  - reflexivity.
  - left. split; [reflexivity | vm_compute; discriminate].
Defined.

Lemma C8_witness :
  parse [] = inr ErrPacketTooShort ∧
  parse (hex [0x50; 0x00]) = inr (ErrUnsupportedVersion 5) ∧
  parse (take 19 sample_v4) = inr (ErrIPv4TooShort 19) ∧
  parse (take 39 sample_v6) = inr (ErrIPv6TooShort 39) ∧
  Type_ (parsed sample_v6) = PacketTypeIPv6.
Proof.
  split; [|split; [|split; [|split]]].
  - apply (C8_ParsePacket_errors x_net_ipv4_ParseHeader x_net_ipv6_ParseHeader []).
    reflexivity.
  - apply (C8_ParsePacket_errors x_net_ipv4_ParseHeader x_net_ipv6_ParseHeader
             (hex [0x50; 0x00])); [reflexivity | lia | lia].
  - apply (C8_ParsePacket_errors x_net_ipv4_ParseHeader x_net_ipv6_ParseHeader
             (take 19 sample_v4)); [reflexivity | simpl; lia].
  - apply (C8_ParsePacket_errors x_net_ipv4_ParseHeader x_net_ipv6_ParseHeader
             (take 39 sample_v6)); [reflexivity | simpl; lia].
  - destruct (C8_ParsePacket_errors x_net_ipv4_ParseHeader x_net_ipv6_ParseHeader
                sample_v6) as (_ & _ & _ & _ & H).
    destruct (H (parsed sample_v6) eq_refl) as [[_ H4]|[H6 _]];
      [discriminate H4 | exact H6].
Defined.

Lemma C9_witness :
  (∃ p' err, ReplaceSourceAddress (parsed sample_v4) (hex [10; 0; 0]) = Some (p', err) ∧
             (err ≠ None ↔ length_mismatch (parsed sample_v4) (hex [10; 0; 0])) ∧
             (err ≠ None -> p' = parsed sample_v4)) ∧
  (∃ p' err, ReplaceDestinationAddress (parsed sample_v4) (hex [10; 0; 0]) = Some (p', err) ∧
             (err ≠ None ↔ length_mismatch (parsed sample_v4) (hex [10; 0; 0])) ∧
             (err ≠ None -> p' = parsed sample_v4)).
Proof.
  apply (C9_Replace_address_errors x_net_ipv4_ParseHeader x_net_ipv6_ParseHeader sample_v4).
  reflexivity.
Defined.

Lemma C10_witness :
  ∃ data',
    ModifyTTL (parsed sample_v6) = Some (true, set_Data (parsed sample_v6) data') ∧
    length data' = length sample_v6 ∧
    ∀ i : nat,
      (Type_ (parsed sample_v6) = PacketTypeIPv4 -> i ≠ 8%nat ∧ i ≠ 10%nat ∧ i ≠ 11%nat) ->
      (Type_ (parsed sample_v6) = PacketTypeIPv6 -> i ≠ 7%nat) ->
      data' !! i = sample_v6 !! i.
Proof.
  apply (C10_ModifyTTL_frame x_net_ipv4_ParseHeader x_net_ipv6_ParseHeader sample_v6).
  - reflexivity.
  - right. split; [reflexivity | vm_compute; discriminate].
Defined.

(** ** The routing table *)

Section RouterProps.

Variable ParseCIDR : string -> option IPNet.
Variable IPNet_String : IPNet -> string.
Variable Contains : IPNet -> IP -> bool.
Variable Mask_Size : IPNet -> Z.
Variable is_IPv4 : IPNet -> bool.

Abbreviation GetRoute_scan := (GetRoute_scan Contains Mask_Size).
Abbreviation GetRoute_step := (GetRoute_step Contains Mask_Size).
Abbreviation GetRoute := (GetRoute Contains Mask_Size).
Abbreviation is_longest_match := (is_longest_match Contains Mask_Size).
Abbreviation AddRoute := (AddRoute ParseCIDR IPNet_String is_IPv4).
Abbreviation RemoveRoute := (RemoveRoute ParseCIDR IPNet_String is_IPv4).
Abbreviation NewRouter := (NewRouter ParseCIDR IPNet_String is_IPv4).
Abbreviation reachable := (reachable ParseCIDR IPNet_String is_IPv4).
Abbreviation prefixes := (prefixes IPNet_String).
Abbreviation distinct_prefixes := (distinct_prefixes IPNet_String).

Lemma GetRoute_scan_snoc (ip : IP) (rs : list Route) (route : Route) :
  GetRoute_scan ip (rs ++ [route]) = GetRoute_step ip (GetRoute_scan ip rs) route.
Proof. unfold GetRoute_scan. rewrite fold_left_app. reflexivity. Qed.

(** The state of the scan after the routes [rs]: no match so far and no
    route of [rs] contains [ip], or the match is the longest-prefix match
    of [rs] and the mask size kept with it is its own. *)
Lemma GetRoute_scan_spec (ip : IP) (rs : list Route) :
  match GetRoute_scan ip rs with
  | (None, _) => ∀ j route, rs !! j = Some route -> Contains (Network route) ip = false
  | (Some best, m) => m = Mask_Size (Network best) ∧ ∃ i, is_longest_match ip rs i best
  end.
Proof.
  induction rs as [|route rs IH] using rev_ind.
  - simpl. intros j route Hj. destruct j; discriminate.
  - rewrite GetRoute_scan_snoc. unfold GetRoute_step.
    destruct (GetRoute_scan ip rs) as [[best|] m]; cbn [fst snd] in *.
    + destruct IH as [-> (i & Hi & Hc & Hmax)].
      assert (Hlt : (i < length rs)%nat) by (eapply lookup_lt_Some; eassumption).
      destruct (Contains (Network route) ip) eqn:Hroute.
      * destruct (Z.gtb_spec (Mask_Size (Network route)) (Mask_Size (Network best))) as [Hgt|Hle].
        -- split; [reflexivity|]. exists (length rs). split; [|split].
           ++ rewrite lookup_app_r by lia. rewrite Nat.sub_diag. reflexivity.
           ++ exact Hroute.
           ++ intros j other Hj Hother.
              apply lookup_app_Some in Hj as [Hj|[Hge Hj]].
              ** destruct (Hmax j other Hj Hother) as [Hm _]. split; [lia|lia].
              ** destruct (j - length rs)%nat eqn:E; [|destruct n; discriminate].
                 injection Hj as <-. split; [lia|]. intros _. lia.
        -- split; [reflexivity|]. exists i. split; [|split].
           ++ rewrite lookup_app_l by lia. exact Hi.
           ++ exact Hc.
           ++ intros j other Hj Hother.
              apply lookup_app_Some in Hj as [Hj|[Hge Hj]].
              ** exact (Hmax j other Hj Hother).
              ** destruct (j - length rs)%nat eqn:E; [|destruct n; discriminate].
                 injection Hj as <-. split; [lia|]. intros _. lia.
      * split; [reflexivity|]. exists i. split; [|split].
        -- rewrite lookup_app_l by lia. exact Hi.
        -- exact Hc.
        -- intros j other Hj Hother.
           apply lookup_app_Some in Hj as [Hj|[Hge Hj]].
           ++ exact (Hmax j other Hj Hother).
           ++ destruct (j - length rs)%nat eqn:E; [|destruct n; discriminate].
              injection Hj as <-. congruence.
    + destruct (Contains (Network route) ip) eqn:Hroute.
      * split; [reflexivity|]. exists (length rs). split; [|split].
        -- rewrite lookup_app_r by lia. rewrite Nat.sub_diag. reflexivity.
        -- exact Hroute.
        -- intros j other Hj Hother.
           apply lookup_app_Some in Hj as [Hj|[Hge Hj]].
           ++ rewrite (IH j other Hj) in Hother. discriminate.
           ++ destruct (j - length rs)%nat eqn:E; [|destruct n; discriminate].
              injection Hj as <-. split; [lia|]. intros _. lia.
      * intros j other Hj.
        apply lookup_app_Some in Hj as [Hj|[Hge Hj]].
        -- exact (IH j other Hj).
        -- destruct (j - length rs)%nat eqn:E; [|destruct n; discriminate].
           injection Hj as <-. exact Hroute.
Qed.

Lemma GetRoute_longest_prefix (r : Router) (ip : IP) :
  ((∀ route, route ∈ routes r -> Contains (Network route) ip = false) ->
     GetRoute r ip = RouteTypeInternet) ∧
  ((∃ route, route ∈ routes r ∧ Contains (Network route) ip = true) ->
     ∃ i best, is_longest_match ip (routes r) i best ∧ GetRoute r ip = RType best).
Proof.
  pose proof (GetRoute_scan_spec ip (routes r)) as Hscan.
  unfold GetRoute.
  destruct (GetRoute_scan ip (routes r)) as [[best|] m]; cbn [fst].
  - destruct Hscan as [_ (i & Hi)]. split.
    + intros Hnone. destruct Hi as (Hi & Hc & _).
      rewrite (Hnone best) in Hc; [discriminate|].
      eapply list_elem_of_lookup_2. exact Hi.
    + intros _. exists i, best. split; [exact Hi | reflexivity].
  - split; [reflexivity|].
    intros (route & Hin & Hc). apply list_elem_of_lookup_1 in Hin as [j Hj].
    rewrite (Hscan j route Hj) in Hc. discriminate.
Qed.

Lemma distinct_prefixes_NoDup (r : Router) :
  distinct_prefixes r ↔ NoDup (prefixes r).
Proof.
  unfold distinct_prefixes, prefixes. rewrite NoDup_alt. split.
  - intros H i j x Hi Hj. rewrite list_lookup_fmap in Hi, Hj.
    destruct (routes r !! i) as [ri|] eqn:Ei; [|discriminate].
    destruct (routes r !! j) as [rj|] eqn:Ej; [|discriminate].
    simpl in Hi, Hj. apply (H i j ri rj Ei Ej). congruence.
  - intros H i j ri rj Hi Hj Heq.
    apply (H i j (IPNet_String (Network ri))); rewrite list_lookup_fmap.
    + rewrite Hi. reflexivity.
    + rewrite Hj. simpl. congruence.
Qed.

(** [AddRoute] on a prefix that is in the table: the entry found keeps
    its network and gets the new classification, in place. *)
Lemma AddRoute_present (r : Router) (cidr : string) (network : IPNet) (routeType : RouteType) :
  ParseCIDR cidr = Some network ->
  IPNet_String network ∈ prefixes r ->
  ∃ i route,
    routes r !! i = Some route ∧
    IPNet_String (Network route) = IPNet_String network ∧
    AddRoute r cidr routeType =
      (mkRouter (<[i := mkRoute (Network route) routeType]> (routes r))
         (ipv4Count r) (ipv6Count r), None).
Proof.
  intros Hparse Hin. unfold AddRoute. rewrite Hparse.
  destruct (list_find (same_prefix IPNet_String network) (routes r)) as [[i route]|] eqn:Hfind.
  - apply list_find_Some in Hfind as (Hi & Hsame & _).
    exists i, route. auto.
  - apply list_find_None in Hfind. rewrite Forall_forall in Hfind.
    unfold prefixes in Hin. apply list_elem_of_fmap in Hin as (route & Heq & Hroute).
    exfalso. apply (Hfind route Hroute). unfold same_prefix. congruence.
Qed.

Lemma prefixes_insert_same (r : Router) (i : nat) (route : Route) (routeType : RouteType) :
  routes r !! i = Some route ->
  (fun route => IPNet_String (Network route)) <$> (<[i := mkRoute (Network route) routeType]> (routes r))
  = prefixes r.
Proof.
  intros Hi. unfold prefixes. rewrite list_fmap_insert. cbn [Network].
  apply list_insert_id. rewrite list_lookup_fmap, Hi. reflexivity.
Qed.

Lemma AddRoute_NoDup (r : Router) (cidr : string) (routeType : RouteType) :
  NoDup (prefixes r) -> NoDup (prefixes (AddRoute r cidr routeType).1).
Proof.
  intros Hr. unfold AddRoute.
  destruct (ParseCIDR cidr) as [network|]; [|exact Hr].
  destruct (list_find (same_prefix IPNet_String network) (routes r)) as [[i route]|] eqn:Hfind.
  - apply list_find_Some in Hfind as (Hi & _ & _). cbn [fst].
    unfold prefixes at 1. cbn [routes].
    rewrite (prefixes_insert_same r i route routeType Hi). exact Hr.
  - apply list_find_None in Hfind. rewrite Forall_forall in Hfind.
    assert (Hnew : NoDup (prefixes r ++ [IPNet_String network])).
    { apply NoDup_app. split; [exact Hr|]. split; [|apply NoDup_singleton].
      intros x Hx Hx'. apply list_elem_of_singleton in Hx'. subst x.
      unfold prefixes in Hx. apply list_elem_of_fmap in Hx as (route & Heq & Hroute).
      apply (Hfind route Hroute). unfold same_prefix. congruence. }
    destruct (is_IPv4 network); cbn [fst]; unfold prefixes at 1; cbn [routes];
      rewrite fmap_app; exact Hnew.
Qed.

(** Overwriting entry [i] with the last entry and cutting the last entry
    off keeps the entries distinct. *)
Lemma NoDup_swap_remove (l : list string) (i : nat) (final : string) :
  NoDup l -> l !! (length l - 1)%nat = Some final ->
  NoDup (take (length l - 1) (<[i := final]> l)).
Proof.
  intros Hl Hfinal. rewrite NoDup_alt in Hl. apply NoDup_alt.
  intros a b x Ha Hb.
  apply lookup_take_Some in Ha as [Ha Ha'], Hb as [Hb Hb'].
  rewrite list_lookup_insert_Some in Ha, Hb.
  destruct Ha as [(-> & -> & _)|[Hne Ha]], Hb as [(-> & Hx & _)|[Hne' Hb]].
  - reflexivity.
  - pose proof (Hl _ _ _ Hfinal Hb). lia.
  - subst x. pose proof (Hl _ _ _ Hfinal Ha). lia.
  - exact (Hl _ _ _ Ha Hb).
Qed.

Lemma RemoveRoute_NoDup (r : Router) (cidr : string) :
  NoDup (prefixes r) -> NoDup (prefixes (RemoveRoute r cidr).1).
Proof.
  intros Hr. unfold RemoveRoute.
  destruct (ParseCIDR cidr) as [network|]; [|exact Hr].
  destruct (list_find (same_prefix IPNet_String network) (routes r)) as [[i route]|];
    [|exact Hr].
  assert (Hcut : NoDup ((fun route => IPNet_String (Network route)) <$>
                          match routes r !! (length (routes r) - 1)%nat with
                          | Some final => take (length (routes r) - 1) (<[i := final]> (routes r))
                          | None => routes r
                          end)).
  { destruct (routes r !! (length (routes r) - 1)%nat) as [final|] eqn:Hfinal; [|exact Hr].
    rewrite fmap_take, list_fmap_insert.
    replace (length (routes r)) with (length (prefixes r))
      by (unfold prefixes; apply length_fmap).
    apply NoDup_swap_remove; [exact Hr|].
    unfold prefixes. rewrite length_fmap, list_lookup_fmap, Hfinal. reflexivity. }
  destruct (is_IPv4 network); exact Hcut.
Qed.

Lemma NewRouter_NoDup : NoDup (prefixes NewRouter).
Proof.
  unfold NewRouter, addPrivateNetworkRoutes.
  assert (H : ∀ l r, NoDup (prefixes r) ->
              NoDup (prefixes (fold_left (fun r e => (AddRoute r e.1 e.2).1) l r))).
  { induction l as [|e l IH]; intros r Hr; [exact Hr|].
    simpl. apply IH, AddRoute_NoDup, Hr. }
  apply H. constructor.
Qed.

Lemma reachable_NoDup (r : Router) : reachable r -> NoDup (prefixes r).
Proof.
  induction 1.
  - apply NewRouter_NoDup.
  - apply AddRoute_NoDup. assumption.
  - apply RemoveRoute_NoDup. assumption.
  - constructor.
Qed.

(** C5.  In every router a program can reach from [NewRouter] by calls
    of [AddRoute] and [RemoveRoute] (and [ClearRoutes]) no two entries
    of the table have the same prefix text, so no two entries have the
    same network; and [AddRoute] with a prefix that is in the table
    returns no error and rewrites the classification of the entry found
    in place: the table keeps its length and its prefixes. *)
Theorem C5_distinct_prefixes (r : Router) :
  reachable r ->
  distinct_prefixes r ∧
  ∀ cidr network routeType,
    ParseCIDR cidr = Some network ->
    IPNet_String network ∈ prefixes r ->
    ∃ i route,
      routes r !! i = Some route ∧
      IPNet_String (Network route) = IPNet_String network ∧
      AddRoute r cidr routeType =
        (mkRouter (<[i := mkRoute (Network route) routeType]> (routes r))
           (ipv4Count r) (ipv6Count r), None) ∧
      length (routes (AddRoute r cidr routeType).1) = length (routes r) ∧
      prefixes (AddRoute r cidr routeType).1 = prefixes r.
Proof.
  intros Hr. split.
  - apply distinct_prefixes_NoDup, reachable_NoDup, Hr.
  - intros cidr network routeType Hparse Hin.
    destruct (AddRoute_present r cidr network routeType Hparse Hin)
      as (i & route & Hi & Hsame & Hadd).
    exists i, route. rewrite Hadd. cbn [fst routes].
    repeat split; try assumption.
    + apply length_insert.
    + apply (prefixes_insert_same r i route routeType Hi).
Qed.

End RouterProps.

(** C4.  [GetRoute] is longest-prefix match: when no route of the table
    contains the address the result is [RouteTypeInternet]; otherwise it
    is the classification of a route that contains the address, whose mask
    is at least as long as that of every route containing the address,
    and that comes first in the table among those of its mask length.
    With the routes 10.0.0.0/8 to TUN and 0.0.0.0/0 to Internet, 10.1.2.3
    goes to TUN and 8.8.8.8 to Internet (as 4-byte and as 16-byte
    addresses); once 10.0.0.0/8 is removed, 10.1.2.3 goes to Internet. *)
Theorem C4_GetRoute_longest_prefix :
  (∀ (Contains : IPNet -> IP -> bool) (Mask_Size : IPNet -> Z) (r : Router) (ip : IP),
     ((∀ route, route ∈ routes r -> Contains (Network route) ip = false) ->
        GetRoute Contains Mask_Size r ip = RouteTypeInternet) ∧
     ((∃ route, route ∈ routes r ∧ Contains (Network route) ip = true) ->
        ∃ i best, is_longest_match Contains Mask_Size ip (routes r) i best ∧
                  GetRoute Contains Mask_Size r ip = RType best)) ∧
  (prefixes GoNet.IPNet_String two_routes = ["10.0.0.0/8"; "0.0.0.0/0"]%string ∧
   RType <$> routes two_routes = [RouteTypeTUN; RouteTypeInternet] ∧
   GoNet.GetRoute two_routes (hex [10; 1; 2; 3]) = RouteTypeTUN ∧
   GoNet.GetRoute two_routes (hex [8; 8; 8; 8]) = RouteTypeInternet ∧
   GoNet.GetRoute two_routes (v4InV6Prefix ++ hex [10; 1; 2; 3]) = RouteTypeTUN ∧
   GoNet.GetRoute two_routes (v4InV6Prefix ++ hex [8; 8; 8; 8]) = RouteTypeInternet ∧
   GoNet.RemoveRoute two_routes "10.0.0.0/8" = (one_route, None) ∧
   prefixes GoNet.IPNet_String one_route = ["0.0.0.0/0"]%string ∧
   GoNet.GetRoute one_route (hex [10; 1; 2; 3]) = RouteTypeInternet ∧
   GoNet.GetRoute one_route (v4InV6Prefix ++ hex [10; 1; 2; 3]) = RouteTypeInternet).
Proof.
  split.
  - intros Contains Mask_Size r ip. apply GetRoute_longest_prefix.
  - repeat split; vm_compute; reflexivity.
Qed.

Lemma C4_witness :
  ∃ i best,
    is_longest_match GoNet.Contains GoNet.Mask_Size (hex [10; 1; 2; 3])
      (routes two_routes) i best ∧
    GoNet.GetRoute two_routes (hex [10; 1; 2; 3]) = RType best.
Proof.
  apply (proj1 C4_GetRoute_longest_prefix GoNet.Contains GoNet.Mask_Size two_routes
           (hex [10; 1; 2; 3])).
  exists (mkRoute (mkIPNet (hex [10; 0; 0; 0]) (hex [255; 0; 0; 0])) RouteTypeTUN).
  split; [|vm_compute; reflexivity].
  apply (list_elem_of_lookup_2 _ 0%nat). vm_compute. reflexivity.
Defined.

Lemma C5_witness :
  distinct_prefixes GoNet.IPNet_String two_routes ∧
  ∀ cidr network routeType,
    GoNet.ParseCIDR cidr = Some network ->
    GoNet.IPNet_String network ∈ prefixes GoNet.IPNet_String two_routes ->
    ∃ i route,
      routes two_routes !! i = Some route ∧
      GoNet.IPNet_String (Network route) = GoNet.IPNet_String network ∧
      GoNet.AddRoute two_routes cidr routeType =
        (mkRouter (<[i := mkRoute (Network route) routeType]> (routes two_routes))
           (ipv4Count two_routes) (ipv6Count two_routes), None) ∧
      length (routes (GoNet.AddRoute two_routes cidr routeType).1)
      = length (routes two_routes) ∧
      prefixes GoNet.IPNet_String (GoNet.AddRoute two_routes cidr routeType).1
      = prefixes GoNet.IPNet_String two_routes.
Proof.
  apply (C5_distinct_prefixes GoNet.ParseCIDR GoNet.IPNet_String GoNet.is_IPv4 two_routes).
  unfold two_routes. apply reach_AddRoute, reach_AddRoute, reach_ClearRoutes, reach_NewRouter.
Defined.

(** [AddRoute] with a prefix of the table, on the table of the example. *)
Example AddRoute_upsert_example :
  GoNet.AddRoute two_routes "10.0.0.0/8" RouteTypeDrop
  = (mkRouter [mkRoute (mkIPNet (hex [10; 0; 0; 0]) (hex [255; 0; 0; 0])) RouteTypeDrop;
               mkRoute (mkIPNet (hex [0; 0; 0; 0]) (hex [0; 0; 0; 0])) RouteTypeInternet]
       2 0, None).
Proof. vm_compute. reflexivity. Qed.

(** ** The secure transport after [Close] *)

Section ClosedConn.

Variable conn_io : list cipher.ConnCall -> cipher.ConnCall -> Z * option cipher.IOError.

Abbreviation Read := (cipher.Read conn_io).
Abbreviation Write := (cipher.Write conn_io).
Abbreviation Close := (cipher.Close conn_io).
Abbreviation calls := (cipher.calls conn_io).

Lemma Close_closes (t : cipher.TLSConn) : cipher.closed (Close t).1 = true.
Proof.
  unfold Close. destruct (cipher.closed t) eqn:E; [exact E|].
  unfold cipher.on_conn. cbn [cipher.conn cipher.closed].
  destruct (conn_io (cipher.conn t) cipher.ConnClose). reflexivity.
Qed.

(** A call on a closed wrapper changes nothing and returns the result
    of a closed wrapper. *)
Lemma call_closed (t : cipher.TLSConn) (c : cipher.Call) :
  cipher.closed t = true ->
  cipher.call conn_io t c = (t, cipher.closed_result c).
Proof.
  intros Hc. destruct c; unfold cipher.call, Read, Write, Close; rewrite Hc; reflexivity.
Qed.

Lemma calls_closed (t : cipher.TLSConn) (cs : list cipher.Call) :
  cipher.closed t = true ->
  calls t cs = (t, cipher.closed_result <$> cs).
Proof.
  intros Hc. induction cs as [|c cs IH]; [reflexivity|].
  cbn [cipher.calls]. rewrite (call_closed t c Hc), IH. reflexivity.
Qed.

(** C7.  After [Close], whatever the wrapper was before: it is closed;
    [Read] and [Write] return [io.ErrClosedPipe] with a count of 0 and
    [Close] returns nil, each leaving the wrapper as it is, so that the
    wrapped connection receives no call; and the same holds, call by
    call, for every sequence of later calls. *)
Theorem C7_after_Close (t : cipher.TLSConn) :
  let t1 := (Close t).1 in
  cipher.closed t1 = true ∧
  (∀ len, Read t1 len = (t1, (0, Some cipher.ErrClosedPipe))) ∧
  (∀ b, Write t1 b = (t1, (0, Some cipher.ErrClosedPipe))) ∧
  Close t1 = (t1, None) ∧
  (∀ cs, calls t1 cs = (t1, cipher.closed_result <$> cs)).
Proof.
  cbv zeta. pose proof (Close_closes t) as Hc.
  split; [exact Hc|].
  split; [intros len; unfold Read; rewrite Hc; reflexivity|].
  split; [intros b; unfold Write; rewrite Hc; reflexivity|].
  split; [unfold Close at 1; rewrite Hc; reflexivity|].
  intros cs. apply calls_closed, Hc.
Qed.

End ClosedConn.

(** On an open wrapper the first [Close] reaches the wrapped connection
    once, and the second does not reach it. *)
Example Close_twice :
  let t0 := cipher.mkTLSConn [] false in
  let '(t1, e1) := cipher.Close cipher.conn_ok t0 in
  let '(t2, e2) := cipher.Close cipher.conn_ok t1 in
  cipher.conn t1 = [cipher.ConnClose] ∧ cipher.conn t2 = [cipher.ConnClose] ∧
  e1 = None ∧ e2 = None.
Proof. vm_compute. auto. Qed.

(** ** The reconnection loop *)

Lemma gives_up_iff (c : Client) :
  gives_up c = true ↔
  reconnect c = false ∨
  (0 < MaxRetries (config c) ∧ MaxRetries (config c) <= retries c).
Proof.
  unfold gives_up.
  rewrite orb_true_iff, andb_true_iff, negb_true_iff.
  rewrite Z.gtb_lt, Z.geb_le. reflexivity.
Qed.

(** C6.  While the client is running, a failed connection attempt makes
    the loop return with the engine stopped exactly when reconnection is
    off, or [MaxRetries] is positive and the retry counter has reached it;
    otherwise the retry counter goes up by one and, the delay over, the
    loop goes on to the next attempt.  With [MaxRetries = 2],
    reconnection on and the server unreachable, a fresh client makes 3
    calls of [connectToServer] (the first attempt and exactly 2 retries)
    and the loop returns with the engine stopped and a retry counter
    of 2, in any surroundings of three rounds or more. *)
Theorem C6_reconnect_policy :
  (∀ (c : Client) (f : ConnectFailure) (w : Wait) (env : list Round) (n : nat),
     isRunning c = true ->
     (gives_up c = true ↔
        reconnect c = false ∨
        (0 < MaxRetries (config c) ∧ MaxRetries (config c) <= retries c)) ∧
     (gives_up c = true ->
        ∃ c', runMainLoop (ConnectFailed f w :: env) c n = Some (c', S n) ∧
              engine_stopped c' ∧ retries c' = retries c) ∧
     (gives_up c = false ->
        ∃ c', runMainLoop (ConnectFailed f DelayElapsed :: env) c n
              = runMainLoop env c' (S n) ∧
              isRunning c' = true ∧
              retries c' = int64 (retries c + 1) ∧
              (- 2 ^ 63 <= retries c < 2 ^ 63 - 1 -> retries c' = retries c + 1))) ∧
  (∀ (cfg : ClientConfig) (env : list Round),
     MaxRetries cfg = 2 -> Reconnect cfg = true ->
     unreachable env -> (3 ≤ length env)%nat ->
     ∃ c', runMainLoop env (Connect_flag (NewClient cfg)) 0 = Some (c', 3%nat) ∧
           engine_stopped c' ∧ retries c' = 2).
Proof.
  split.
  - intros c f w env n Hrun. split; [apply gives_up_iff|].
    assert (Hg : gives_up (after_failure f c) = gives_up c) by (destruct f; reflexivity).
    split.
    + intros Hup. exists (set_isRunning (after_failure f c) false).
      cbn [runMainLoop]. rewrite Hrun. cbn [negb]. rewrite Hg, Hup.
      split; [reflexivity|]. split; [reflexivity|]. destruct f; reflexivity.
    + intros Hgo.
      exists (set_retries (after_failure f c) (int64 (retries (after_failure f c) + 1))).
      cbn [runMainLoop]. rewrite Hrun. cbn [negb]. rewrite Hg, Hgo.
      split; [reflexivity|].
      split; [destruct f; exact Hrun|].
      assert (Hr : retries (after_failure f c) = retries c) by (destruct f; reflexivity).
      cbn [retries set_retries]. rewrite Hr.
      split; [reflexivity|].
      intros Hsmall. unfold int64.
      rewrite Z.mod_small by lia. lia.
  - intros cfg env Hmax Hrec Hun Hlen.
    destruct env as [|r1 [|r2 [|r3 rest]]]; simpl in Hlen; try lia.
    inversion Hun as [|? ? [f1 ->] Hun2].
    inversion Hun2 as [|? ? [f2 ->] Hun3].
    inversion Hun3 as [|? ? [f3 ->] _].
    destruct cfg as [rc rd mr]. simpl in Hmax, Hrec. subst rc mr.
    destruct f1, f2, f3; eexists;
      (split; [vm_compute; reflexivity | split; reflexivity]).
Qed.

Lemma dial_fails_unreachable (n : nat) : unreachable (dial_fails n).
Proof.
  unfold unreachable, dial_fails. apply Forall_replicate. eexists. reflexivity.
Qed.

Lemma C6_witness :
  (∃ c', runMainLoop (dial_fails 1) (set_retries retry_twice 2) 2 = Some (c', 3%nat) ∧
         engine_stopped c' ∧ retries c' = 2) ∧
  (∃ c', runMainLoop (dial_fails 3) retry_twice 0 = Some (c', 3%nat) ∧
         engine_stopped c' ∧ retries c' = 2).
Proof.
  split.
  - apply (proj1 C6_reconnect_policy (set_retries retry_twice 2) DialFailed DelayElapsed
             [] 2%nat); reflexivity.
  - apply (proj2 C6_reconnect_policy (mkClientConfig true 5 2) (dial_fails 3)).
    + reflexivity.
    + reflexivity.
    + apply dial_fails_unreachable.
    + simpl. lia.
Defined.

(** Two rounds are not enough for the loop to return: it is about to make
    its third attempt. *)
Example two_rounds_still_running : runMainLoop (dial_fails 2) retry_twice 0 = None.
Proof. vm_compute. reflexivity. Qed.

(** With reconnection off the first failure ends the loop: no retry. *)
Example no_reconnect_no_retry :
  runMainLoop (dial_fails 1) (Connect_flag (NewClient (mkClientConfig false 5 2))) 0
  = Some (NewClient (mkClientConfig false 5 2), 1%nat).
Proof. vm_compute. reflexivity. Qed.

(** * Further properties *)

(** ** The packet operations *)

(** ** What an address rewrite writes *)

(** [copy] into a sub-slice of the length of the source, written back. *)
Lemma store_copy (s new : list byte) (lo : nat) :
  (lo + length new ≤ length s)%nat ->
  Go.slice s lo (lo + length new) = Some (take (length new) (drop lo s)) ∧
  Go.store s lo (Go.copy (take (length new) (drop lo s)) new)
  = take lo s ++ new ++ drop (lo + length new) s.
Proof.
  intros Hlen. split.
  - unfold Go.slice. case_decide; [|lia].
    replace (lo + length new - lo)%nat with (length new) by lia. reflexivity.
  - unfold Go.store, Go.copy.
    assert (Hsub : length (take (length new) (drop lo s)) = length new)
      by (rewrite length_take, length_drop; lia).
    rewrite Hsub. rewrite (take_ge new) by lia.
    rewrite (drop_ge (take (length new) (drop lo s))) by lia.
    rewrite app_nil_r. reflexivity.
Qed.

Lemma lookup_rewritten (s new : list byte) (lo i : nat) :
  (lo + length new ≤ length s)%nat ->
  ¬ (lo ≤ i < lo + length new)%nat ->
  (take lo s ++ new ++ drop (lo + length new) s) !! i = s !! i.
Proof.
  intros Hlen Hi.
  destruct (Nat.lt_ge_cases i lo) as [Hlt|Hge].
  - rewrite lookup_app_l by (rewrite length_take; lia).
    apply lookup_take_lt. exact Hlt.
  - rewrite lookup_app_r by (rewrite length_take; lia).
    rewrite length_take, Nat.min_l by lia.
    rewrite lookup_app_r by lia.
    rewrite lookup_drop. f_equal. lia.
Qed.

Lemma bytes_from_rewritten (s new : list byte) (lo : nat) :
  (lo + length new ≤ length s)%nat ->
  bytes_from (take lo s ++ new ++ drop (lo + length new) s) lo (length new) = new.
Proof.
  intros Hlen. unfold bytes_from.
  rewrite drop_app_length' by (rewrite length_take; lia).
  apply take_app_length.
Qed.

Lemma length_rewritten (s new : list byte) (lo : nat) :
  (lo + length new ≤ length s)%nat ->
  length (take lo s ++ new ++ drop (lo + length new) s) = length s.
Proof.
  intros Hlen. rewrite !length_app, length_take, length_drop. lia.
Qed.

(** [recalculateIPv4Checksum] writes the two checksum bytes and nothing
    else. *)
Lemma recalculate_shape (packet : list byte) (o0 o1 o2 o3 n0 n1 n2 n3 : byte) :
  (12 ≤ length packet)%nat ->
  ∃ x y, recalculateIPv4Checksum packet [o0; o1; o2; o3] [n0; n1; n2; n3]
         = Some (take 10 packet ++ x :: y :: drop 12 packet).
Proof.
  intros Hlen. explode packet 12.
  unfold recalculateIPv4Checksum, Go.slice.
  case_decide as H12; [|simpl in H12; lia].
  cbn [firstn skipn Nat.sub mbind option_bind].
  rewrite !Uint16_pair. cbn [mbind option_bind length].
  destruct (adjustment_loop_IPv4 o0 o1 o2 o3 n0 n1 n2 n3) as [adj ->].
  cbn [mbind option_bind]. unfold Go.PutUint16, Go.store.
  rewrite ?take_0.
  cbn [lookup list_lookup mbind option_bind insert list_insert length firstn skipn app Nat.add].
  eexists _, _. reflexivity.
Qed.

Lemma four_bytes (l : list byte) :
  length l = 4%nat -> ∃ a b c d, l = [a; b; c; d].
Proof.
  destruct l as [|a [|b [|c [|d [|]]]]]; try discriminate. eauto.
Qed.

Lemma ReplaceSource_v4_effect (data : list byte) (s d newSource : IP) (pr : Z) :
  (20 ≤ length data)%nat -> length newSource = 4%nat ->
  ∃ x y, ReplaceSourceAddress (mkPacket data s d pr PacketTypeIPv4) newSource
         = Some (mkPacket (rewritten_v4 data newSource 12 x y) newSource d pr
                   PacketTypeIPv4, None).
Proof.
  intros Hlen Hnew. unfold ReplaceSourceAddress. cbn [Type_ Data].
  case_decide; [contradiction|].
  pose proof (store_copy data newSource 12) as Hsc. rewrite Hnew in Hsc.
  destruct Hsc as [Hslice Hstore]; [lia|]. cbn [Nat.add] in Hslice, Hstore.
  rewrite Hslice. cbn [mbind option_bind]. rewrite Hstore.
  destruct (four_bytes (take 4 (drop 12 data))) as (o0 & o1 & o2 & o3 & Hold).
  { rewrite length_take, length_drop. lia. }
  destruct (four_bytes newSource Hnew) as (n0 & n1 & n2 & n3 & ->).
  rewrite Hold. change (Go.copy (replicate net_IPv4len Byte.x00) [o0; o1; o2; o3])
    with [o0; o1; o2; o3].
  destruct (recalculate_shape (take 12 data ++ [n0; n1; n2; n3] ++ drop 16 data)
              o0 o1 o2 o3 n0 n1 n2 n3) as (x & y & ->).
  { rewrite !length_app, length_take, length_drop. cbn [length]. lia. }
  exists x, y. reflexivity.
Qed.

Lemma ReplaceDestination_v4_effect (data : list byte) (s d newDest : IP) (pr : Z) :
  (20 ≤ length data)%nat -> length newDest = 4%nat ->
  ∃ x y, ReplaceDestinationAddress (mkPacket data s d pr PacketTypeIPv4) newDest
         = Some (mkPacket (rewritten_v4 data newDest 16 x y) s newDest pr
                   PacketTypeIPv4, None).
Proof.
  intros Hlen Hnew. unfold ReplaceDestinationAddress. cbn [Type_ Data].
  case_decide; [contradiction|].
  pose proof (store_copy data newDest 16) as Hsc. rewrite Hnew in Hsc.
  destruct Hsc as [Hslice Hstore]; [lia|]. cbn [Nat.add] in Hslice, Hstore.
  rewrite Hslice. cbn [mbind option_bind]. rewrite Hstore.
  destruct (four_bytes (take 4 (drop 16 data))) as (o0 & o1 & o2 & o3 & Hold).
  { rewrite length_take, length_drop. lia. }
  destruct (four_bytes newDest Hnew) as (n0 & n1 & n2 & n3 & ->).
  rewrite Hold. change (Go.copy (replicate net_IPv4len Byte.x00) [o0; o1; o2; o3])
    with [o0; o1; o2; o3].
  destruct (recalculate_shape (take 16 data ++ [n0; n1; n2; n3] ++ drop 20 data)
              o0 o1 o2 o3 n0 n1 n2 n3) as (x & y & ->).
  { rewrite !length_app, length_take, length_drop. cbn [length]. lia. }
  exists x, y. reflexivity.
Qed.

Lemma rewritten_v4_facts (data new : list byte) (lo : nat) (x y : byte) :
  (12 ≤ lo)%nat -> (lo + 4 ≤ length data)%nat -> length new = 4%nat ->
  length (rewritten_v4 data new lo x y) = length data ∧
  bytes_from (rewritten_v4 data new lo x y) lo 4 = new ∧
  ∀ i, ¬ (lo ≤ i < lo + 4)%nat -> i ≠ 10%nat -> i ≠ 11%nat ->
       rewritten_v4 data new lo x y !! i = data !! i.
Proof.
  intros Hlo Hlen Hnew. unfold rewritten_v4. cbv zeta.
  set (data1 := take lo data ++ new ++ drop (lo + 4) data).
  assert (Hlen1 : length data1 = length data).
  { subst data1. rewrite <- Hnew. apply length_rewritten. lia. }
  assert (Hbytes1 : bytes_from data1 lo 4 = new).
  { subst data1. rewrite <- Hnew. apply bytes_from_rewritten. lia. }
  assert (Hlook1 : ∀ i, ¬ (lo ≤ i < lo + 4)%nat -> data1 !! i = data !! i).
  { intros i Hi. subst data1. rewrite <- Hnew. apply lookup_rewritten; lia. }
  split; [|split].
  - change 12%nat with (10 + length [x; y])%nat.
    rewrite (length_rewritten data1 [x; y] 10); [exact Hlen1|simpl; lia].
  - unfold bytes_from in *. rewrite <- Hbytes1. f_equal.
    apply list_eq. intros i. rewrite !lookup_drop.
    change 12%nat with (10 + length [x; y])%nat.
    apply lookup_rewritten; simpl; lia.
  - intros i Hi H10 H11. rewrite <- (Hlook1 i Hi).
    change 12%nat with (10 + length [x; y])%nat.
    apply lookup_rewritten; simpl; lia.
Qed.
Lemma lxor_ffff (n : Z) : 0 <= n < 65536 -> Z.lxor n 0xFFFF = 65535 - n.
Proof.
  intros Hn.
  transitivity (Z.land (Z.lnot n) (Z.ones 16)).
  - change 0xFFFF with (Z.ones 16).
    apply Z.bits_inj'. intros i Hi.
    rewrite Z.lxor_spec, Z.land_spec, Z.lnot_spec by lia.
    destruct (Z.ltb_spec i 16).
    + rewrite Z.ones_spec_low by lia.
      destruct (Z.testbit n i); reflexivity.
    + rewrite Z.ones_spec_high by lia.
      replace (Z.testbit n i) with false; [reflexivity|].
      symmetry. rewrite <- (Z.mod_small n (2 ^ 16)) by (change (2 ^ 16) with 65536; lia).
      apply Z.mod_pow2_bits_high. lia.
  - rewrite Z.land_ones by lia. unfold Z.lnot. change (2 ^ 16) with 65536.
    Z.div_mod_to_equations. lia.
Qed.

Lemma adjustment_loop_IPv4_value (o0 o1 o2 o3 n0 n1 n2 n3 : byte) :
  adjustment_loop 4 0 [o0; o1; o2; o3] [n0; n1; n2; n3] 0
  = let a := (0 + (byte.unsigned o0 * 256 + byte.unsigned o1)) mod 2 ^ 32 in
    let a := (a + Z.lxor (byte.unsigned n0 * 256 + byte.unsigned n1) 0xFFFF) mod 2 ^ 32 in
    let a := (a + (byte.unsigned o2 * 256 + byte.unsigned o3)) mod 2 ^ 32 in
    Some ((a + Z.lxor (byte.unsigned n2 * 256 + byte.unsigned n3) 0xFFFF) mod 2 ^ 32).
Proof.
  erewrite adjustment_loop_step;
    [| simpl; lia | apply (Uint16_pair o0 o1) | apply (Uint16_pair n0 n1)].
  erewrite adjustment_loop_step;
    [| simpl; lia | apply (Uint16_pair o2 o3) | apply (Uint16_pair n2 n3)].
  rewrite adjustment_loop_exit by (simpl; lia). reflexivity.
Qed.

(** The adjustment for an address that does not change. *)
Lemma adjustment_same (o0 o1 o2 o3 : byte) :
  adjustment_loop 4 0 [o0; o1; o2; o3] [o0; o1; o2; o3] 0 = Some 0x1FFFE.
Proof.
  rewrite adjustment_loop_IPv4_value. cbv zeta. f_equal.
  pose proof (byte_range o0). pose proof (byte_range o1).
  pose proof (byte_range o2). pose proof (byte_range o3).
  rewrite !lxor_ffff by lia. change (2 ^ 32) with 4294967296.
  Z.div_mod_to_equations. lia.
Qed.

Lemma recalculate_same (packet : list byte) (o0 o1 o2 o3 : byte) :
  (12 ≤ length packet)%nat ->
  recalculateIPv4Checksum packet [o0; o1; o2; o3] [o0; o1; o2; o3]
  = let c := (stored_checksum packet + 0xFFFF) mod 2 ^ 16 in
    Some (take 10 packet ++ [byte.of_Z (Z.shiftr c 8); byte.of_Z c] ++ drop 12 packet).
Proof.
  intros Hlen. explode packet 12.
  unfold recalculateIPv4Checksum, Go.slice.
  case_decide as H12; [|simpl in H12; lia].
  cbn [firstn skipn Nat.sub mbind option_bind].
  rewrite !Uint16_pair. cbn [mbind option_bind length].
  rewrite adjustment_same. cbn [mbind option_bind].
  unfold Go.PutUint16, Go.store. rewrite ?take_0.
  cbn [lookup list_lookup mbind option_bind insert list_insert length firstn skipn app Nat.add].
  unfold stored_checksum, byte_at. cbn [lookup list_lookup default from_option id].
  cbv zeta.
  replace (((Z.land 131070 65535 + Z.shiftr 131070 16) mod 2 ^ 32
            + (byte.unsigned b9 * 256 + byte.unsigned b10)) mod 2 ^ 32 mod 2 ^ 16)
    with ((byte.unsigned b9 * 256 + byte.unsigned b10 + 65535) mod 2 ^ 16).
  - reflexivity.
  - change (Z.land 131070 65535) with 65534. change (Z.shiftr 131070 16) with 1.
    pose proof (byte_range b9). pose proof (byte_range b10).
    change (2 ^ 32) with 4294967296. change (2 ^ 16) with 65536.
    Z.div_mod_to_equations. lia.
Qed.

Lemma ReplaceSource_v6_effect (data : list byte) (s d newSource : IP) (pr : Z) :
  (40 ≤ length data)%nat -> length newSource = 16%nat ->
  ReplaceSourceAddress (mkPacket data s d pr PacketTypeIPv6) newSource
  = Some (mkPacket (take 8 data ++ newSource ++ drop 24 data) newSource d pr
            PacketTypeIPv6, None).
Proof.
  intros Hlen Hnew. unfold ReplaceSourceAddress. cbn [Type_ Data].
  case_decide; [contradiction|].
  pose proof (store_copy data newSource 8) as Hsc. rewrite Hnew in Hsc.
  destruct Hsc as [Hslice Hstore]; [lia|]. cbn [Nat.add] in Hslice, Hstore.
  rewrite Hslice. cbn [mbind option_bind]. rewrite Hstore. reflexivity.
Qed.

Lemma ReplaceDestination_v6_effect (data : list byte) (s d newDest : IP) (pr : Z) :
  (40 ≤ length data)%nat -> length newDest = 16%nat ->
  ReplaceDestinationAddress (mkPacket data s d pr PacketTypeIPv6) newDest
  = Some (mkPacket (take 24 data ++ newDest ++ drop 40 data) s newDest pr
            PacketTypeIPv6, None).
Proof.
  intros Hlen Hnew. unfold ReplaceDestinationAddress. cbn [Type_ Data].
  case_decide; [contradiction|].
  pose proof (store_copy data newDest 24) as Hsc. rewrite Hnew in Hsc.
  destruct Hsc as [Hslice Hstore]; [lia|]. cbn [Nat.add] in Hslice, Hstore.
  rewrite Hslice. cbn [mbind option_bind]. rewrite Hstore. reflexivity.
Qed.

(** Writing [b] over a field that [a] was written to gives what writing
    [b] alone gives, and writing back the bytes of the field changes
    nothing. *)
Lemma rewrite_twice (lo n : nat) (data a b : list byte) :
  (lo + n ≤ length data)%nat -> length a = n -> length b = n ->
  take lo (take lo data ++ a ++ drop (lo + n) data) ++ b
    ++ drop (lo + n) (take lo data ++ a ++ drop (lo + n) data)
  = take lo data ++ b ++ drop (lo + n) data.
Proof.
  intros Hlen Ha Hb.
  rewrite take_app_length' by (rewrite length_take; lia).
  f_equal. f_equal.
  rewrite (app_assoc (take lo data)).
  apply drop_app_length'. rewrite length_app, length_take. lia.
Qed.

Lemma rewrite_same (data : list byte) (lo n : nat) :
  take lo data ++ bytes_from data lo n ++ drop (lo + n) data = data.
Proof.
  unfold bytes_from. rewrite <- drop_drop, take_drop. apply take_drop.
Qed.

Lemma stored_checksum_range (data : list byte) : 0 <= stored_checksum data < 65536.
Proof.
  unfold stored_checksum, byte_at.
  pose proof (byte_range (default Byte.x00 (data !! 10%nat))).
  pose proof (byte_range (default Byte.x00 (data !! 11%nat))). lia.
Qed.

Lemma stored_checksum_rewritten (data1 : list byte) (c : Z) :
  (12 ≤ length data1)%nat -> 0 <= c < 65536 ->
  stored_checksum (take 10 data1 ++ [byte.of_Z (Z.shiftr c 8); byte.of_Z c] ++ drop 12 data1) = c.
Proof.
  intros Hlen Hc. unfold stored_checksum, byte_at.
  rewrite (lookup_app_r (take 10 data1) _ 10), (lookup_app_r (take 10 data1) _ 11)
    by (rewrite length_take; lia).
  rewrite !length_take, !Nat.min_l by lia.
  cbn [Nat.sub app lookup list_lookup default from_option id].
  apply PutUint16_bytes. exact Hc.
Qed.

Lemma mod_65536_range (z : Z) : 0 <= z mod 2 ^ 16 < 65536.
Proof. change (2 ^ 16) with 65536. Z.div_mod_to_equations. lia. Qed.

(** [ReplaceSourceAddress] and [ReplaceDestinationAddress] of an IPv4
    packet with the four bytes the buffer holds at [lo]: what is written
    is the old buffer with the checksum lowered by one in 16 bits. *)
Lemma ReplaceSource_v4_same (data : list byte) (s d : IP) (pr : Z) :
  (20 ≤ length data)%nat ->
  let c := (stored_checksum data + 0xFFFF) mod 2 ^ 16 in
  ReplaceSourceAddress (mkPacket data s d pr PacketTypeIPv4) (bytes_from data 12 4)
  = Some (mkPacket (take 10 data ++ [byte.of_Z (Z.shiftr c 8); byte.of_Z c] ++ drop 12 data)
            (bytes_from data 12 4) d pr PacketTypeIPv4, None).
Proof.
  intros Hlen. cbv zeta.
  assert (Hcur : length (bytes_from data 12 4) = 4%nat)
    by (unfold bytes_from; rewrite length_take, length_drop; lia).
  unfold ReplaceSourceAddress. cbn [Type_ Data].
  case_decide; [contradiction|].
  pose proof (store_copy data (bytes_from data 12 4) 12) as Hsc. rewrite Hcur in Hsc.
  destruct Hsc as [Hslice Hstore]; [lia|]. cbn [Nat.add] in Hslice, Hstore.
  rewrite Hslice. cbn [mbind option_bind]. rewrite Hstore.
  change 16%nat with (12 + 4)%nat. rewrite rewrite_same.
  destruct (four_bytes (bytes_from data 12 4) Hcur) as (o0 & o1 & o2 & o3 & Hold).
  fold (bytes_from data 12 4). rewrite Hold.
  change (Go.copy (replicate net_IPv4len Byte.x00) [o0; o1; o2; o3])
    with [o0; o1; o2; o3].
  rewrite recalculate_same by lia. reflexivity.
Qed.

Lemma ReplaceDestination_v4_same (data : list byte) (s d : IP) (pr : Z) :
  (20 ≤ length data)%nat ->
  let c := (stored_checksum data + 0xFFFF) mod 2 ^ 16 in
  ReplaceDestinationAddress (mkPacket data s d pr PacketTypeIPv4) (bytes_from data 16 4)
  = Some (mkPacket (take 10 data ++ [byte.of_Z (Z.shiftr c 8); byte.of_Z c] ++ drop 12 data)
            s (bytes_from data 16 4) pr PacketTypeIPv4, None).
Proof.
  intros Hlen. cbv zeta.
  assert (Hcur : length (bytes_from data 16 4) = 4%nat)
    by (unfold bytes_from; rewrite length_take, length_drop; lia).
  unfold ReplaceDestinationAddress. cbn [Type_ Data].
  case_decide; [contradiction|].
  pose proof (store_copy data (bytes_from data 16 4) 16) as Hsc. rewrite Hcur in Hsc.
  destruct Hsc as [Hslice Hstore]; [lia|]. cbn [Nat.add] in Hslice, Hstore.
  rewrite Hslice. cbn [mbind option_bind]. rewrite Hstore.
  change 20%nat with (16 + 4)%nat. rewrite rewrite_same.
  destruct (four_bytes (bytes_from data 16 4) Hcur) as (o0 & o1 & o2 & o3 & Hold).
  fold (bytes_from data 16 4). rewrite Hold.
  change (Go.copy (replicate net_IPv4len Byte.x00) [o0; o1; o2; o3])
    with [o0; o1; o2; o3].
  rewrite recalculate_same by lia. reflexivity.
Qed.

Lemma lowered_checksum_facts (data : list byte) :
  (12 ≤ length data)%nat ->
  let c := (stored_checksum data + 0xFFFF) mod 2 ^ 16 in
  let data' := take 10 data ++ [byte.of_Z (Z.shiftr c 8); byte.of_Z c] ++ drop 12 data in
  stored_checksum data' = c ∧ stored_checksum data' ≠ stored_checksum data ∧
  ∀ i, i ≠ 10%nat -> i ≠ 11%nat -> data' !! i = data !! i.
Proof.
  intros Hlen. cbv zeta.
  rewrite stored_checksum_rewritten by (lia || apply mod_65536_range).
  split; [reflexivity|]. split.
  - pose proof (stored_checksum_range data). change (2 ^ 16) with 65536.
    Z.div_mod_to_equations. lia.
  - intros i H10 H11. apply (lookup_rewritten data [_; _] 10); simpl; lia.
Qed.

Lemma ModifyTTL_hop (p : Packet) :
  holds_hop_fields p ->
  (hops_left p <= 1 -> ModifyTTL p = Some (false, p)) ∧
  (2 <= hops_left p ->
     ∃ p', ModifyTTL p = Some (true, p') ∧ holds_hop_fields p' ∧
           hops_left p' = hops_left p - 1).
Proof.
  destruct p as [data s d pr ty]. unfold holds_hop_fields, hops_left.
  cbn [Type_ Data]. intros [[-> Hlen]|[-> Hlen]].
  - explode data 12. unfold TTL, byte_at. cbn [lookup list_lookup default from_option id].
    split.
    + intros Hle. unfold ModifyTTL. cbn [Type_ Data lookup list_lookup mbind option_bind].
      destruct (Z.leb_spec (byte.unsigned b7) 1); [reflexivity|lia].
    + intros Hge. rewrite ModifyTTL_v4_live by assumption. cbv zeta.
      eexists. split; [reflexivity|]. cbn [Type_ Data lookup list_lookup default from_option id].
      split; [left; split; [reflexivity|simpl; lia]|].
      apply byte_of_Z_small. pose proof (byte_range b7). lia.
  - explode data 8. unfold HopLimit, byte_at. cbn [lookup list_lookup default from_option id].
    split.
    + intros Hle. unfold ModifyTTL. cbn [Type_ Data lookup list_lookup mbind option_bind].
      destruct (Z.leb_spec (byte.unsigned b6) 1); [reflexivity|lia].
    + intros Hge. rewrite ModifyTTL_v6_live by assumption.
      eexists. split; [reflexivity|]. cbn [Type_ Data lookup list_lookup default from_option id].
      split; [right; split; [reflexivity|simpl; lia]|].
      apply byte_of_Z_small. pose proof (byte_range b6). lia.
Qed.

Lemma hops_left_nonneg (p : Packet) : 0 <= hops_left p.
Proof.
  unfold hops_left, TTL, HopLimit, byte_at.
  destruct (Type_ p); try lia;
    match goal with |- context [byte.unsigned ?b] => pose proof (byte_range b) end; lia.
Qed.

Section MoreParsedPackets.

Variable ipv4_ParseHeader : list byte -> ipv4_Header + string.
Variable ipv6_ParseHeader : list byte -> ipv6_Header + string.

Abbreviation ParsePacket := (ParsePacket ipv4_ParseHeader ipv6_ParseHeader).

Lemma parsed_holds_hop_fields (data : list byte) (p : Packet) :
  ParsePacket data = inl p -> holds_hop_fields p.
Proof.
  intros Hp. apply ParsePacket_inl in Hp as [<- [(? & _ & ?)|(? & _ & ?)]];
    [left|right]; split; (assumption || lia).
Qed.

(** X1.  A parsed packet is accepted exactly when the version nibble, the
    length of the buffer and the header parser of the version agree, and
    the packet is then the buffer with the addresses and the protocol of
    the parsed header. *)
Theorem ParsePacket_success (data : list byte) (p : Packet) :
  ParsePacket data = inl p ↔
  (version_of data = Some 4 ∧ (20 ≤ length data)%nat ∧
   ∃ h, ipv4_ParseHeader data = inl h ∧
        p = mkPacket data (Src4 h) (Dst4 h) (Protocol4 h) PacketTypeIPv4) ∨
  (version_of data = Some 6 ∧ (40 ≤ length data)%nat ∧
   ∃ h, ipv6_ParseHeader data = inl h ∧
        p = mkPacket data (Src6 h) (Dst6 h) (NextHeader h) PacketTypeIPv6).
Proof.
  unfold ParsePacket, version_of. destruct data as [|b0 rest].
  - split; [discriminate|]. intros [(H & _)|(H & _)]; discriminate.
  - cbn [head fmap option_fmap option_map]. unfold IPv4Version, IPv6Version.
    unfold parseIPv4Packet, parseIPv6Packet, ipv4_HeaderLen, ipv6_HeaderLen.
    destruct (Z.eqb_spec (version_nibble b0) 4) as [E4|N4].
    + destruct (Nat.ltb_spec (length (b0 :: rest)) 20) as [Hs|Hl].
      * split; [discriminate|]. intros [(_ & ? & _)|([= E6] & _)]; lia.
      * destruct (ipv4_ParseHeader (b0 :: rest)) as [h|e].
        -- split.
           ++ intros [= <-]. left. rewrite E4. eauto.
           ++ intros [(_ & _ & h' & [= <-] & ->)|([= E6] & _)]; [reflexivity|lia].
        -- split; [discriminate|].
           intros [(_ & _ & h' & [=] & _)|([= E6] & _)]. lia.
    + destruct (Z.eqb_spec (version_nibble b0) 6) as [E6|N6].
      * destruct (Nat.ltb_spec (length (b0 :: rest)) 40) as [Hs|Hl].
        -- split; [discriminate|]. intros [([= E4] & _)|(_ & ? & _)]; lia.
        -- destruct (ipv6_ParseHeader (b0 :: rest)) as [h|e].
           ++ split.
              ** intros [= <-]. right. rewrite E6. eauto.
              ** intros [([= E4] & _)|(_ & _ & h' & [= <-] & ->)]; [lia|reflexivity].
           ++ split; [discriminate|].
              intros [([= E4] & _)|(_ & _ & h' & [=] & _)]. lia.
      * split; [discriminate|]. intros [([= E4] & _)|([= E6] & _)]; lia.
Qed.

(** X2.  On a parsed packet with two or more hops left [ModifyTTL] returns
    true and takes exactly one hop off, for IPv4 and for IPv6, whatever
    the rest of the header holds. *)
Theorem ModifyTTL_takes_one_hop (data : list byte) (p : Packet) :
  ParsePacket data = inl p ->
  2 <= hops_left p ->
  ∃ p', ModifyTTL p = Some (true, p') ∧ hops_left p' = hops_left p - 1.
Proof.
  intros Hp Hlive.
  destruct (ModifyTTL_hop p (parsed_holds_hop_fields data p Hp)) as [_ Hgo].
  destruct (Hgo Hlive) as (p' & Hmod & _ & Hhops). eauto.
Qed.

(** X3.  A parsed packet with [t] hops left gets through [t - 1] hops and no
    more: of [n] calls of [ModifyTTL] in a row the first
    [min n (max 0 (t - 1))] return true, the next returns false, and the
    packet is left with the hops not used. *)
Theorem ModifyTTL_hop_budget (data : list byte) (p : Packet) (n : nat) :
  ParsePacket data = inl p ->
  let passed := Z.min (Z.of_nat n) (Z.max 0 (hops_left p - 1)) in
  ∃ p', ModifyTTL_times n p = Some (Z.to_nat passed, p') ∧
        hops_left p' = hops_left p - passed ∧
        (passed < Z.of_nat n -> ModifyTTL p' = Some (false, p')).
Proof.
  intros Hp. cbv zeta.
  pose proof (parsed_holds_hop_fields data p Hp) as Hshape.
  clear Hp. revert p Hshape. induction n as [|n IH]; intros p Hp.
  - exists p. cbn [ModifyTTL_times].
    replace (Z.min (Z.of_nat 0) (Z.max 0 (hops_left p - 1))) with 0 by lia.
    split; [reflexivity|]. split; lia.
  - destruct (ModifyTTL_hop p Hp) as [Hstop Hgo].
    destruct (Z.le_gt_cases (hops_left p) 1) as [Hle|Hgt].
    + exists p. cbn [ModifyTTL_times]. rewrite (Hstop Hle). cbn [mbind option_bind].
      replace (Z.min (Z.of_nat (S n)) (Z.max 0 (hops_left p - 1))) with 0 by lia.
      split; [reflexivity|]. split; [lia|]. intros _. reflexivity.
    + destruct Hgo as (p1 & Hmod & Hp1 & Hhops); [lia|].
      destruct (IH p1 Hp1) as (p2 & Htimes & Hhops2 & Hnext).
      exists p2. cbn [ModifyTTL_times]. rewrite Hmod. cbn [mbind option_bind].
      rewrite Htimes. cbn [mbind option_bind]. split; [|split].
      * do 2 f_equal. rewrite Hhops. lia.
      * rewrite Hhops2, Hhops. lia.
      * intros Hlt. apply Hnext. rewrite Hhops. lia.
Qed.

(** X4.  A successful [ReplaceSourceAddress] on a parsed packet: the buffer
    keeps its length, holds the new address at the source offset of the
    version (12 or 8), and differs from the old buffer at most there and,
    in an IPv4 header, at the checksum bytes 10 and 11; the [Source] field
    is the new address and the other fields are as before. *)
Theorem ReplaceSourceAddress_effect (data : list byte) (p : Packet) (newSource : IP) :
  ParsePacket data = inl p ->
  length newSource = addr_size p ->
  ∃ data',
    ReplaceSourceAddress p newSource
    = Some (mkPacket data' newSource (Destination p) (Protocol p) (Type_ p), None) ∧
    length data' = length data ∧
    bytes_from data' (source_offset p) (addr_size p) = newSource ∧
    ∀ i, ¬ may_change p (source_offset p) i -> data' !! i = data !! i.
Proof.
  intros Hp Hnew. apply ParsePacket_inl in Hp as [HD Hv].
  destruct p as [d s dst pr ty]. simpl in HD. subst d.
  unfold may_change, addr_size, source_offset in *. cbn [Type_ Destination Protocol] in *.
  destruct Hv as [(Hty & _ & Hlen)|(Hty & _ & Hlen)]; simpl in Hty; subst ty;
    unfold net_IPv4len, net_IPv6len in *.
  - destruct (ReplaceSource_v4_effect data s dst newSource pr Hlen Hnew) as (x & y & ->).
    destruct (rewritten_v4_facts data newSource 12 x y) as (Hl & Hb & Hi); [lia..|assumption|].
    eexists. split; [reflexivity|]. split; [exact Hl|]. split; [exact Hb|].
    intros i Hnot. apply Hi; intros ?; apply Hnot; auto.
  - rewrite (ReplaceSource_v6_effect data s dst newSource pr Hlen Hnew).
    eexists. split; [reflexivity|].
    pose proof (length_rewritten data newSource 8) as Hl.
    pose proof (bytes_from_rewritten data newSource 8) as Hb.
    pose proof (lookup_rewritten data newSource 8) as Hi.
    rewrite Hnew in Hl, Hb, Hi.
    split; [apply Hl; lia|]. split; [apply Hb; lia|].
    intros i Hnot. apply Hi; [lia|]. intros ?. apply Hnot. left. lia.
Qed.

(** X5.  A successful [ReplaceDestinationAddress] on a parsed packet: the
    buffer keeps its length, holds the new address at the destination
    offset of the version (16 or 24), and differs from the old buffer at
    most there and, in an IPv4 header, at the checksum bytes 10 and 11;
    the [Destination] field is the new address and the other fields are
    as before. *)
Theorem ReplaceDestinationAddress_effect (data : list byte) (p : Packet) (newDest : IP) :
  ParsePacket data = inl p ->
  length newDest = addr_size p ->
  ∃ data',
    ReplaceDestinationAddress p newDest
    = Some (mkPacket data' (Source p) newDest (Protocol p) (Type_ p), None) ∧
    length data' = length data ∧
    bytes_from data' (destination_offset p) (addr_size p) = newDest ∧
    ∀ i, ¬ may_change p (destination_offset p) i -> data' !! i = data !! i.
Proof.
  intros Hp Hnew. apply ParsePacket_inl in Hp as [HD Hv].
  destruct p as [d s dst pr ty]. simpl in HD. subst d.
  unfold may_change, addr_size, destination_offset in *. cbn [Type_ Source Protocol] in *.
  destruct Hv as [(Hty & _ & Hlen)|(Hty & _ & Hlen)]; simpl in Hty; subst ty;
    unfold net_IPv4len, net_IPv6len in *.
  - destruct (ReplaceDestination_v4_effect data s dst newDest pr Hlen Hnew) as (x & y & ->).
    destruct (rewritten_v4_facts data newDest 16 x y) as (Hl & Hb & Hi); [lia..|assumption|].
    eexists. split; [reflexivity|]. split; [exact Hl|]. split; [exact Hb|].
    intros i Hnot. apply Hi; intros ?; apply Hnot; auto.
  - rewrite (ReplaceDestination_v6_effect data s dst newDest pr Hlen Hnew).
    eexists. split; [reflexivity|].
    pose proof (length_rewritten data newDest 24) as Hl.
    pose proof (bytes_from_rewritten data newDest 24) as Hb.
    pose proof (lookup_rewritten data newDest 24) as Hi.
    rewrite Hnew in Hl, Hb, Hi.
    split; [apply Hl; lia|]. split; [apply Hb; lia|].
    intros i Hnot. apply Hi; [lia|]. intros ?. apply Hnot. left. lia.
Qed.

(** X6.  On an IPv6 packet an address rewrite is a plain overwrite: a second
    rewrite gives what it gives on the packet as parsed, and writing the
    address of the parsed buffer back restores the buffer byte for
    byte. *)
Theorem Replace_v6_overwrites (data : list byte) (p : Packet) (a b : IP) :
  ParsePacket data = inl p ->
  Type_ p = PacketTypeIPv6 ->
  length a = 16%nat -> length b = 16%nat ->
  (∃ pa, ReplaceSourceAddress p a = Some (pa, None) ∧
         (∃ pb, ReplaceSourceAddress pa b = Some (pb, None) ∧
                ReplaceSourceAddress p b = Some (pb, None)) ∧
         ∃ p0, ReplaceSourceAddress pa (bytes_from data 8 16) = Some (p0, None) ∧
               Data p0 = data) ∧
  (∃ pa, ReplaceDestinationAddress p a = Some (pa, None) ∧
         (∃ pb, ReplaceDestinationAddress pa b = Some (pb, None) ∧
                ReplaceDestinationAddress p b = Some (pb, None)) ∧
         ∃ p0, ReplaceDestinationAddress pa (bytes_from data 24 16) = Some (p0, None) ∧
               Data p0 = data).
Proof.
  intros Hp Hty Ha Hb. apply ParsePacket_inl in Hp as [HD Hv].
  destruct p as [d s dst pr ty]. simpl in HD, Hty. subst d ty.
  destruct Hv as [([=] & _)|(_ & _ & Hlen)].
  assert (Hcur8 : length (bytes_from data 8 16) = 16%nat)
    by (unfold bytes_from; rewrite length_take, length_drop; lia).
  assert (Hcur24 : length (bytes_from data 24 16) = 16%nat)
    by (unfold bytes_from; rewrite length_take, length_drop; lia).
  assert (Hla : length (take 8 data ++ a ++ drop 24 data) = length data).
  { rewrite !length_app, length_take, length_drop. lia. }
  assert (Hla' : length (take 24 data ++ a ++ drop 40 data) = length data).
  { rewrite !length_app, length_take, length_drop. lia. }
  split.
  - rewrite (ReplaceSource_v6_effect data s dst a pr Hlen Ha).
    eexists. split; [reflexivity|]. split.
    + rewrite (ReplaceSource_v6_effect _ a dst b pr) by (rewrite ?Hla; lia).
      rewrite (ReplaceSource_v6_effect data s dst b pr Hlen Hb).
      eexists. split; [reflexivity|]. do 3 f_equal.
      symmetry. apply (rewrite_twice 8 16); (assumption || lia).
    + rewrite (ReplaceSource_v6_effect _ a dst (bytes_from data 8 16) pr)
        by (rewrite ?Hla; lia).
      eexists. split; [reflexivity|]. cbn [Data].
      etransitivity; [apply (rewrite_twice 8 16); (assumption || lia)|].
      apply (rewrite_same data 8 16).
  - rewrite (ReplaceDestination_v6_effect data s dst a pr Hlen Ha).
    eexists. split; [reflexivity|]. split.
    + rewrite (ReplaceDestination_v6_effect _ s a b pr) by (rewrite ?Hla'; lia).
      rewrite (ReplaceDestination_v6_effect data s dst b pr Hlen Hb).
      eexists. split; [reflexivity|]. do 3 f_equal.
      symmetry. apply (rewrite_twice 24 16); (assumption || lia).
    + rewrite (ReplaceDestination_v6_effect _ s a (bytes_from data 24 16) pr)
        by (rewrite ?Hla'; lia).
      eexists. split; [reflexivity|]. cbn [Data].
      etransitivity; [apply (rewrite_twice 24 16); (assumption || lia)|].
      apply (rewrite_same data 24 16).
Qed.

(** X7.  On an IPv4 packet an address rewrite is not such an overwrite:
    rewriting an address with the very bytes the buffer holds returns no
    error, changes no byte outside of the checksum field, and lowers the
    stored checksum by one in 16 bits, so that the checksum is never the
    one the buffer had. *)
Theorem Replace_v4_same_address_lowers_checksum (data : list byte) (p : Packet) :
  ParsePacket data = inl p ->
  Type_ p = PacketTypeIPv4 ->
  let lowered data' :=
    stored_checksum data' = (stored_checksum data + 0xFFFF) mod 2 ^ 16 ∧
    stored_checksum data' ≠ stored_checksum data ∧
    ∀ i, i ≠ 10%nat -> i ≠ 11%nat -> data' !! i = data !! i in
  (∃ p', ReplaceSourceAddress p (bytes_from data 12 4) = Some (p', None) ∧
         lowered (Data p')) ∧
  (∃ p', ReplaceDestinationAddress p (bytes_from data 16 4) = Some (p', None) ∧
         lowered (Data p')).
Proof.
  intros Hp Hty. apply ParsePacket_inl in Hp as [HD Hv].
  destruct p as [d s dst pr ty]. simpl in HD, Hty. subst d ty.
  destruct Hv as [(_ & _ & Hlen)|([=] & _)]. cbv zeta.
  pose proof (lowered_checksum_facts data) as Hfacts. cbv zeta in Hfacts.
  split.
  - rewrite (ReplaceSource_v4_same data s dst pr Hlen). cbv zeta.
    eexists. split; [reflexivity|]. apply Hfacts. lia.
  - rewrite (ReplaceDestination_v4_same data s dst pr Hlen). cbv zeta.
    eexists. split; [reflexivity|]. apply Hfacts. lia.
Qed.

End MoreParsedPackets.

(** The further packet theorems, applied to the sample buffers. *)

Lemma ParsePacket_success_witness :
  (version_of sample_v4 = Some 4 ∧ (20 ≤ length sample_v4)%nat ∧
   ∃ h, x_net_ipv4_ParseHeader sample_v4 = inl h ∧
        parsed sample_v4 = mkPacket sample_v4 (Src4 h) (Dst4 h) (Protocol4 h) PacketTypeIPv4) ∨
  (version_of sample_v4 = Some 6 ∧ (40 ≤ length sample_v4)%nat ∧
   ∃ h, x_net_ipv6_ParseHeader sample_v4 = inl h ∧
        parsed sample_v4 = mkPacket sample_v4 (Src6 h) (Dst6 h) (NextHeader h) PacketTypeIPv6).
Proof.
  apply (ParsePacket_success x_net_ipv4_ParseHeader x_net_ipv6_ParseHeader sample_v4
           (parsed sample_v4)).
  reflexivity.
Defined.

Lemma ModifyTTL_takes_one_hop_witness :
  ∃ p', ModifyTTL (parsed sample_v6) = Some (true, p') ∧
        hops_left p' = hops_left (parsed sample_v6) - 1.
Proof.
  apply (ModifyTTL_takes_one_hop x_net_ipv4_ParseHeader x_net_ipv6_ParseHeader sample_v6).
  - reflexivity.
  - vm_compute. discriminate.
Defined.

Lemma ModifyTTL_hop_budget_witness :
  let passed := Z.min (Z.of_nat 100) (Z.max 0 (hops_left (parsed sample_v4) - 1)) in
  ∃ p', ModifyTTL_times 100 (parsed sample_v4) = Some (Z.to_nat passed, p') ∧
        hops_left p' = hops_left (parsed sample_v4) - passed ∧
        (passed < Z.of_nat 100 -> ModifyTTL p' = Some (false, p')).
Proof.
  apply (ModifyTTL_hop_budget x_net_ipv4_ParseHeader x_net_ipv6_ParseHeader sample_v4).
  reflexivity.
Defined.

(** The sample header (TTL 64) gets through 63 hops. *)
Example sample_v4_passes_63_hops :
  fst <$> ModifyTTL_times 100 (parsed sample_v4) = Some 63%nat.
Proof. vm_compute. reflexivity. Qed.

Lemma ReplaceSourceAddress_effect_witness :
  ∃ data',
    ReplaceSourceAddress (parsed sample_v4) ten_0_0_1
    = Some (mkPacket data' ten_0_0_1 (Destination (parsed sample_v4))
              (Protocol (parsed sample_v4)) (Type_ (parsed sample_v4)), None) ∧
    length data' = length sample_v4 ∧
    bytes_from data' (source_offset (parsed sample_v4)) (addr_size (parsed sample_v4))
    = ten_0_0_1 ∧
    ∀ i, ¬ may_change (parsed sample_v4) (source_offset (parsed sample_v4)) i ->
         data' !! i = sample_v4 !! i.
Proof.
  apply (ReplaceSourceAddress_effect x_net_ipv4_ParseHeader x_net_ipv6_ParseHeader sample_v4);
    reflexivity.
Defined.

Lemma ReplaceDestinationAddress_effect_witness :
  ∃ data',
    ReplaceDestinationAddress (parsed sample_v6) fe80_9
    = Some (mkPacket data' (Source (parsed sample_v6)) fe80_9
              (Protocol (parsed sample_v6)) (Type_ (parsed sample_v6)), None) ∧
    length data' = length sample_v6 ∧
    bytes_from data' (destination_offset (parsed sample_v6)) (addr_size (parsed sample_v6))
    = fe80_9 ∧
    ∀ i, ¬ may_change (parsed sample_v6) (destination_offset (parsed sample_v6)) i ->
         data' !! i = sample_v6 !! i.
Proof.
  apply (ReplaceDestinationAddress_effect x_net_ipv4_ParseHeader x_net_ipv6_ParseHeader
           sample_v6);
    reflexivity.
Defined.

Lemma Replace_v6_overwrites_witness :
  (∃ pa, ReplaceSourceAddress (parsed sample_v6) fe80_9 = Some (pa, None) ∧
         (∃ pb, ReplaceSourceAddress pa fe80_7 = Some (pb, None) ∧
                ReplaceSourceAddress (parsed sample_v6) fe80_7 = Some (pb, None)) ∧
         ∃ p0, ReplaceSourceAddress pa (bytes_from sample_v6 8 16) = Some (p0, None) ∧
               Data p0 = sample_v6) ∧
  (∃ pa, ReplaceDestinationAddress (parsed sample_v6) fe80_9 = Some (pa, None) ∧
         (∃ pb, ReplaceDestinationAddress pa fe80_7 = Some (pb, None) ∧
                ReplaceDestinationAddress (parsed sample_v6) fe80_7 = Some (pb, None)) ∧
         ∃ p0, ReplaceDestinationAddress pa (bytes_from sample_v6 24 16) = Some (p0, None) ∧
               Data p0 = sample_v6).
Proof.
  apply (Replace_v6_overwrites x_net_ipv4_ParseHeader x_net_ipv6_ParseHeader sample_v6);
    reflexivity.
Defined.

Lemma Replace_v4_same_address_witness :
  let lowered data' :=
    stored_checksum data' = (stored_checksum sample_v4 + 0xFFFF) mod 2 ^ 16 ∧
    stored_checksum data' ≠ stored_checksum sample_v4 ∧
    ∀ i, i ≠ 10%nat -> i ≠ 11%nat -> data' !! i = sample_v4 !! i in
  (∃ p', ReplaceSourceAddress (parsed sample_v4) (bytes_from sample_v4 12 4)
         = Some (p', None) ∧ lowered (Data p')) ∧
  (∃ p', ReplaceDestinationAddress (parsed sample_v4) (bytes_from sample_v4 16 4)
         = Some (p', None) ∧ lowered (Data p')).
Proof.
  apply (Replace_v4_same_address_lowers_checksum x_net_ipv4_ParseHeader
           x_net_ipv6_ParseHeader sample_v4);
    reflexivity.
Defined.

(** ** The routing table: insertion, removal and the counters *)

Lemma int64_in_int64 (z : Z) : in_int64 (int64 z).
Proof.
  unfold in_int64, int64.
  change (2 ^ 63) with 9223372036854775808. change (2 ^ 64) with 18446744073709551616.
  Z.div_mod_to_equations. lia.
Qed.

Lemma int64_id (z : Z) : in_int64 z -> int64 z = z.
Proof.
  unfold in_int64, int64.
  change (2 ^ 63) with 9223372036854775808. change (2 ^ 64) with 18446744073709551616.
  intros Hz. Z.div_mod_to_equations. lia.
Qed.

Lemma int64_up_down (z : Z) : in_int64 z -> int64 (int64 (z + 1) - 1) = z.
Proof.
  unfold in_int64, int64.
  change (2 ^ 63) with 9223372036854775808. change (2 ^ 64) with 18446744073709551616.
  intros Hz. Z.div_mod_to_equations. lia.
Qed.

Lemma int64_congr (z : Z) : (int64 z - z) mod 2 ^ 64 = 0.
Proof.
  unfold int64.
  change (2 ^ 63) with 9223372036854775808. change (2 ^ 64) with 18446744073709551616.
  Z.div_mod_to_equations. lia.
Qed.

Section MoreRouterProps.

Variable ParseCIDR : string -> option IPNet.
Variable IPNet_String : IPNet -> string.
Variable Contains : IPNet -> IP -> bool.
Variable Mask_Size : IPNet -> Z.
Variable is_IPv4 : IPNet -> bool.

Abbreviation GetRoute_scan := (GetRoute_scan Contains Mask_Size).
Abbreviation GetRoute_step := (GetRoute_step Contains Mask_Size).
Abbreviation GetRoute := (GetRoute Contains Mask_Size).
Abbreviation is_longest_match := (is_longest_match Contains Mask_Size).
Abbreviation AddRoute := (AddRoute ParseCIDR IPNet_String is_IPv4).
Abbreviation RemoveRoute := (RemoveRoute ParseCIDR IPNet_String is_IPv4).
Abbreviation NewRouter := (NewRouter ParseCIDR IPNet_String is_IPv4).
Abbreviation reachable := (reachable ParseCIDR IPNet_String is_IPv4).
Abbreviation prefixes := (prefixes IPNet_String).
Abbreviation distinct_prefixes := (distinct_prefixes IPNet_String).
Abbreviation same_prefix := (same_prefix IPNet_String).

#[local] Existing Instance same_prefix_dec.

Lemma find_prefix_None (network : IPNet) (rs : list Route) :
  list_find (same_prefix network) rs = None ↔
  IPNet_String network ∉ (fun route => IPNet_String (Network route)) <$> rs.
Proof.
  rewrite list_find_None, Forall_forall, list_elem_of_fmap. unfold same_prefix. split.
  - intros H (route & Heq & Hin). apply (H route Hin). congruence.
  - intros H route Hin Heq. apply H. exists route. split; [congruence|assumption].
Qed.

(** [AddRoute] with a prefix that is not in the table: the route goes to
    the end of the table, and the counter of its family goes up. *)
Lemma AddRoute_fresh (r : Router) (cidr : string) (network : IPNet) (routeType : RouteType) :
  ParseCIDR cidr = Some network ->
  IPNet_String network ∉ prefixes r ->
  AddRoute r cidr routeType =
    (if is_IPv4 network
     then mkRouter (routes r ++ [mkRoute network routeType])
            (int64 (ipv4Count r + 1)) (ipv6Count r)
     else mkRouter (routes r ++ [mkRoute network routeType])
            (ipv4Count r) (int64 (ipv6Count r + 1)), None).
Proof.
  intros Hparse Hfresh. unfold AddRoute. rewrite Hparse.
  apply find_prefix_None in Hfresh. rewrite Hfresh.
  destruct (is_IPv4 network); reflexivity.
Qed.

(** X8.  The calls that fail, and what they leave: [AddRoute] fails exactly on
    a text that is no CIDR; [RemoveRoute] fails on such a text and on a
    prefix that is not in the table; a call that fails leaves the router
    as it is. *)
Theorem AddRoute_RemoveRoute_failures (r : Router) (cidr : string) (routeType : RouteType) :
  ((AddRoute r cidr routeType).2 ≠ None ↔ ParseCIDR cidr = None) ∧
  ((RemoveRoute r cidr).2 ≠ None ↔
     ∀ network, ParseCIDR cidr = Some network -> IPNet_String network ∉ prefixes r) ∧
  ((AddRoute r cidr routeType).2 ≠ None -> (AddRoute r cidr routeType).1 = r) ∧
  ((RemoveRoute r cidr).2 ≠ None -> (RemoveRoute r cidr).1 = r) ∧
  (ParseCIDR cidr = None ->
     (AddRoute r cidr routeType).2 = Some ErrInvalidCIDR ∧
     (RemoveRoute r cidr).2 = Some ErrInvalidCIDR) ∧
  (∀ network, ParseCIDR cidr = Some network -> IPNet_String network ∉ prefixes r ->
     (RemoveRoute r cidr).2 = Some (ErrRouteNotFound cidr)).
Proof.
  unfold AddRoute, RemoveRoute.
  destruct (ParseCIDR cidr) as [network|] eqn:Hparse.
  - destruct (list_find (same_prefix network) (routes r)) as [[i route]|] eqn:Hfind.
    + assert (Hin : IPNet_String network ∈ prefixes r).
      { apply list_find_Some in Hfind as (Hi & Hsame & _).
        unfold prefixes. apply list_elem_of_fmap. exists route.
        split; [symmetry; exact Hsame|]. eapply list_elem_of_lookup_2. exact Hi. }
      destruct (is_IPv4 network); cbn [snd fst]; naive_solver.
    + apply find_prefix_None in Hfind.
      destruct (is_IPv4 network); cbn [snd fst]; naive_solver.
  - cbn [snd fst]. naive_solver.
Qed.

Lemma reachable_distinct (r : Router) : reachable r -> distinct_prefixes r.
Proof.
  intros Hr. apply distinct_prefixes_NoDup.
  apply (reachable_NoDup ParseCIDR IPNet_String is_IPv4). exact Hr.
Qed.

Lemma in_prefixes (r : Router) (network : IPNet) :
  IPNet_String network ∈ prefixes r ↔
  ∃ i route, routes r !! i = Some route ∧
             IPNet_String (Network route) = IPNet_String network.
Proof.
  unfold prefixes. rewrite list_elem_of_fmap. split.
  - intros (route & Heq & Hin). apply list_elem_of_lookup_1 in Hin as [i Hi]. eauto.
  - intros (i & route & Hi & Heq). exists route. split; [congruence|].
    eapply list_elem_of_lookup_2. exact Hi.
Qed.

(** X9.  Insert and look up.  After a successful [AddRoute] on a router a
    program can reach, the table has exactly one entry with the prefix
    added, it carries the classification given, and every entry of
    another prefix is still in the table. *)
Theorem AddRoute_then_lookup (r : Router) (cidr : string) (network : IPNet)
    (routeType : RouteType) :
  reachable r ->
  ParseCIDR cidr = Some network ->
  let r' := (AddRoute r cidr routeType).1 in
  (∃ i route,
     routes r' !! i = Some route ∧
     IPNet_String (Network route) = IPNet_String network ∧
     RType route = routeType ∧
     ∀ j other, routes r' !! j = Some other ->
                IPNet_String (Network other) = IPNet_String network -> j = i) ∧
  (∀ other, other ∈ routes r ->
            IPNet_String (Network other) ≠ IPNet_String network ->
            other ∈ routes r').
Proof.
  intros Hr Hparse r'.
  assert (Hdist : distinct_prefixes r')
    by (apply reachable_distinct; subst r'; constructor; exact Hr).
  assert (Hentry : ∃ i route, routes r' !! i = Some route ∧
                     IPNet_String (Network route) = IPNet_String network ∧
                     RType route = routeType ∧
                     ∀ other, other ∈ routes r ->
                       IPNet_String (Network other) ≠ IPNet_String network ->
                       other ∈ routes r').
  { subst r'. destruct (decide (IPNet_String network ∈ prefixes r)) as [Hin|Hfresh].
    - destruct (AddRoute_present ParseCIDR IPNet_String is_IPv4 r cidr network routeType
                  Hparse Hin) as (i & route & Hi & Hsame & ->).
      cbn [fst routes]. exists i, (mkRoute (Network route) routeType).
      split; [apply list_lookup_insert_eq; eapply lookup_lt_Some; exact Hi|].
      split; [exact Hsame|]. split; [reflexivity|].
      intros other Hother Hne. apply list_elem_of_lookup_1 in Hother as [j Hj].
      apply (list_elem_of_lookup_2 _ j). rewrite list_lookup_insert_ne; [exact Hj|].
      intros ->. rewrite Hi in Hj. injection Hj as <-. contradiction.
    - rewrite (AddRoute_fresh r cidr network routeType Hparse Hfresh).
      exists (length (routes r)), (mkRoute network routeType).
      destruct (is_IPv4 network); cbn [fst routes];
        (split; [rewrite lookup_app_r, Nat.sub_diag by lia; reflexivity|];
         split; [reflexivity|]; split; [reflexivity|];
         intros other Hother _; apply elem_of_app; left; exact Hother). }
  destruct Hentry as (i & route & Hi & Hsame & Hty & Hkeep).
  split; [|exact Hkeep].
  exists i, route. split; [exact Hi|]. split; [exact Hsame|]. split; [exact Hty|].
  intros j other Hj Heq. apply (Hdist j i other route Hj Hi). congruence.
Qed.

(** The table after a [RemoveRoute] that found entry [i]. *)
Lemma RemoveRoute_present (r : Router) (cidr : string) (network : IPNet) :
  ParseCIDR cidr = Some network ->
  IPNet_String network ∈ prefixes r ->
  ∃ i route final,
    routes r !! i = Some route ∧
    IPNet_String (Network route) = IPNet_String network ∧
    routes r !! (length (routes r) - 1)%nat = Some final ∧
    (RemoveRoute r cidr).2 = None ∧
    routes (RemoveRoute r cidr).1
    = take (length (routes r) - 1) (<[i := final]> (routes r)).
Proof.
  intros Hparse Hin. unfold RemoveRoute. rewrite Hparse.
  destruct (list_find (same_prefix network) (routes r)) as [[i route]|] eqn:Hfind.
  - apply list_find_Some in Hfind as (Hi & Hsame & _).
    assert (Hlt : (i < length (routes r))%nat) by (eapply lookup_lt_Some; exact Hi).
    destruct (lookup_lt_is_Some_2 (routes r) (length (routes r) - 1)) as [final Hfinal];
      [lia|].
    exists i, route, final. rewrite Hfinal.
    destruct (is_IPv4 network); cbn [fst snd routes]; auto.
  - apply find_prefix_None in Hfind. contradiction.
Qed.

Lemma RemoveRoute_table (r : Router) (cidr : string) (network : IPNet) :
  reachable r ->
  ParseCIDR cidr = Some network ->
  IPNet_String network ∈ prefixes r ->
  let r' := (RemoveRoute r cidr).1 in
  (RemoveRoute r cidr).2 = None ∧
  S (length (routes r')) = length (routes r) ∧
  (IPNet_String network ∉ prefixes r') ∧
  (∀ other, other ∈ routes r ->
            IPNet_String (Network other) ≠ IPNet_String network ->
            other ∈ routes r') ∧
  (∀ other, other ∈ routes r' -> other ∈ routes r).
Proof.
  intros Hr Hparse Hin r'. subst r'.
  pose proof (reachable_distinct r Hr) as Hdist.
  destruct (RemoveRoute_present r cidr network Hparse Hin)
    as (i & route & final & Hi & Hsame & Hfinal & Herr & Hroutes).
  assert (Hlt : (i < length (routes r))%nat) by (eapply lookup_lt_Some; exact Hi).
  assert (Hlook : ∀ a other,
            routes (RemoveRoute r cidr).1 !! a = Some other ↔
            (a < length (routes r) - 1)%nat ∧
            ((a = i ∧ other = final) ∨ (a ≠ i ∧ routes r !! a = Some other))).
  { intros a other. rewrite Hroutes, lookup_take_Some, list_lookup_insert_Some.
    split.
    - intros [[(Hia & Hfo & _)|[Hne Ha]] Hlt']; (split; [exact Hlt'|]);
        [left|right]; split; congruence.
    - intros [Hlt' [[Hai Hof]|[Hne Ha]]]; (split; [|exact Hlt']).
      + left. split; [congruence|]. split; [congruence|lia].
      + right. split; [congruence|exact Ha]. }
  split; [exact Herr|]. split; [|split; [|split]].
  - rewrite Hroutes, length_take, length_insert. lia.
  - intros Hstill. apply in_prefixes in Hstill as (a & other & Ha & Heq).
    apply Hlook in Ha as [Hlt' [[-> ->]|[Hne Ha]]].
    + pose proof (Hdist _ _ _ _ Hfinal Hi ltac:(congruence)). lia.
    + apply Hne. apply (Hdist _ _ _ _ Ha Hi). congruence.
  - intros other Hother Hne. apply list_elem_of_lookup_1 in Hother as [j Hj].
    assert (Hji : j ≠ i) by (intros ->; rewrite Hi in Hj; injection Hj as <-; contradiction).
    assert (Hjlt : (j < length (routes r))%nat) by (eapply lookup_lt_Some; exact Hj).
    destruct (decide (j = length (routes r) - 1)%nat) as [Hlast|Hnot].
    + apply (list_elem_of_lookup_2 _ i). apply Hlook. split; [lia|]. left.
      split; [reflexivity|]. rewrite <- Hlast, Hj in Hfinal. congruence.
    + apply (list_elem_of_lookup_2 _ j). apply Hlook. split; [lia|]. right. auto.
  - intros other Hother. apply list_elem_of_lookup_1 in Hother as [a Ha].
    apply Hlook in Ha as [_ [[_ ->]|[_ Ha]]]; eapply list_elem_of_lookup_2; eassumption.
Qed.

Lemma RemoveRoute_absent (r : Router) (cidr : string) (network : IPNet) :
  ParseCIDR cidr = Some network ->
  IPNet_String network ∉ prefixes r ->
  RemoveRoute r cidr = (r, Some (ErrRouteNotFound cidr)).
Proof.
  intros Hparse Hfresh. unfold RemoveRoute. rewrite Hparse.
  apply find_prefix_None in Hfresh. rewrite Hfresh. reflexivity.
Qed.

(** X10.  Remove and look up.  After a successful [RemoveRoute] on a router a
    program can reach, the table is one entry shorter, has no entry with
    the prefix removed, has every entry of another prefix it had, and
    has no entry it did not have. *)
Theorem RemoveRoute_then_lookup (r : Router) (cidr : string) (network : IPNet) :
  reachable r ->
  ParseCIDR cidr = Some network ->
  IPNet_String network ∈ prefixes r ->
  let r' := (RemoveRoute r cidr).1 in
  (RemoveRoute r cidr).2 = None ∧
  S (length (routes r')) = length (routes r) ∧
  (IPNet_String network ∉ prefixes r') ∧
  (∀ other, other ∈ routes r ->
            IPNet_String (Network other) ≠ IPNet_String network ->
            other ∈ routes r') ∧
  (∀ other, other ∈ routes r' -> other ∈ routes r).
Proof. exact (RemoveRoute_table r cidr network). Qed.


(** The scan finds a route just added at the end of the table. *)
Lemma find_fresh (rs : list Route) (network : IPNet) (routeType : RouteType) :
  IPNet_String network ∉ (fun route => IPNet_String (Network route)) <$> rs ->
  list_find (same_prefix network) (rs ++ [mkRoute network routeType])
  = Some (length rs, mkRoute network routeType).
Proof.
  intros Hfresh. apply list_find_Some. split; [|split].
  - rewrite lookup_app_r, Nat.sub_diag by lia. reflexivity.
  - reflexivity.
  - intros j y Hj Hlt Hsame. apply Hfresh.
    rewrite lookup_app_l in Hj by lia.
    apply list_elem_of_fmap. exists y. split; [symmetry; exact Hsame|].
    eapply list_elem_of_lookup_2. exact Hj.
Qed.

Lemma AddRoute_counts_in_int64 (r : Router) (cidr : string) (routeType : RouteType) :
  in_int64 (ipv4Count r) ∧ in_int64 (ipv6Count r) ->
  in_int64 (ipv4Count (AddRoute r cidr routeType).1) ∧
  in_int64 (ipv6Count (AddRoute r cidr routeType).1).
Proof.
  intros [H4 H6]. unfold AddRoute.
  destruct (ParseCIDR cidr) as [network|]; [|auto].
  destruct (list_find _ _) as [[i route]|]; [auto|].
  destruct (is_IPv4 network); cbn [fst ipv4Count ipv6Count];
    auto using int64_in_int64.
Qed.

Lemma RemoveRoute_counts_in_int64 (r : Router) (cidr : string) :
  in_int64 (ipv4Count r) ∧ in_int64 (ipv6Count r) ->
  in_int64 (ipv4Count (RemoveRoute r cidr).1) ∧
  in_int64 (ipv6Count (RemoveRoute r cidr).1).
Proof.
  intros [H4 H6]. unfold RemoveRoute.
  destruct (ParseCIDR cidr) as [network|]; [|auto].
  destruct (list_find _ _) as [[i route]|]; [|auto].
  destruct (is_IPv4 network); cbn [fst ipv4Count ipv6Count];
    auto using int64_in_int64.
Qed.

Lemma zero_in_int64 : in_int64 0.
Proof. unfold in_int64. change (2 ^ 63) with 9223372036854775808. lia. Qed.

(** What holds of the router [NewRouter] returns holds of every router
    a program can reach, when the three calls keep it. *)
Lemma reachable_ind_empty (P : Router -> Prop) :
  P (mkRouter [] 0 0) ->
  (∀ r cidr routeType, P r -> P (AddRoute r cidr routeType).1) ->
  (∀ r cidr, P r -> P (RemoveRoute r cidr).1) ->
  ∀ r, reachable r -> P r.
Proof.
  intros Hempty Hadd Hremove r Hr. induction Hr as [|r cidr rt _ IH|r cidr _ IH|r _ IH].
  - unfold NewRouter, addPrivateNetworkRoutes.
    generalize (default_routes). intros l.
    generalize dependent (mkRouter [] 0 0). induction l as [|e l IHl]; intros r0 Hr0.
    + exact Hr0.
    + simpl. apply IHl, Hadd, Hr0.
  - apply Hadd, IH.
  - apply Hremove, IH.
  - exact Hempty.
Qed.

Lemma reachable_counts_in_int64 (r : Router) :
  reachable r -> in_int64 (ipv4Count r) ∧ in_int64 (ipv6Count r).
Proof.
  revert r.
  apply (reachable_ind_empty (fun r => in_int64 (ipv4Count r) ∧ in_int64 (ipv6Count r))).
  - split; apply zero_in_int64.
  - intros. apply AddRoute_counts_in_int64. assumption.
  - intros. apply RemoveRoute_counts_in_int64. assumption.
Qed.

(** X11.  Round trip.  On a router a program can reach, adding a prefix that
    is not in the table and removing it again gives back the very router:
    the table, in its order, and the two counters. *)
Theorem AddRoute_RemoveRoute_round_trip (r : Router) (cidr : string) (network : IPNet)
    (routeType : RouteType) :
  reachable r ->
  ParseCIDR cidr = Some network ->
  IPNet_String network ∉ prefixes r ->
  RemoveRoute (AddRoute r cidr routeType).1 cidr = (r, None).
Proof.
  intros Hr Hparse Hfresh.
  destruct (reachable_counts_in_int64 r Hr) as [H4 H6].
  rewrite (AddRoute_fresh r cidr network routeType Hparse Hfresh).
  destruct r as [rs v4 v6]. cbn [routes ipv4Count ipv6Count] in *.
  unfold prefixes in Hfresh. cbn [routes] in Hfresh.
  assert (Hcut : (length (rs ++ [mkRoute network routeType]) - 1)%nat = length rs)
    by (rewrite length_app; simpl; lia).
  destruct (is_IPv4 network) eqn:Hfam; unfold RemoveRoute; cbn [fst routes ipv4Count ipv6Count];
    rewrite Hparse, (find_fresh rs network routeType Hfresh), Hcut;
    rewrite lookup_app_r, Nat.sub_diag by lia; cbn [lookup list_lookup];
    rewrite Hfam;
    rewrite list_insert_id by (rewrite lookup_app_r, Nat.sub_diag by lia; reflexivity);
    rewrite take_app_length;
    rewrite ?(int64_up_down v4 H4), ?(int64_up_down v6 H6); reflexivity.
Qed.

(** X12.  [AddRoute] twice with the same arguments is [AddRoute] once. *)
Theorem AddRoute_idempotent (r : Router) (cidr : string) (network : IPNet)
    (routeType : RouteType) :
  ParseCIDR cidr = Some network ->
  AddRoute (AddRoute r cidr routeType).1 cidr routeType
  = ((AddRoute r cidr routeType).1, None).
Proof.
  intros Hparse.
  assert (Hupsert : ∀ rs v4 v6 i route,
            rs !! i = Some route -> RType route = routeType ->
            list_find (same_prefix network) rs = Some (i, route) ->
            AddRoute (mkRouter rs v4 v6) cidr routeType = (mkRouter rs v4 v6, None)).
  { intros rs v4 v6 i route Hi Hty Hfind. unfold AddRoute. rewrite Hparse.
    cbn [routes]. rewrite Hfind. cbn [ipv4Count ipv6Count].
    rewrite list_insert_id; [reflexivity|].
    rewrite Hi. destruct route; simpl in *; congruence. }
  destruct (list_find (same_prefix network) (routes r)) as [[i route]|] eqn:Hfind;
    [|apply find_prefix_None in Hfind; rename Hfind into Hfresh].
  - assert (Hadd : AddRoute r cidr routeType
                   = (mkRouter (<[i := mkRoute (Network route) routeType]> (routes r))
                        (ipv4Count r) (ipv6Count r), None))
      by (unfold AddRoute; rewrite Hparse, Hfind; reflexivity).
    apply list_find_Some in Hfind as (Hi & Hsame & Hleast).
    rewrite Hadd. cbn [fst].
    eapply (Hupsert _ _ _ i (mkRoute (Network route) routeType)).
    + apply list_lookup_insert_eq. eapply lookup_lt_Some. exact Hi.
    + reflexivity.
    + apply list_find_Some.
      split; [apply list_lookup_insert_eq; eapply lookup_lt_Some; exact Hi|].
      split; [exact Hsame|].
      intros j y Hj Hlt. rewrite list_lookup_insert_ne in Hj by lia.
      exact (Hleast j y Hj Hlt).
  - rewrite (AddRoute_fresh r cidr network routeType Hparse Hfresh).
    destruct (is_IPv4 network); cbn [fst];
      (eapply (Hupsert _ _ _ (length (routes r)) (mkRoute network routeType));
       [rewrite lookup_app_r, Nat.sub_diag by lia; reflexivity
       |reflexivity
       |apply find_fresh; exact Hfresh]).
Qed.


(** *** The two counters against the table *)

Lemma counters_agree_step (v4 v6 v4' v6' n n' : Z) :
  (v4 + v6 - n) mod 2 ^ 64 = 0 ->
  (v4' + v6' - (v4 + v6)) mod 2 ^ 64 = (n' - n) mod 2 ^ 64 ->
  (v4' + v6' - n') mod 2 ^ 64 = 0.
Proof.
  change (2 ^ 64) with 18446744073709551616. intros H1 H2.
  Z.div_mod_to_equations. lia.
Qed.

Lemma int64_step (z d : Z) : (int64 (z + d) - z) mod 2 ^ 64 = d mod 2 ^ 64.
Proof.
  unfold int64.
  change (2 ^ 63) with 9223372036854775808. change (2 ^ 64) with 18446744073709551616.
  Z.div_mod_to_equations. lia.
Qed.

Lemma AddRoute_counters_agree (r : Router) (cidr : string) (routeType : RouteType) :
  counters_agree r -> counters_agree (AddRoute r cidr routeType).1.
Proof.
  unfold counters_agree, AddRoute. intros Hr.
  destruct (ParseCIDR cidr) as [network|]; [|exact Hr].
  destruct (list_find _ _) as [[i route]|].
  - cbn [fst routes ipv4Count ipv6Count]. rewrite length_insert. exact Hr.
  - destruct (is_IPv4 network); cbn [fst routes ipv4Count ipv6Count];
      rewrite length_app; cbn [length];
      (eapply counters_agree_step; [exact Hr|]).
    + replace (int64 (ipv4Count r + 1) + ipv6Count r - (ipv4Count r + ipv6Count r))
        with (int64 (ipv4Count r + 1) - ipv4Count r) by lia.
      rewrite int64_step. f_equal. lia.
    + replace (ipv4Count r + int64 (ipv6Count r + 1) - (ipv4Count r + ipv6Count r))
        with (int64 (ipv6Count r + 1) - ipv6Count r) by lia.
      rewrite int64_step. f_equal. lia.
Qed.

Lemma RemoveRoute_counters_agree (r : Router) (cidr : string) :
  counters_agree r -> counters_agree (RemoveRoute r cidr).1.
Proof.
  unfold counters_agree, RemoveRoute. intros Hr.
  destruct (ParseCIDR cidr) as [network|]; [|exact Hr].
  destruct (list_find _ _) as [[i route]|] eqn:Hfind; [|exact Hr].
  apply list_find_Some in Hfind as (Hi & _ & _).
  assert (Hlt : (i < length (routes r))%nat) by (eapply lookup_lt_Some; exact Hi).
  destruct (lookup_lt_is_Some_2 (routes r) (length (routes r) - 1)) as [final Hfinal];
    [lia|].
  rewrite Hfinal.
  destruct (is_IPv4 network); cbn [fst routes ipv4Count ipv6Count];
    rewrite length_take, length_insert, Nat.min_l by lia;
    (eapply counters_agree_step; [exact Hr|]).
  - replace (ipv4Count r - 1) with (ipv4Count r + -1) by lia.
    replace (int64 (ipv4Count r + -1) + ipv6Count r - (ipv4Count r + ipv6Count r))
      with (int64 (ipv4Count r + -1) - ipv4Count r) by lia.
    rewrite int64_step. f_equal. lia.
  - replace (ipv6Count r - 1) with (ipv6Count r + -1) by lia.
    replace (ipv4Count r + int64 (ipv6Count r + -1) - (ipv4Count r + ipv6Count r))
      with (int64 (ipv6Count r + -1) - ipv6Count r) by lia.
    rewrite int64_step. f_equal. lia.
Qed.

(** X13.  [GetStats] on a router a program can reach: the two family counters
    are Go integers that add up to the length of the table modulo
    [2^64], and add up to it exactly when neither is negative and the
    table has fewer than [2^63] routes. *)
Theorem GetStats_counters (r : Router) :
  reachable r ->
  let '(n, v4, v6) := GetStats r in
  n = Z.of_nat (length (GetRoutes r)) ∧
  in_int64 v4 ∧ in_int64 v6 ∧
  (v4 + v6 - n) mod 2 ^ 64 = 0 ∧
  (0 <= v4 -> 0 <= v6 -> n < 2 ^ 63 -> v4 + v6 = n).
Proof.
  intros Hr. unfold GetStats, GetRoutes.
  assert (Hagree : counters_agree r).
  { revert r Hr. apply (reachable_ind_empty counters_agree).
    - reflexivity.
    - intros. apply AddRoute_counters_agree. assumption.
    - intros. apply RemoveRoute_counters_agree. assumption. }
  destruct (reachable_counts_in_int64 r Hr) as [H4 H6].
  split; [reflexivity|]. split; [exact H4|]. split; [exact H6|].
  split; [exact Hagree|].
  unfold counters_agree, in_int64 in *.
  change (2 ^ 63) with 9223372036854775808 in *.
  change (2 ^ 64) with 18446744073709551616 in *.
  intros. Z.div_mod_to_equations. lia.
Qed.

(** X14.  How [AddRoute] of a prefix that is not in the table changes the
    classification of an address: not at all when the new network does
    not contain the address or a route of the table that contains it has
    a mask at least as long; to the new classification when the new
    network contains the address with a mask longer than that of every
    route of the table that contains it. *)
Theorem GetRoute_after_AddRoute (r : Router) (cidr : string) (network : IPNet)
    (routeType : RouteType) (ip : IP) :
  ParseCIDR cidr = Some network ->
  IPNet_String network ∉ prefixes r ->
  let r' := (AddRoute r cidr routeType).1 in
  (Contains network ip = false -> GetRoute r' ip = GetRoute r ip) ∧
  ((∃ route, route ∈ routes r ∧ Contains (Network route) ip = true ∧
             Mask_Size network <= Mask_Size (Network route)) ->
     GetRoute r' ip = GetRoute r ip) ∧
  (Contains network ip = true ->
   (∀ route, route ∈ routes r -> Contains (Network route) ip = true ->
             Mask_Size (Network route) < Mask_Size network) ->
   GetRoute r' ip = routeType).
Proof.
  intros Hparse Hfresh r'.
  assert (Hscan : GetRoute_scan ip (routes r')
                  = GetRoute_step ip (GetRoute_scan ip (routes r)) (mkRoute network routeType)).
  { subst r'. rewrite (AddRoute_fresh r cidr network routeType Hparse Hfresh).
    destruct (is_IPv4 network); cbn [fst routes]; apply GetRoute_scan_snoc. }
  pose proof (GetRoute_scan_spec Contains Mask_Size ip (routes r)) as Hspec.
  unfold GetRoute. rewrite Hscan. unfold GetRoute_step. cbn [Network].
  destruct (GetRoute_scan ip (routes r)) as [[best|] m]; cbn [fst snd].
  - destruct Hspec as [-> (i & Hi & Hc & Hmax)].
    assert (Hbest : best ∈ routes r) by (eapply list_elem_of_lookup_2; exact Hi).
    split; [intros ->; reflexivity|]. split.
    + intros (route & Hin & Hroute & Hle).
      apply list_elem_of_lookup_1 in Hin as [j Hj].
      destruct (Hmax j route Hj Hroute) as [Hm _].
      destruct (Contains network ip); [|reflexivity].
      destruct (Z.gtb_spec (Mask_Size network) (Mask_Size (Network best)));
        [lia|reflexivity].
    + intros -> Hlonger. pose proof (Hlonger best Hbest Hc).
      destruct (Z.gtb_spec (Mask_Size network) (Mask_Size (Network best)));
        [reflexivity|lia].
  - split; [intros ->; reflexivity|]. split.
    + intros (route & Hin & Hroute & _).
      apply list_elem_of_lookup_1 in Hin as [j Hj].
      rewrite (Hspec j route Hj) in Hroute. discriminate.
    + intros -> _. reflexivity.
Qed.

(** X15.  [RemoveRoute] of a route that does not contain an address leaves the
    classification of the address as it was, on a router a program can
    reach in which no two routes containing the address have masks of
    the same length. *)
Theorem GetRoute_after_RemoveRoute (r : Router) (cidr : string) (network : IPNet) (ip : IP) :
  reachable r ->
  ParseCIDR cidr = Some network ->
  (∀ route, route ∈ routes r ->
            IPNet_String (Network route) = IPNet_String network ->
            Contains (Network route) ip = false) ->
  (∀ a b, a ∈ routes r -> b ∈ routes r ->
          Contains (Network a) ip = true -> Contains (Network b) ip = true ->
          Mask_Size (Network a) = Mask_Size (Network b) -> a = b) ->
  GetRoute (RemoveRoute r cidr).1 ip = GetRoute r ip.
Proof.
  intros Hr Hparse Hout Hties.
  destruct (decide (IPNet_String network ∈ prefixes r)) as [Hin|Hfresh].
  - destruct (RemoveRoute_table r cidr network Hr Hparse Hin)
      as (_ & _ & _ & Hkeep & Hold).
    destruct (GetRoute_longest_prefix Contains Mask_Size r ip) as [Hnone Hsome].
    destruct (GetRoute_longest_prefix Contains Mask_Size (RemoveRoute r cidr).1 ip)
      as [Hnone' Hsome'].
    destruct (GetRoute_scan ip (routes r)) as [[best|] m] eqn:Hscan.
    + pose proof (GetRoute_scan_spec Contains Mask_Size ip (routes r)) as Hspec.
      rewrite Hscan in Hspec. destruct Hspec as [_ (i & Hi & Hc & Hmax)].
      assert (Hbest : best ∈ routes r) by (eapply list_elem_of_lookup_2; exact Hi).
      assert (Hbest' : best ∈ routes (RemoveRoute r cidr).1).
      { apply Hkeep; [exact Hbest|]. intros Heq.
        rewrite (Hout best Hbest Heq) in Hc. discriminate. }
      destruct Hsome' as (i' & best' & (Hi' & Hc' & Hmax') & ->); [eauto|].
      destruct Hsome as (i0 & best0 & (Hi0 & Hc0 & Hmax0) & ->); [eauto|].
      f_equal.
      assert (Hb' : best' ∈ routes r)
        by (apply Hold; eapply list_elem_of_lookup_2; exact Hi').
      assert (Hb0 : best0 ∈ routes r) by (eapply list_elem_of_lookup_2; exact Hi0).
      apply Hties; try assumption.
      apply list_elem_of_lookup_1 in Hb' as [j Hj].
      destruct (Hmax0 j best' Hj Hc') as [Hle _].
      assert (Hb0' : best0 ∈ routes (RemoveRoute r cidr).1).
      { apply Hkeep; [exact Hb0|]. intros Heq.
        rewrite (Hout best0 Hb0 Heq) in Hc0. discriminate. }
      apply list_elem_of_lookup_1 in Hb0' as [j' Hj'].
      destruct (Hmax' j' best0 Hj' Hc0) as [Hle' _]. lia.
    + pose proof (GetRoute_scan_spec Contains Mask_Size ip (routes r)) as Hspec.
      rewrite Hscan in Hspec.
      rewrite Hnone, Hnone'; [reflexivity| |].
      * intros route Hroute. apply Hold in Hroute.
        apply list_elem_of_lookup_1 in Hroute as [j Hj]. exact (Hspec j route Hj).
      * intros route Hroute.
        apply list_elem_of_lookup_1 in Hroute as [j Hj]. exact (Hspec j route Hj).
  - rewrite (RemoveRoute_absent r cidr network Hparse Hfresh). reflexivity.
Qed.


(** *** The counters count the routes of each family *)

Abbreviation family_count := (family_count is_IPv4).

Lemma int64_int64_add (z d : Z) : int64 (int64 z + d) = int64 (z + d).
Proof.
  unfold int64.
  change (2 ^ 63) with 9223372036854775808. change (2 ^ 64) with 18446744073709551616.
  Z.div_mod_to_equations. lia.
Qed.

Lemma swap_remove_Permutation {A} (l : list A) (i : nat) (x final : A) :
  l !! i = Some x -> l !! (length l - 1)%nat = Some final ->
  l ≡ₚ x :: take (length l - 1) (<[i := final]> l).
Proof.
  intros Hi Hfinal.
  assert (Hlt : (i < length l)%nat) by (eapply lookup_lt_Some; exact Hi).
  destruct (decide (i = length l - 1)%nat) as [->|Hne].
  - assert (x = final) by congruence. subst x.
    rewrite list_insert_id by exact Hfinal.
    rewrite <- (take_drop_middle l (length l - 1) final Hfinal) at 1.
    rewrite (drop_ge l (S (length l - 1))) by lia.
    symmetry. apply Permutation_cons_append.
  - rewrite take_insert_lt by lia.
    assert (Hi' : take (length l - 1) l !! i = Some x)
      by (rewrite lookup_take_lt by lia; exact Hi).
    rewrite <- (take_drop_middle l (length l - 1) final Hfinal) at 1.
    rewrite (drop_ge l (S (length l - 1))) by lia.
    rewrite <- (take_drop_middle _ i x Hi') at 1.
    rewrite insert_take_drop by (rewrite length_take; lia).
    rewrite <- !app_assoc. cbn [app].
    rewrite <- Permutation_middle. constructor.
    apply Permutation_app_head. rewrite <- Permutation_cons_append. reflexivity.
Qed.

Lemma family_count_snoc (v4 : bool) (rs : list Route) (route : Route) :
  family_count v4 (rs ++ [route])
  = family_count v4 rs + (if bool_decide (is_IPv4 (Network route) = v4) then 1 else 0).
Proof.
  unfold family_count. rewrite filter_app, length_app.
  rewrite filter_cons, filter_nil.
  destruct (decide (is_IPv4 (Network route) = v4)) as [H|H].
  - rewrite bool_decide_eq_true_2 by exact H. cbn [length]. lia.
  - rewrite bool_decide_eq_false_2 by exact H. cbn [length]. lia.
Qed.

Lemma family_count_cons (v4 : bool) (rs : list Route) (route : Route) :
  family_count v4 (route :: rs)
  = family_count v4 rs + (if bool_decide (is_IPv4 (Network route) = v4) then 1 else 0).
Proof.
  unfold family_count. rewrite filter_cons.
  destruct (decide (is_IPv4 (Network route) = v4)) as [H|H].
  - rewrite bool_decide_eq_true_2 by exact H. cbn [length]. lia.
  - rewrite bool_decide_eq_false_2 by exact H. lia.
Qed.

Lemma family_count_insert (v4 : bool) (rs : list Route) (i : nat) (route : Route)
    (routeType : RouteType) :
  rs !! i = Some route ->
  family_count v4 (<[i := mkRoute (Network route) routeType]> rs) = family_count v4 rs.
Proof.
  intros Hi.
  assert (Hlt : (i < length rs)%nat) by (eapply lookup_lt_Some; exact Hi).
  rewrite insert_take_drop by exact Hlt.
  rewrite <- (take_drop_middle rs i route Hi) at 3.
  unfold family_count. rewrite !filter_app, !length_app, !filter_cons. cbn [Network].
  destruct (decide (is_IPv4 (Network route) = v4)); reflexivity.
Qed.

Lemma family_count_swap_remove (v4 : bool) (rs : list Route) (i : nat) (route final : Route) :
  rs !! i = Some route -> rs !! (length rs - 1)%nat = Some final ->
  family_count v4 (take (length rs - 1) (<[i := final]> rs))
  = family_count v4 rs - (if bool_decide (is_IPv4 (Network route) = v4) then 1 else 0).
Proof.
  intros Hi Hfinal.
  pose proof (family_count_cons v4 (take (length rs - 1) (<[i := final]> rs)) route) as H.
  unfold family_count in *.
  rewrite (swap_remove_Permutation rs i route final Hi Hfinal) at 3. lia.
Qed.

Lemma family_count_total (rs : list Route) :
  family_count true rs + family_count false rs = Z.of_nat (length rs).
Proof.
  induction rs as [|route rs IH]; [reflexivity|].
  rewrite !family_count_cons. cbn [length].
  destruct (is_IPv4 (Network route)); simpl; lia.
Qed.

Abbreviation counted := (counted ParseCIDR is_IPv4).
Abbreviation text_tells_family := (text_tells_family ParseCIDR IPNet_String is_IPv4).

Lemma AddRoute_counted (r : Router) (cidr : string) (routeType : RouteType) :
  counted r -> counted (AddRoute r cidr routeType).1.
Proof.
  intros (Hparsed & H4 & H6). unfold AddRoute.
  destruct (ParseCIDR cidr) as [network|] eqn:Hparse; [|repeat split; assumption].
  destruct (list_find _ _) as [[i old]|] eqn:Hfind.
  - apply list_find_Some in Hfind as (Hi & _ & _).
    unfold counted. cbn [fst routes ipv4Count ipv6Count].
    rewrite !(family_count_insert _ _ _ _ _ Hi).
    split; [|split; assumption].
    intros route Hin. apply list_elem_of_lookup_1 in Hin as [j Hj].
    apply list_lookup_insert_Some in Hj as [(_ & <- & _)|[_ Hj]].
    + cbn [Network]. apply Hparsed. eapply list_elem_of_lookup_2. exact Hi.
    + apply Hparsed. eapply list_elem_of_lookup_2. exact Hj.
  - assert (Hin : ∀ route, route ∈ routes r ++ [mkRoute network routeType] ->
                    ∃ cidr, ParseCIDR cidr = Some (Network route)).
    { intros route Hin. apply elem_of_app in Hin as [Hin|Hin]; [apply Hparsed; exact Hin|].
      apply list_elem_of_singleton in Hin as ->. eauto. }
    unfold counted.
    destruct (is_IPv4 network) eqn:Hv4; cbn [fst routes ipv4Count ipv6Count];
      (split; [exact Hin|]); rewrite !family_count_snoc; cbn [Network]; rewrite Hv4;
      cbn [bool_decide]; rewrite ?bool_decide_eq_true_2, ?bool_decide_eq_false_2 by congruence.
    + rewrite H4, int64_int64_add, Z.add_0_r. split; [reflexivity|exact H6].
    + rewrite H6, int64_int64_add, Z.add_0_r. split; [exact H4|reflexivity].
Qed.

Lemma RemoveRoute_counted (r : Router) (cidr : string) :
  text_tells_family -> counted r -> counted (RemoveRoute r cidr).1.
Proof.
  intros Hfam (Hparsed & H4 & H6). unfold RemoveRoute.
  destruct (ParseCIDR cidr) as [network|] eqn:Hparse; [|repeat split; assumption].
  destruct (list_find _ _) as [[i old]|] eqn:Hfind; [|repeat split; assumption].
  apply list_find_Some in Hfind as (Hi & Hsame & _).
  assert (Hlt : (i < length (routes r))%nat) by (eapply lookup_lt_Some; exact Hi).
  destruct (lookup_lt_is_Some_2 (routes r) (length (routes r) - 1)) as [final Hfinal];
    [lia|].
  rewrite Hfinal.
  assert (Hold : is_IPv4 (Network old) = is_IPv4 network).
  { destruct (Hparsed old) as [c Hc]; [eapply list_elem_of_lookup_2; exact Hi|].
    apply (Hfam c cidr); [exact Hc|exact Hparse|]. unfold same_prefix in Hsame. congruence. }
  assert (Hin : ∀ route, route ∈ take (length (routes r) - 1) (<[i := final]> (routes r)) ->
                    ∃ cidr, ParseCIDR cidr = Some (Network route)).
  { intros route Hin. apply list_elem_of_lookup_1 in Hin as [j Hj].
    apply lookup_take_Some in Hj as [Hj _].
    apply list_lookup_insert_Some in Hj as [(_ & <- & _)|[_ Hj]];
      apply Hparsed; eapply list_elem_of_lookup_2; eassumption. }
  unfold counted.
  destruct (is_IPv4 network) eqn:Hv4; cbn [fst routes ipv4Count ipv6Count];
    (split; [exact Hin|]);
    rewrite !(family_count_swap_remove _ _ _ _ _ Hi Hfinal), Hold;
    rewrite ?bool_decide_eq_true_2, ?bool_decide_eq_false_2 by congruence.
  - rewrite H4, Z.sub_0_r.
    replace (int64 (family_count true (routes r)) - 1)
      with (int64 (family_count true (routes r)) + -1) by lia.
    rewrite int64_int64_add. split; [f_equal; lia|exact H6].
  - rewrite H6, Z.sub_0_r.
    replace (int64 (family_count false (routes r)) - 1)
      with (int64 (family_count false (routes r)) + -1) by lia.
    rewrite int64_int64_add. split; [exact H4|f_equal; lia].
Qed.

(** X16.  [GetStats] counts the routes by family.  Where the prefix text of a
    network [ParseCIDR] returns tells its family (as the text of Go's
    [IPNet.String] does), on a router a program can reach the two
    counters are the numbers of IPv4 and of other routes in the table,
    as Go integers; for a table of fewer than [2^63] routes they are
    these numbers, and add up to the first result, the length of the
    table. *)
Theorem GetStats_counts_families (r : Router) :
  text_tells_family ->
  reachable r ->
  GetStats r = (Z.of_nat (length (GetRoutes r)),
                int64 (family_count true (GetRoutes r)),
                int64 (family_count false (GetRoutes r))) ∧
  (Z.of_nat (length (GetRoutes r)) < 2 ^ 63 ->
   GetStats r = (family_count true (GetRoutes r) + family_count false (GetRoutes r),
                 family_count true (GetRoutes r), family_count false (GetRoutes r))).
Proof.
  intros Hfam Hr. unfold GetStats, GetRoutes.
  assert (Hcount : counted r).
  { revert r Hr. apply (reachable_ind_empty counted).
    - split; [|split; reflexivity]. intros route Hin. inversion Hin.
    - intros. apply AddRoute_counted. assumption.
    - intros. apply RemoveRoute_counted; assumption. }
  destruct Hcount as (_ & -> & ->). split; [reflexivity|].
  intros Hlen. pose proof (family_count_total (routes r)) as Htotal.
  assert (H4 : 0 <= family_count true (routes r)) by (unfold family_count; lia).
  assert (H6 : 0 <= family_count false (routes r)) by (unfold family_count; lia).
  rewrite !int64_id by (unfold in_int64; lia).
  rewrite Htotal. reflexivity.
Qed.

End MoreRouterProps.

(** *** The routing properties on the table of the example *)

Lemma two_routes_reachable : reachable GoNet.ParseCIDR GoNet.IPNet_String GoNet.is_IPv4 two_routes.
Proof.
  unfold two_routes. apply reach_AddRoute, reach_AddRoute, reach_ClearRoutes, reach_NewRouter.
Qed.

Lemma GoNet_CIDRMask_length (l : nat) (n : Z) : length (GoNet.CIDRMask l n) = l.
Proof.
  revert n. induction l as [|l IH]; intros n; [reflexivity|].
  cbn [GoNet.CIDRMask]. destruct (n >=? 8); cbn [length]; rewrite IH; reflexivity.
Qed.

(** The model of [ParseCIDR] reads IPv4 prefixes only. *)
Lemma GoNet_ParseCIDR_IPv4 (cidr : string) (network : IPNet) :
  GoNet.ParseCIDR cidr = Some network -> GoNet.is_IPv4 network = true.
Proof.
  unfold GoNet.ParseCIDR. intros H.
  apply bind_Some in H as ([addr mask] & _ & H).
  apply bind_Some in H as (ip & Hip & H).
  apply bind_Some in H as (n & _ & H).
  destruct (n >? 32); [discriminate|].
  pose proof (GoNet_CIDRMask_length 4 n) as Hm. cbv zeta in H.
  remember (GoNet.CIDRMask 4 n) as m eqn:E in *. clear E. injection H as <-.
  assert (Hlen : length ip = 4%nat).
  { unfold GoNet.parseIPv4 in Hip.
    apply bind_Some in Hip as ([a s1] & _ & Hip).
    apply bind_Some in Hip as ([b s2] & _ & Hip).
    apply bind_Some in Hip as ([c d] & _ & Hip).
    apply bind_Some in Hip as (a' & _ & Hip).
    apply bind_Some in Hip as (b' & _ & Hip).
    apply bind_Some in Hip as (c' & _ & Hip).
    apply bind_Some in Hip as (d' & _ & Hip).
    injection Hip as <-. reflexivity. }
  unfold GoNet.is_IPv4, GoNet.To4. cbn [IPNet_IP].
  rewrite bool_decide_eq_true_2; [reflexivity|].
  unfold GoNet.Mask. rewrite length_zip_with, Hm, Hlen. reflexivity.
Qed.

Lemma GoNet_text_tells_family :
  text_tells_family GoNet.ParseCIDR GoNet.IPNet_String GoNet.is_IPv4.
Proof.
  intros c1 c2 n1 n2 H1 H2 _.
  rewrite (GoNet_ParseCIDR_IPv4 c1 n1 H1), (GoNet_ParseCIDR_IPv4 c2 n2 H2). reflexivity.
Qed.


Lemma net_192_168_parsed : GoNet.ParseCIDR "192.168.0.0/16" = Some net_192_168.
Proof. vm_compute. reflexivity. Qed.

Lemma net_10_parsed :
  GoNet.ParseCIDR "10.0.0.0/8" = Some (mkIPNet (hex [10; 0; 0; 0]) (hex [255; 0; 0; 0])).
Proof. vm_compute. reflexivity. Qed.

Lemma net_192_168_fresh :
  GoNet.IPNet_String net_192_168 ∉ prefixes GoNet.IPNet_String two_routes.
Proof. vm_compute. intros H. repeat (inversion H as [|? ? ? H']; clear H; rename H' into H). Qed.

Lemma AddRoute_then_lookup_witness :
  let r' := (GoNet.AddRoute two_routes "10.0.0.0/8" RouteTypeDrop).1 in
  (∃ i route,
     routes r' !! i = Some route ∧
     GoNet.IPNet_String (Network route)
     = GoNet.IPNet_String (mkIPNet (hex [10; 0; 0; 0]) (hex [255; 0; 0; 0])) ∧
     RType route = RouteTypeDrop ∧
     ∀ j other, routes r' !! j = Some other ->
                GoNet.IPNet_String (Network other)
                = GoNet.IPNet_String (mkIPNet (hex [10; 0; 0; 0]) (hex [255; 0; 0; 0])) ->
                j = i) ∧
  (∀ other, other ∈ routes two_routes ->
            GoNet.IPNet_String (Network other)
            ≠ GoNet.IPNet_String (mkIPNet (hex [10; 0; 0; 0]) (hex [255; 0; 0; 0])) ->
            other ∈ routes r').
Proof.
  apply (AddRoute_then_lookup GoNet.ParseCIDR GoNet.IPNet_String GoNet.is_IPv4 two_routes
           "10.0.0.0/8" _ RouteTypeDrop two_routes_reachable net_10_parsed).
Defined.

Lemma RemoveRoute_then_lookup_witness :
  let r' := (GoNet.RemoveRoute two_routes "10.0.0.0/8").1 in
  (GoNet.RemoveRoute two_routes "10.0.0.0/8").2 = None ∧
  S (length (routes r')) = length (routes two_routes) ∧
  (GoNet.IPNet_String (mkIPNet (hex [10; 0; 0; 0]) (hex [255; 0; 0; 0]))
   ∉ prefixes GoNet.IPNet_String r') ∧
  (∀ other, other ∈ routes two_routes ->
            GoNet.IPNet_String (Network other)
            ≠ GoNet.IPNet_String (mkIPNet (hex [10; 0; 0; 0]) (hex [255; 0; 0; 0])) ->
            other ∈ routes r') ∧
  (∀ other, other ∈ routes r' -> other ∈ routes two_routes).
Proof.
  apply (RemoveRoute_then_lookup GoNet.ParseCIDR GoNet.IPNet_String GoNet.is_IPv4 two_routes
           "10.0.0.0/8" _ two_routes_reachable net_10_parsed).
  vm_compute. apply list_elem_of_here.
Defined.

Lemma AddRoute_RemoveRoute_round_trip_witness :
  GoNet.RemoveRoute (GoNet.AddRoute two_routes "192.168.0.0/16" RouteTypeTUN).1 "192.168.0.0/16"
  = (two_routes, None).
Proof.
  apply (AddRoute_RemoveRoute_round_trip GoNet.ParseCIDR GoNet.IPNet_String GoNet.is_IPv4
           two_routes "192.168.0.0/16" net_192_168 RouteTypeTUN
           two_routes_reachable net_192_168_parsed net_192_168_fresh).
Defined.

Lemma AddRoute_idempotent_witness :
  GoNet.AddRoute (GoNet.AddRoute two_routes "192.168.0.0/16" RouteTypeDrop).1
    "192.168.0.0/16" RouteTypeDrop
  = ((GoNet.AddRoute two_routes "192.168.0.0/16" RouteTypeDrop).1, None).
Proof.
  apply (AddRoute_idempotent GoNet.ParseCIDR GoNet.IPNet_String GoNet.is_IPv4
           two_routes "192.168.0.0/16" net_192_168 RouteTypeDrop net_192_168_parsed).
Defined.

Lemma GetStats_counters_witness :
  let '(n, v4, v6) := GetStats two_routes in
  n = Z.of_nat (length (GetRoutes two_routes)) ∧
  in_int64 v4 ∧ in_int64 v6 ∧
  (v4 + v6 - n) mod 2 ^ 64 = 0 ∧
  (0 <= v4 -> 0 <= v6 -> n < 2 ^ 63 -> v4 + v6 = n).
Proof.
  apply (GetStats_counters GoNet.ParseCIDR GoNet.IPNet_String GoNet.is_IPv4 two_routes
           two_routes_reachable).
Defined.

Lemma GetStats_counts_families_witness :
  GetStats two_routes
  = (Z.of_nat (length (GetRoutes two_routes)),
     int64 (family_count GoNet.is_IPv4 true (GetRoutes two_routes)),
     int64 (family_count GoNet.is_IPv4 false (GetRoutes two_routes))) ∧
  (Z.of_nat (length (GetRoutes two_routes)) < 2 ^ 63 ->
   GetStats two_routes
   = (family_count GoNet.is_IPv4 true (GetRoutes two_routes)
      + family_count GoNet.is_IPv4 false (GetRoutes two_routes),
      family_count GoNet.is_IPv4 true (GetRoutes two_routes),
      family_count GoNet.is_IPv4 false (GetRoutes two_routes))).
Proof.
  apply (GetStats_counts_families GoNet.ParseCIDR GoNet.IPNet_String GoNet.is_IPv4 two_routes
           GoNet_text_tells_family two_routes_reachable).
Defined.

Lemma GetRoute_after_AddRoute_witness :
  let r' := (GoNet.AddRoute two_routes "192.168.0.0/16" RouteTypeDrop).1 in
  (GoNet.Contains net_192_168 (hex [192; 168; 1; 7]) = false ->
   GoNet.GetRoute r' (hex [192; 168; 1; 7]) = GoNet.GetRoute two_routes (hex [192; 168; 1; 7])) ∧
  ((∃ route, route ∈ routes two_routes ∧
             GoNet.Contains (Network route) (hex [192; 168; 1; 7]) = true ∧
             GoNet.Mask_Size net_192_168 <= GoNet.Mask_Size (Network route)) ->
     GoNet.GetRoute r' (hex [192; 168; 1; 7]) = GoNet.GetRoute two_routes (hex [192; 168; 1; 7])) ∧
  (GoNet.Contains net_192_168 (hex [192; 168; 1; 7]) = true ->
   (∀ route, route ∈ routes two_routes ->
             GoNet.Contains (Network route) (hex [192; 168; 1; 7]) = true ->
             GoNet.Mask_Size (Network route) < GoNet.Mask_Size net_192_168) ->
   GoNet.GetRoute r' (hex [192; 168; 1; 7]) = RouteTypeDrop).
Proof.
  apply (GetRoute_after_AddRoute GoNet.ParseCIDR GoNet.IPNet_String GoNet.Contains
           GoNet.Mask_Size GoNet.is_IPv4 two_routes "192.168.0.0/16" net_192_168
           RouteTypeDrop (hex [192; 168; 1; 7]) net_192_168_parsed net_192_168_fresh).
Defined.

Lemma GetRoute_after_RemoveRoute_witness :
  GoNet.GetRoute (GoNet.RemoveRoute two_routes "10.0.0.0/8").1 (hex [192; 168; 1; 7])
  = GoNet.GetRoute two_routes (hex [192; 168; 1; 7]).
Proof.
  apply (GetRoute_after_RemoveRoute GoNet.ParseCIDR GoNet.IPNet_String GoNet.Contains
           GoNet.Mask_Size GoNet.is_IPv4 two_routes "10.0.0.0/8" _ (hex [192; 168; 1; 7])
           two_routes_reachable net_10_parsed).
  - intros route Hin. vm_compute in Hin.
    apply elem_of_cons in Hin as [->|Hin]; [|apply elem_of_cons in Hin as [->|Hin]];
      [| |inversion Hin];
      vm_compute; intros H; first [reflexivity | discriminate H].
  - intros a b Ha Hb. vm_compute in Ha, Hb.
    apply elem_of_cons in Ha as [->|Ha]; [|apply elem_of_cons in Ha as [->|Ha]];
      [| |inversion Ha];
      (apply elem_of_cons in Hb as [->|Hb]; [|apply elem_of_cons in Hb as [->|Hb]];
       [| |inversion Hb]);
      vm_compute; intros H1 H2 H3;
      first [reflexivity | discriminate H1 | discriminate H2 | discriminate H3].
Defined.

(** ** The secure transport: what reaches the wrapped connection *)

Section ForwardedCalls.

Variable conn_io : list cipher.ConnCall -> cipher.ConnCall -> Z * option cipher.IOError.

Abbreviation calls := (cipher.calls conn_io).

Ltac lookup_S :=
  repeat match goal with
         | |- context [(?x :: ?l) !! S ?i] => change ((x :: l) !! S i) with (l !! i)
         | H : context [(?x :: ?l) !! S ?i] |- _ =>
             change ((x :: l) !! S i) with (l !! i) in H
         end.

Lemma call_open (t : cipher.TLSConn) (c : cipher.Call) :
  cipher.closed t = false ->
  cipher.call conn_io t c
  = (cipher.mkTLSConn (to_conn c :: cipher.conn t)
       (match c with cipher.CallClose => true | _ => false end),
     returned c (conn_io (cipher.conn t) (to_conn c))).
Proof.
  intros Ho. destruct t as [past cl]. cbn [cipher.closed] in Ho. subst cl.
  destruct c; unfold cipher.call, cipher.Read, cipher.Write, cipher.Close, cipher.on_conn;
    cbn [cipher.closed cipher.conn to_conn returned];
    destruct (conn_io past _) as [n err]; reflexivity.
Qed.

(** X17.  Calls on an open wrapper, one after the other.  The wrapped
    connection receives the calls up to and including the first [Close],
    in their order, and no call after it; the wrapper is closed at the end
    exactly when there was a [Close]; each call up to the first [Close]
    returns what the wrapped connection answered, and each later call
    returns the result of a closed wrapper. *)
Theorem calls_forwarded (t : cipher.TLSConn) (cs : list cipher.Call) :
  cipher.closed t = false ->
  let t' := (calls t cs).1 in
  cipher.conn t' = rev (to_conn <$> until_Close cs) ++ cipher.conn t ∧
  cipher.closed t' = has_Close cs ∧
  length (calls t cs).2 = length cs ∧
  (∀ i c, until_Close cs !! i = Some c ->
     (calls t cs).2 !! i
     = Some (returned c (conn_io (rev (to_conn <$> take i cs) ++ cipher.conn t) (to_conn c)))) ∧
  (∀ i c, (length (until_Close cs) ≤ i)%nat -> cs !! i = Some c ->
     (calls t cs).2 !! i = Some (cipher.closed_result c)).
Proof.
  cbv zeta. revert t. induction cs as [|c cs IH]; intros t Ho.
  - cbn. split; [reflexivity|]. split; [exact Ho|]. split; [reflexivity|].
    split; intros i c; intros; destruct i; discriminate.
  - cbn [cipher.calls]. rewrite (call_open t c Ho).
    set (t1 := cipher.mkTLSConn _ _).
    destruct (calls t1 cs) as [t2 rs] eqn:Hcalls. cbn [fst snd].
    assert (Hcase : (c = cipher.CallClose ∧ cipher.closed t1 = true) ∨
                    (c ≠ cipher.CallClose ∧ cipher.closed t1 = false ∧
                     until_Close (c :: cs) = c :: until_Close cs ∧
                     has_Close (c :: cs) = has_Close cs))
      by (destruct c; [right|right|left]; repeat split; congruence).
    destruct Hcase as [[-> Hc]|(Hne & Hopen & Huntil & Hhas)].
    + rewrite (calls_closed conn_io t1 cs Hc) in Hcalls. injection Hcalls as <- <-.
      cbn [until_Close has_Close existsb orb fmap list_fmap rev app length].
      split; [reflexivity|]. split; [reflexivity|].
      split; [rewrite length_fmap; reflexivity|]. split.
      * intros [|i] c Hi; [|destruct i; discriminate]. injection Hi as <-. reflexivity.
      * intros [|i] c Hi Hc'; [lia|]. lookup_S.
        rewrite list_lookup_fmap, Hc'. reflexivity.
    + specialize (IH t1 Hopen). rewrite Hcalls in IH. cbn [fst snd] in IH.
      destruct IH as (Hconn & Hclosed & Hlen & Hpre & Hpost).
      rewrite Huntil, Hhas. split; [|split; [exact Hclosed|split; [cbn; lia|split]]].
      * rewrite Hconn. subst t1. cbn [cipher.conn fmap list_fmap rev].
        rewrite <- app_assoc. reflexivity.
      * intros [|i] c' Hi.
        -- injection Hi as <-. reflexivity.
        -- lookup_S. rewrite (Hpre i c' Hi).
           subst t1. cbn [cipher.conn take fmap list_fmap rev].
           rewrite <- app_assoc. reflexivity.
      * intros [|i] c' Hi Hc'; [cbn in Hi; lia|].
        lookup_S. cbn [length] in Hi. apply Hpost; [lia|exact Hc'].
Qed.

End ForwardedCalls.

Lemma calls_forwarded_witness :
  let t := cipher.mkTLSConn [] false in
  let cs := [cipher.CallWrite (hex [1; 2]); cipher.CallClose; cipher.CallRead 4; cipher.CallClose] in
  let t' := (cipher.calls cipher.conn_ok t cs).1 in
  cipher.conn t' = rev (to_conn <$> until_Close cs) ++ cipher.conn t ∧
  cipher.closed t' = has_Close cs ∧
  length (cipher.calls cipher.conn_ok t cs).2 = length cs ∧
  (∀ i c, until_Close cs !! i = Some c ->
     (cipher.calls cipher.conn_ok t cs).2 !! i
     = Some (returned c (cipher.conn_ok (rev (to_conn <$> take i cs) ++ cipher.conn t)
                           (to_conn c)))) ∧
  (∀ i c, (length (until_Close cs) ≤ i)%nat -> cs !! i = Some c ->
     (cipher.calls cipher.conn_ok t cs).2 !! i = Some (cipher.closed_result c)).
Proof.
  apply (calls_forwarded cipher.conn_ok (cipher.mkTLSConn [] false)). reflexivity.
Defined.

(** ** The reconnection loop: every retry limit, and how the loop ends *)

Lemma unreachable_cons (r : Round) (env : list Round) :
  unreachable (r :: env) -> (∃ f, r = ConnectFailed f DelayElapsed) ∧ unreachable env.
Proof. intros H. inversion H; subst. split; assumption. Qed.

Lemma after_failure_fields (f : ConnectFailure) (c : Client) :
  config (after_failure f c) = config c ∧
  isRunning (after_failure f c) = isRunning c ∧
  stopped (after_failure f c) = stopped c ∧
  reconnect (after_failure f c) = reconnect c ∧
  retries (after_failure f c) = retries c ∧
  (conn c = false -> conn (after_failure f c) = false).
Proof. destruct f; repeat split; auto. Qed.

Lemma gives_up_after_failure (f : ConnectFailure) (c : Client) :
  gives_up (after_failure f c) = gives_up c.
Proof. destruct f; reflexivity. Qed.

(** The loop under a retry limit, from any retry count below it. *)
Lemma runMainLoop_limit (env : list Round) (c : Client) (n left : nat) :
  isRunning c = true -> reconnect c = true ->
  0 < MaxRetries (config c) < 2 ^ 63 ->
  0 <= retries c ->
  retries c + Z.of_nat left = MaxRetries (config c) ->
  unreachable env -> (left < length env)%nat ->
  ∃ c', runMainLoop env c n = Some (c', (n + left + 1)%nat) ∧
        engine_stopped c' ∧ retries c' = MaxRetries (config c) ∧
        config c' = config c.
Proof.
  revert env c n. induction left as [|left IH]; intros env c n Hrun Hrec Hmax Hret Hsum Hun Hlen.
  - destruct env as [|r env]; [simpl in Hlen; lia|].
    apply unreachable_cons in Hun as [[f ->] _].
    cbn [runMainLoop]. rewrite Hrun. cbn [negb].
    assert (Hup : gives_up (after_failure f c) = true).
    { rewrite gives_up_after_failure. apply gives_up_iff. right. lia. }
    rewrite Hup. eexists. split; [f_equal; f_equal; lia|].
    destruct f; repeat split; cbn; lia.
  - destruct env as [|r env]; [simpl in Hlen; lia|].
    apply unreachable_cons in Hun as [[f ->] Hun].
    cbn [runMainLoop]. rewrite Hrun. cbn [negb].
    destruct (after_failure_fields f c) as (Hcfg & Hrun' & _ & Hrec' & Hret' & _).
    assert (Hgo : gives_up (after_failure f c) = false).
    { rewrite gives_up_after_failure. apply not_true_iff_false. rewrite gives_up_iff.
      rewrite Hrec. intros [?|?]; [discriminate|lia]. }
    rewrite Hgo.
    set (c1 := set_retries (after_failure f c) (int64 (retries (after_failure f c) + 1))).
    assert (Hr1 : retries c1 = retries c + 1).
    { subst c1. cbn [retries set_retries]. rewrite Hret'. apply int64_id.
      unfold in_int64. change (2 ^ 63) with 9223372036854775808 in *. lia. }
    assert (Hc1 : config c1 = config c) by exact Hcfg.
    assert (Hlen' : (left < length env)%nat) by (simpl in Hlen; lia).
    destruct (IH env c1 (S n)) as (c' & Hloop & Hstop & Hfinal & Hcfg').
    { subst c1. cbn [isRunning set_retries]. congruence. }
    { subst c1. cbn [reconnect set_retries]. congruence. }
    { rewrite Hc1. exact Hmax. }
    { lia. }
    { rewrite Hc1, Hr1. lia. }
    { exact Hun. }
    { exact Hlen'. }
    exists c'. split; [rewrite Hloop; f_equal; f_equal; lia|].
    split; [exact Hstop|]. rewrite Hfinal, Hcfg', Hc1. split; reflexivity.
Qed.

(** X18.  Every retry limit.  With reconnection on, [MaxRetries = m > 0] and
    the server unreachable, a fresh client makes [m + 1] calls of
    [connectToServer], the first attempt and exactly [m] retries, and the
    loop returns with the engine stopped and a retry counter of [m], in
    any surroundings of more than [m] rounds. *)
Theorem runMainLoop_MaxRetries (cfg : ClientConfig) (env : list Round) (m : nat) :
  MaxRetries cfg = Z.of_nat m -> (0 < m)%nat -> Z.of_nat m < 2 ^ 63 ->
  Reconnect cfg = true ->
  unreachable env -> (m < length env)%nat ->
  ∃ c', runMainLoop env (Connect_flag (NewClient cfg)) 0 = Some (c', S m) ∧
        engine_stopped c' ∧ retries c' = Z.of_nat m ∧ IsConnected c' = false.
Proof.
  intros Hmax Hpos Hsmall Hrec Hun Hlen.
  destruct (runMainLoop_limit env (Connect_flag (NewClient cfg)) 0 m)
    as (c' & Hloop & Hstop & Hret & _); cbn; try assumption; try lia.
  exists c'. split; [rewrite Hloop; f_equal; f_equal; lia|].
  split; [exact Hstop|]. split; [rewrite Hret; exact Hmax|].
  unfold IsConnected. rewrite Hstop. reflexivity.
Qed.

Lemma runMainLoop_MaxRetries_witness :
  ∃ c', runMainLoop (dial_fails 6) (Connect_flag (NewClient (mkClientConfig true 5 5))) 0
        = Some (c', 6%nat) ∧
        engine_stopped c' ∧ retries c' = Z.of_nat 5 ∧ IsConnected c' = false.
Proof.
  apply (runMainLoop_MaxRetries (mkClientConfig true 5 5) (dial_fails 6) 5);
    try reflexivity; try (cbn; lia).
  apply dial_fails_unreachable.
Defined.

(** X19.  No retry limit.  With reconnection on and [MaxRetries] zero or
    negative, a running client does not give up while the server is
    unreachable: after any number of failed attempts the loop is still
    running. *)
Theorem runMainLoop_unlimited (env : list Round) (c : Client) (n : nat) :
  isRunning c = true -> reconnect c = true -> MaxRetries (config c) <= 0 ->
  unreachable env ->
  runMainLoop env c n = None.
Proof.
  revert c n. induction env as [|r env IH]; intros c n Hrun Hrec Hmax Hun.
  - cbn [runMainLoop]. rewrite Hrun. reflexivity.
  - apply unreachable_cons in Hun as [[f ->] Hun].
    cbn [runMainLoop]. rewrite Hrun. cbn [negb].
    destruct (after_failure_fields f c) as (Hcfg & Hrun' & _ & Hrec' & _ & _).
    assert (Hgo : gives_up (after_failure f c) = false).
    { rewrite gives_up_after_failure. apply not_true_iff_false. rewrite gives_up_iff.
      rewrite Hrec. intros [?|?]; [discriminate|lia]. }
    rewrite Hgo. apply IH; cbn [isRunning reconnect config set_retries]; congruence.
Qed.

Lemma runMainLoop_unlimited_witness :
  runMainLoop (dial_fails 40) (Connect_flag (NewClient (mkClientConfig true 5 0))) 0 = None.
Proof.
  apply runMainLoop_unlimited; try reflexivity; try (cbn; lia).
  apply dial_fails_unreachable.
Defined.

Lemma Stop_fields (c : Client) :
  isRunning (Stop c) = false ∧
  config (Stop c) = config c ∧ reconnect (Stop c) = reconnect c ∧
  retries (Stop c) = retries c ∧
  (conn c = false -> conn (Stop c) = false) ∧
  (isRunning c = true -> conn (Stop c) = false ∧ stopped (Stop c) = true) ∧
  (isRunning c = false -> Stop c = c).
Proof.
  destruct c as [cfg cn run st rec ret]. unfold Stop. cbn [isRunning].
  destruct run; cbn; repeat split; auto; discriminate.
Qed.

Lemma bool_cases (b : bool) : b = true ∨ b = false.
Proof. destruct b; auto. Qed.

Lemma running_cases (c : Client) : isRunning c = true ∨ isRunning c = false.
Proof. apply bool_cases. Qed.

Lemma retry_in_bounds (c : Client) :
  gives_up c = false ->
  0 < MaxRetries (config c) < 2 ^ 63 -> 0 <= retries c <= MaxRetries (config c) ->
  0 <= int64 (retries c + 1) <= MaxRetries (config c).
Proof.
  intros Hgo Hmax Hret. apply not_true_iff_false in Hgo. rewrite gives_up_iff in Hgo.
  change (2 ^ 63) with 9223372036854775808 in *.
  rewrite int64_id by (unfold in_int64; change (2 ^ 63) with 9223372036854775808; lia).
  lia.
Qed.

(** X20.  How the loop ends.  Whenever [runMainLoop] returns, the engine is
    stopped and the client is not connected; the loop has made at most
    one call of [connectToServer] for each round, and at least one if the
    client was running; the configuration and the reconnection switch are
    as they were; a client that held no connection holds none; and under a
    retry limit, a retry counter between 0 and the limit is still between
    them. *)
Theorem runMainLoop_returns (env : list Round) (c : Client) (n : nat) (c' : Client) (k : nat) :
  runMainLoop env c n = Some (c', k) ->
  isRunning c' = false ∧ IsConnected c' = false ∧
  (n ≤ k ≤ n + length env)%nat ∧
  (isRunning c = true -> (n < k)%nat) ∧
  config c' = config c ∧ reconnect c' = reconnect c ∧
  (conn c = false -> conn c' = false) ∧
  (0 < MaxRetries (config c) < 2 ^ 63 -> 0 <= retries c <= MaxRetries (config c) ->
   0 <= retries c' <= MaxRetries (config c)).
Proof.
  assert (Hdone : ∀ (c c' : Client) (n k len : nat),
            isRunning c' = false -> (n ≤ k ≤ n + len)%nat ->
            (isRunning c = true -> (n < k)%nat) ->
            config c' = config c -> reconnect c' = reconnect c ->
            (conn c = false -> conn c' = false) ->
            (0 < MaxRetries (config c) < 2 ^ 63 -> 0 <= retries c <= MaxRetries (config c) ->
             0 <= retries c' <= MaxRetries (config c)) ->
            isRunning c' = false ∧ IsConnected c' = false ∧
            (n ≤ k ≤ n + len)%nat ∧
            (isRunning c = true -> (n < k)%nat) ∧
            config c' = config c ∧ reconnect c' = reconnect c ∧
            (conn c = false -> conn c' = false) ∧
            (0 < MaxRetries (config c) < 2 ^ 63 -> 0 <= retries c <= MaxRetries (config c) ->
             0 <= retries c' <= MaxRetries (config c))).
  { intros c0 c0' n0 k0 len H1 H2 H3 H4 H5 H6 H7. unfold IsConnected. rewrite H1.
    repeat split; try assumption; try lia; apply H7; assumption. }
  revert c n. induction env as [|r env IH]; intros c n Hloop.
  - cbn [runMainLoop] in Hloop.
    destruct (running_cases c) as [Hrun|Hrun]; rewrite Hrun in Hloop; [discriminate|].
    injection Hloop as <- <-. apply Hdone; auto; try lia. congruence.
  - cbn [runMainLoop] in Hloop.
    destruct (running_cases c) as [Hrun|Hrun]; rewrite Hrun in Hloop; cbn [negb] in Hloop.
    2: { injection Hloop as <- <-. apply Hdone; auto; try lia. congruence. }
    destruct r as [f w|s].
    + destruct (after_failure_fields f c) as (Hcfg & Hrun' & Hst & Hrec & Hret & Hconn).
      destruct (gives_up (after_failure f c)) eqn:Hup.
      * injection Hloop as <- <-. apply Hdone; cbn [length]; auto; try lia.
        cbn. rewrite Hret. auto.
      * assert (Hbound : 0 < MaxRetries (config c) < 2 ^ 63 ->
                         0 <= retries c <= MaxRetries (config c) ->
                         0 <= int64 (retries (after_failure f c) + 1) <= MaxRetries (config c)).
        { intros Hmax Hr. rewrite <- Hcfg. apply retry_in_bounds; rewrite ?Hcfg, ?Hret; auto. }
        destruct w.
        -- apply IH in Hloop.
           cbn [isRunning config reconnect conn retries set_retries] in Hloop.
           destruct Hloop as (H1 & _ & H3 & H4 & H5 & H6 & H7 & H8).
           rewrite Hcfg in *. rewrite Hrec in H6.
           apply Hdone; cbn [length]; try assumption; try lia; auto.
        -- injection Hloop as <- <-.
           destruct (Stop_fields (set_retries (after_failure f c)
                                    (int64 (retries (after_failure f c) + 1))))
             as (S1 & S2 & S3 & S4 & S5 & _ & _).
           cbn [isRunning config reconnect conn retries set_retries] in *.
           rewrite Hcfg in *. rewrite Hrec in *.
           apply Hdone; cbn [length]; try assumption; try lia; auto.
    + set (c1 := set_retries (set_conn c true) 0) in Hloop.
      assert (Hc1 : isRunning c1 = true ∧ config c1 = config c ∧
                    reconnect c1 = reconnect c ∧ retries c1 = 0)
        by (subst c1; cbn; auto).
      destruct Hc1 as (R1 & R2 & R3 & R4).
      destruct (Stop_fields c1) as (S1 & S2 & S3 & S4 & _ & S6 & _).
      destruct (S6 R1) as [S7 _].
      destruct s as [stopCalled w|].
      * set (c2 := set_conn (if stopCalled then Stop c1 else c1) false) in Hloop.
        assert (Hc2 : config c2 = config c ∧ reconnect c2 = reconnect c ∧
                      retries c2 = 0 ∧ conn c2 = false ∧
                      isRunning c2 = negb stopCalled).
        { subst c2. destruct stopCalled; cbn [config reconnect retries conn isRunning set_conn];
            rewrite ?S1, ?S2, ?S3, ?S4, ?R1, ?R2, ?R3, ?R4; auto. }
        destruct Hc2 as (C1 & C2 & C3 & C4 & C5).
        rewrite C5 in Hloop.
        destruct stopCalled; cbn [negb] in Hloop.
        -- injection Hloop as <- <-.
           apply Hdone; cbn [length]; try assumption; try lia; auto.
        -- rewrite C2 in Hloop.
           destruct (bool_cases (reconnect c)) as [Hrec|Hrec]; rewrite Hrec in Hloop.
           ++ destruct w.
              ** apply IH in Hloop.
                 destruct Hloop as (H1 & _ & H3 & H4 & H5 & H6 & H7 & H8).
                 rewrite C1, ?C2, ?C3 in *.
                 apply Hdone; cbn [length]; try assumption; try lia; auto;
                   try (intros Hm Hr; apply H8; [exact Hm|lia]).
              ** injection Hloop as <- <-.
                 destruct (Stop_fields c2) as (T1 & T2 & T3 & T4 & T5 & _ & _).
                 apply Hdone; cbn [length]; try assumption; try lia; try congruence; auto;
                   try (intros Hm Hr; rewrite T4, C3; lia).
           ++ injection Hloop as <- <-.
              apply Hdone; cbn [length]; try assumption; try lia; auto;
                   try (intros Hm Hr; cbn [retries set_isRunning]; rewrite C3; lia).
      * injection Hloop as <- <-.
        apply Hdone; cbn [length]; try assumption; try lia; try congruence; auto;
                   try (intros Hm Hr; rewrite S4, R4; lia).
Qed.

Lemma runMainLoop_returns_witness :
  let c' := mkClient (mkClientConfig true 5 2) false false true true 1 in
  isRunning c' = false ∧ IsConnected c' = false ∧
  (0 ≤ 2 ≤ 0 + length session_then_Stop)%nat ∧
  (isRunning retry_twice = true -> (0 < 2)%nat) ∧
  config c' = config retry_twice ∧ reconnect c' = reconnect retry_twice ∧
  (conn retry_twice = false -> conn c' = false) ∧
  (0 < MaxRetries (config retry_twice) < 2 ^ 63 ->
   0 <= retries retry_twice <= MaxRetries (config retry_twice) ->
   0 <= retries c' <= MaxRetries (config retry_twice)).
Proof.
  apply (runMainLoop_returns session_then_Stop retry_twice 0). vm_compute. reflexivity.
Defined.

(** While the loop is running, the client is running and [stopCh] is as
    it was; the rounds that follow go on from the client the loop has
    reached. *)
Lemma runMainLoop_running (pre : list Round) (c : Client) (n : nat) :
  runMainLoop pre c n = None ->
  ∃ c1, isRunning c1 = true ∧ stopped c1 = stopped c ∧
        config c1 = config c ∧ reconnect c1 = reconnect c ∧
        ∀ env, runMainLoop (pre ++ env) c n = runMainLoop env c1 (n + length pre).
Proof.
  revert c n. induction pre as [|r pre IH]; intros c n Hloop.
  - cbn [runMainLoop] in Hloop.
    destruct (running_cases c) as [Hrun|Hrun]; rewrite Hrun in Hloop; [|discriminate].
    exists c. repeat split; auto; intros env; cbn [app length]; f_equal; lia.
  - cbn [runMainLoop] in Hloop.
    destruct (running_cases c) as [Hrun|Hrun]; rewrite Hrun in Hloop; [|discriminate].
    cbn [negb] in Hloop.
    assert (Hstep : ∀ c2, runMainLoop pre c2 (S n) = None ->
              stopped c2 = stopped c -> config c2 = config c -> reconnect c2 = reconnect c ->
              (∀ env, runMainLoop ((r :: pre) ++ env) c n = runMainLoop (pre ++ env) c2 (S n)) ->
              ∃ c1, isRunning c1 = true ∧ stopped c1 = stopped c ∧
                    config c1 = config c ∧ reconnect c1 = reconnect c ∧
                    ∀ env, runMainLoop ((r :: pre) ++ env) c n
                           = runMainLoop env c1 (n + length (r :: pre))).
    { intros c2 Hnone Hst Hcfg Hrec Hnext.
      destruct (IH c2 (S n) Hnone) as (c1 & R1 & R2 & R3 & R4 & R5).
      exists c1. repeat split; try congruence.
      intros env. rewrite Hnext, R5. cbn [length]. f_equal. lia. }
    destruct r as [f w|s].
    + destruct (after_failure_fields f c) as (Hcfg & Hrun' & Hst & Hrec & Hret & Hconn).
      destruct (gives_up (after_failure f c)) eqn:Hup; [discriminate|].
      destruct w; [|discriminate].
      apply (Hstep _ Hloop); cbn [stopped config reconnect set_retries]; auto.
      intros env. cbn [app runMainLoop]. rewrite Hrun, Hup. reflexivity.
    + destruct s as [stopCalled w|]; [|discriminate].
      destruct c as [cfg cn run st rec ret]. cbn [isRunning] in Hrun. subst run.
      destruct stopCalled; [discriminate|].
      cbn in Hloop. destruct rec; [|discriminate]. destruct w; [|discriminate].
      apply (Hstep _ Hloop); auto.
Qed.

(** X21.  The deferred send of the loop.  In rounds in which nobody calls
    [Stop], the loop of a client whose [stopCh] is open returns with the
    channel open, and the deferred send goes through.  When [Stop] is
    called while the connection is up, whatever rounds came before, the
    loop returns at that round and its deferred send is on the closed
    channel; the same holds when [Stop] comes during the delay after a
    failed attempt of a client that retries without limit. *)
Theorem runMainLoop_deferred_send (c : Client) (n : nat) :
  (∀ env c' k, stopped c = false -> Forall no_Stop env ->
     runMainLoop env c n = Some (c', k) -> signal_done c' = Some c') ∧
  (∀ pre r env, runMainLoop pre c n = None -> Stop_in_session r ->
     ∃ c', runMainLoop (pre ++ r :: env) c n = Some (c', (n + length pre + 1)%nat) ∧
           signal_done c' = None) ∧
  (∀ pre f env, reconnect c = true -> MaxRetries (config c) <= 0 ->
     runMainLoop pre c n = None ->
     ∃ c', runMainLoop (pre ++ ConnectFailed f StopSignal :: env) c n
           = Some (c', (n + length pre + 1)%nat) ∧
           signal_done c' = None).
Proof.
  split; [|split].
  - intros env. revert c n. induction env as [|r env IH]; intros c n c' k Hopen Hquiet Hloop.
    + cbn [runMainLoop] in Hloop. destruct (isRunning c); [discriminate|].
      injection Hloop as <- <-. unfold signal_done. rewrite Hopen. reflexivity.
    + cbn [runMainLoop] in Hloop. destruct (isRunning c) eqn:Hrun; cbn [negb] in Hloop.
      2: { injection Hloop as <- <-. unfold signal_done. rewrite Hopen. reflexivity. }
      inversion Hquiet as [|? ? Hr Hquiet']; subst.
      destruct r as [f [|]|[[|] [|]|]]; cbn in Hr; try contradiction.
      * destruct (after_failure_fields f c) as (_ & _ & Hst & _ & _ & _).
        destruct (gives_up (after_failure f c)).
        -- injection Hloop as <- <-. unfold signal_done. cbn. rewrite Hst, Hopen. reflexivity.
        -- eapply IH; [|exact Hquiet'|exact Hloop]. cbn [stopped set_retries]. congruence.
      * destruct c as [cfg cn run st rec ret]. cbn in Hrun, Hopen. subst run st.
        cbn in Hloop. destruct rec.
        -- eapply IH; [|exact Hquiet'|exact Hloop]. reflexivity.
        -- injection Hloop as <- <-. reflexivity.
  - intros pre r env Hnone Hr.
    destruct (runMainLoop_running pre c n Hnone) as (c1 & Hrun & _ & _ & _ & Hnext).
    rewrite Hnext. destruct c1 as [cfg cn run st rec ret]. cbn in Hrun. subst run.
    destruct r as [f w|[[|] w|]]; cbn in Hr; try contradiction;
      eexists; (split; [cbn; f_equal; f_equal; lia|reflexivity]).
  - intros pre f env Hrec Hmax Hnone.
    destruct (runMainLoop_running pre c n Hnone) as (c1 & Hrun & _ & Hcfg & Hrec1 & Hnext).
    rewrite Hnext. cbn [runMainLoop]. rewrite Hrun. cbn [negb].
    destruct (after_failure_fields f c1) as (Hcfg' & Hrun' & _ & Hrec' & _ & _).
    assert (Hgo : gives_up (after_failure f c1) = false).
    { rewrite gives_up_after_failure. apply not_true_iff_false. rewrite gives_up_iff.
      rewrite Hrec1, Hrec, Hcfg. intros [?|?]; [discriminate|lia]. }
    rewrite Hgo. eexists. split; [f_equal; f_equal; lia|].
    unfold signal_done.
    destruct (Stop_fields (set_retries (after_failure f c1)
                             (int64 (retries (after_failure f c1) + 1))))
      as (_ & _ & _ & _ & _ & S6 & _).
    destruct S6 as [_ ->]; [cbn [isRunning set_retries]; congruence|reflexivity].
Qed.

(** The example: the loop of the client of the reconnection example
    returns after [Stop], and its deferred send finds [stopCh] closed. *)
Example Stop_then_deferred_send :
  ∃ c', runMainLoop session_then_Stop retry_twice 0 = Some (c', 2%nat) ∧
        signal_done c' = None.
Proof. eexists. split; vm_compute; reflexivity. Qed.

(** ** Setting the connection up *)

Ltac before_at n := exists n; split; [lia | reflexivity].

Ltac deadline_first :=
  let i := fresh "i" in
  let Hi := fresh "Hi" in
  intros i Hi;
  do 9 (destruct i as [|i];
        [first [discriminate Hi | before_at 0%nat | before_at 1%nat | before_at 2%nat
               | before_at 3%nat | before_at 4%nat]|]);
  destruct i; discriminate Hi.

(** X22.  [connectToServer] and the connection it dials.  The function
    succeeds exactly when the dial and every step of the TLS set-up that
    the configuration asks for succeed; then the client holds the
    connection, nothing has been closed and the handshake deadline has
    been cleared last.  When the dial fails nothing else is done and the
    client is as it was.  When a later step fails the client holds no
    connection and the last action is the closing of the TCP connection.
    In both cases of failure the client is the one the reconnection loop
    goes on with, and no handshake is done without a deadline set
    before. *)
Theorem connectToServer_connection (cfg : ClientTLSConfig) (o : Outcomes) (c : Client) :
  let '(tr, c', err) := connectToServer cfg o c in
  (err = None ↔ dial_ok o && tls_steps_ok cfg o = true) ∧
  (err = None ->
     conn c' = true ∧ Forall (fun a => closes a = false) tr ∧ last tr = Some ClearDeadline) ∧
  (err = Some DialFailed ↔ dial_ok o = false) ∧
  (dial_ok o = false -> tr = [Dial] ∧ c' = c) ∧
  (err = Some HandshakeFailed -> conn c' = false ∧ last tr = Some CloseTCP) ∧
  (∀ f, err = Some f -> c' = after_failure f c) ∧
  (∀ i, tr !! i = Some Handshake -> ∃ j, (j < i)%nat ∧ tr !! j = Some SetHandshakeDeadline).
Proof.
  unfold connectToServer, NewTLSClientConn, handshake_with_deadline, tls_steps_ok.
  destruct o as [d rc pc lp sd hs cd].
  cbn [dial_ok read_ca_ok parse_ca_ok load_pair_ok set_deadline_ok handshake_ok clear_deadline_ok].
  destruct d; cbn [negb].
  2: { split; [split; discriminate|]. split; [discriminate|].
       split; [split; reflexivity|]. split; [split; reflexivity|].
       split; [discriminate|]. split; [intros f [= <-]; reflexivity|deadline_first]. }
  destruct (uses_CA cfg), (uses_certificate cfg), rc, pc, lp, sd, hs, cd; cbn;
    (split; [split; first [reflexivity | discriminate]|]);
    (split; [first [discriminate
                   | intros _; split; [reflexivity|split; [repeat constructor|reflexivity]]]|]);
    (split; [split; discriminate|]);
    (split; [discriminate|]);
    (split; [first [discriminate | intros _; split; reflexivity]|]);
    (split; [first [discriminate | intros f [= <-]; reflexivity]|]);
    deadline_first.
Qed.

Ltac closed_last tr0 a :=
  intros _ _; exists tr0, a; split; [reflexivity|split; [reflexivity|repeat constructor]].

(** X23.  [NewTLSServerConn] and the connection it is given.  The function
    succeeds exactly when the key pair is loaded, both deadlines are set
    and the handshake succeeds; then nothing has been closed and the
    handshake deadline has been cleared last.  When the key pair cannot
    be loaded the connection is neither used nor closed.  When a later
    step fails the connection is closed, once, as the last action.  No
    handshake is done without a deadline set before. *)
Theorem NewTLSServerConn_connection (o : Outcomes) :
  let '(tr, r) := NewTLSServerConn o in
  (r ≠ None ↔
     load_pair_ok o && set_deadline_ok o && handshake_ok o && clear_deadline_ok o = true) ∧
  (r ≠ None -> Forall (fun a => closes a = false) tr ∧ last tr = Some ClearDeadline) ∧
  (load_pair_ok o = false -> r = None ∧ tr = [LoadKeyPair]) ∧
  (load_pair_ok o = true -> r = None ->
     ∃ tr0 a, tr = tr0 ++ [a] ∧ closes a = true ∧ Forall (fun a => closes a = false) tr0) ∧
  (∀ i, tr !! i = Some Handshake -> ∃ j, (j < i)%nat ∧ tr !! j = Some SetHandshakeDeadline).
Proof.
  unfold NewTLSServerConn, handshake_with_deadline.
  destruct o as [d rc pc lp sd hs cd].
  cbn [load_pair_ok set_deadline_ok handshake_ok clear_deadline_ok].
  destruct lp, sd, hs, cd; cbn;
    (split; [split; first [reflexivity | discriminate | congruence]|]);
    (split; [first [intros _; split; [repeat constructor|reflexivity] | congruence]|]);
    (split; [first [discriminate | intros _; split; reflexivity]|]);
    (split; [first [discriminate | congruence
                   | closed_last [LoadKeyPair; SetHandshakeDeadline] CloseTCP
                   | closed_last [LoadKeyPair; SetHandshakeDeadline; Handshake] CloseTLS
                   | closed_last [LoadKeyPair; SetHandshakeDeadline; Handshake; ClearDeadline]
                       CloseTLS]|]);
    deadline_first.
Qed.

(** ** The pumps *)

Section PumpProps.

Variable ipv4_ParseHeader : list byte -> ipv4_Header + string.
Variable ipv6_ParseHeader : list byte -> ipv6_Header + string.

Abbreviation ParsePacket := (ParsePacket ipv4_ParseHeader ipv6_ParseHeader).
Abbreviation parses := (parses ipv4_ParseHeader ipv6_ParseHeader).
Abbreviation pump := (pump ipv4_ParseHeader ipv6_ParseHeader).

Lemma total_length_cons (data : list byte) (l : list (list byte)) :
  total_length (data :: l) = Z.of_nat (length data) + total_length l.
Proof. unfold total_length. cbn [concat]. rewrite length_app. lia. Qed.

Lemma add_mod_mod (b x y : Z) :
  ((b + x) mod 2 ^ 64 + y) mod 2 ^ 64 = (b + (x + y)) mod 2 ^ 64.
Proof. rewrite Zplus_mod_idemp_l. f_equal. lia. Qed.

(** The body of the pumps, for any destination: the buffers the pump has
    read, [done], are leading reads of the turns; the destination has
    received those of them that parse, whole, in their order; the counter
    has gone up by the bytes of all of them, modulo [2^64]. *)
Lemma pump_spec {W : Type} (write : W -> list byte -> W * bool)
    (env : list Turn) (w : W) (bytes : Z) :
  0 <= bytes < 2 ^ 64 ->
  ∃ done,
    done `prefix_of` leading_reads env ∧
    (pump write env w bytes).1.1
      = fold_left (fun w data => (write w data).1) (filter (fun d => parses d = true) done) w ∧
    (pump write env w bytes).1.2 = (bytes + total_length done) mod 2 ^ 64 ∧
    ((pump write env w bytes).2 ≠ FailedWrite ->
       done = leading_reads env ∧ (pump write env w bytes).2 = exit_of env) ∧
    ((pump write env w bytes).2 = FailedWrite ->
       ∃ before data, done = before ++ [data] ∧ parses data = true).
Proof.
  revert w bytes. induction env as [|turn env IH]; intros w bytes Hb.
  - exists []. cbn. rewrite Z.add_0_r, Z.mod_small by exact Hb.
    repeat split; auto; discriminate.
  - destruct turn as [| |data].
    + exists []. cbn. rewrite Z.add_0_r, Z.mod_small by exact Hb.
      repeat split; auto using prefix_nil; discriminate.
    + exists []. cbn. rewrite Z.add_0_r, Z.mod_small by exact Hb.
      repeat split; auto using prefix_nil; discriminate.
    + cbn [pump leading_reads].
      set (bytes2 := (bytes + Z.of_nat (length data)) mod 2 ^ 64).
      assert (Hb2 : 0 <= bytes2 < 2 ^ 64) by (apply Z.mod_pos_bound; reflexivity).
      assert (Hexit : exit_of (ReadData data :: env) = exit_of env) by reflexivity.
      assert (Hsum : ∀ l, (bytes2 + total_length l) mod 2 ^ 64
                          = (bytes + total_length (data :: l)) mod 2 ^ 64).
      { intros l. subst bytes2. rewrite total_length_cons. apply add_mod_mod. }
      destruct (ParsePacket data) as [packet|err] eqn:Hparse.
      * apply ParsePacket_inl in Hparse as Hdata. destruct Hdata as [Hdata _].
        rewrite Hdata.
        assert (Hp : parses data = true) by (unfold parses; rewrite Hparse; reflexivity).
        destruct (write w data) as [w2 ok] eqn:Hwrite. destruct ok.
        -- destruct (IH w2 bytes2 Hb2) as (done & Hpre & Hw & Hbytes & Hok & Hfail).
           exists (data :: done). rewrite filter_cons_True by exact Hp.
           cbn [fold_left]. rewrite Hwrite. cbn [fst].
           split; [apply prefix_cons; exact Hpre|]. split; [exact Hw|].
           split; [rewrite Hbytes; apply Hsum|]. split.
           ++ intros Hne. destruct (Hok Hne) as [-> ->]. rewrite Hexit. auto.
           ++ intros Heq. destruct (Hfail Heq) as (before & last & -> & Hlast).
              exists (data :: before), last. auto.
        -- exists [data]. rewrite filter_cons_True by exact Hp.
           cbn [fold_left filter]. rewrite Hwrite. cbn [fst snd].
           split; [apply prefix_cons, prefix_nil|]. split; [reflexivity|].
           split; [rewrite <- Hsum; unfold total_length; cbn;
                   rewrite Z.add_0_r, Z.mod_small by exact Hb2; reflexivity|].
           split; [intros Hne; contradiction|].
           intros _. exists [], data. auto.
      * assert (Hp : parses data ≠ true) by (unfold parses; rewrite Hparse; discriminate).
        destruct (IH w bytes2 Hb2) as (done & Hpre & Hw & Hbytes & Hok & Hfail).
        exists (data :: done). rewrite filter_cons_False by exact Hp.
        split; [apply prefix_cons; exact Hpre|]. split; [exact Hw|].
        split; [rewrite Hbytes; apply Hsum|]. split.
        -- intros Hne. destruct (Hok Hne) as [-> ->]. rewrite Hexit. auto.
        -- intros Heq. destruct (Hfail Heq) as (before & last & -> & Hlast).
           exists (data :: before), last. auto.
Qed.



Section ToServer.

Variable conn_io : list cipher.ConnCall -> cipher.ConnCall -> Z * option cipher.IOError.

Abbreviation handleTUNPackets := (handleTUNPackets ipv4_ParseHeader ipv6_ParseHeader conn_io).




End ToServer.

Section ToTUN.

Variable tun_ok : list (list byte) -> list byte -> bool.

Abbreviation handleServerPackets :=
  (handleServerPackets ipv4_ParseHeader ipv6_ParseHeader tun_ok).

Lemma tun_Write_all (written l : list (list byte)) :
  fold_left (fun w data => (tun_Write tun_ok w data).1) l written = rev l ++ written.
Proof.
  revert written. induction l as [|data l IH]; intros written; [reflexivity|].
  cbn [fold_left tun_Write fst rev]. rewrite IH, <- app_assoc. reflexivity.
Qed.

(** X25.  [handleServerPackets] forwards what parses, as it is.  With the
    buffers [done] that the pump has read from the server, which are
    leading reads of its turns: the TUN device has received one [Write]
    for each buffer of [done] that parses, with the whole buffer
    unchanged, in the order read, and no other; [bytesIn] has gone up by
    the bytes of all of [done], modulo [2^64]; the pump stops before the
    end of the leading reads only when a write fails, at a buffer that
    parses. *)
Theorem handleServerPackets_forwards (env : list Turn) (written : list (list byte))
    (bytesIn : Z) :
  0 <= bytesIn < 2 ^ 64 ->
  let '(written', bytesIn', exit) := handleServerPackets env written bytesIn in
  ∃ done,
    done `prefix_of` leading_reads env ∧
    written' = rev (filter (fun d => parses d = true) done) ++ written ∧
    bytesIn' = (bytesIn + total_length done) mod 2 ^ 64 ∧
    (exit ≠ FailedWrite -> done = leading_reads env ∧ exit = exit_of env) ∧
    (exit = FailedWrite -> ∃ before data, done = before ++ [data] ∧ parses data = true).
Proof.
  intros Hb. unfold handleServerPackets.
  destruct (pump_spec (tun_Write tun_ok) env written bytesIn Hb)
    as (done & Hpre & Hw & Hbytes & Hok & Hfail).
  destruct (pump (tun_Write tun_ok) env written bytesIn) as [[written' bytesIn'] exit].
  cbn [fst snd] in *. exists done. rewrite tun_Write_all in Hw. auto.
Qed.

End ToTUN.

End PumpProps.


Lemma handleServerPackets_forwards_witness :
  let '(written', bytesIn', exit) :=
    handleServerPackets x_net_ipv4_ParseHeader x_net_ipv6_ParseHeader (fun _ _ => true)
      packets_and_noise [] 0 in
  ∃ done,
    done `prefix_of` leading_reads packets_and_noise ∧
    written'
    = rev (filter (fun d => parses x_net_ipv4_ParseHeader x_net_ipv6_ParseHeader d = true) done)
      ++ [] ∧
    bytesIn' = (0 + total_length done) mod 2 ^ 64 ∧
    (exit ≠ FailedWrite -> done = leading_reads packets_and_noise ∧
                           exit = exit_of packets_and_noise) ∧
    (exit = FailedWrite ->
       ∃ before data, done = before ++ [data] ∧
         parses x_net_ipv4_ParseHeader x_net_ipv6_ParseHeader data = true).
Proof.
  apply (handleServerPackets_forwards x_net_ipv4_ParseHeader x_net_ipv6_ParseHeader
           (fun _ _ => true) packets_and_noise [] 0).
  split; [lia|reflexivity].
Defined.

(** The example: both packets reach the wrapped connection, the three
    bytes between them do not, and all 63 bytes are counted. *)
Example handleTUNPackets_example :
  handleTUNPackets x_net_ipv4_ParseHeader x_net_ipv6_ParseHeader cipher.conn_ok
    packets_and_noise (cipher.mkTLSConn [] false) 0
  = (cipher.mkTLSConn [cipher.ConnWrite sample_v6; cipher.ConnWrite sample_v4] false,
     63, LoopEnded).
Proof. vm_compute. reflexivity. Qed.

(** ** The TUN device *)

Ltac not_in_trace :=
  let Hin := fresh "Hin" in
  intros Hin; repeat (apply elem_of_cons in Hin as [Hin|Hin]; [discriminate Hin|]);
  inversion Hin.

(** X26.  [NewTUNDevice] and the descriptor of [/dev/net/tun].  The function
    succeeds exactly when the configuration is of a known type and every
    step succeeds, where an error of [AddrAdd] whose text contains
    [file exists] counts as success; the descriptor has then been opened
    and not closed, and the device is not running.  When the function
    fails after the descriptor was opened, the descriptor is closed once,
    as the last action.  The function does not close a descriptor that it
    has not opened. *)
Theorem NewTUNDevice_descriptor (known : bool) (o : TunOutcomes) :
  let '(tr, r) := NewTUNDevice known o in
  (r ≠ None ↔ known && tun_steps_ok o = true) ∧
  (r ≠ None -> r = Some (mkTUNDevice false) ∧ OpenTun ∈ tr ∧ CloseFd ∉ tr) ∧
  (r = None -> known = true -> parse_ip_ok o = true -> open_ok o = true ->
     last tr = Some CloseFd ∧ length (filter (fun a => a = CloseFd) tr) = 1%nat) ∧
  (CloseFd ∈ tr -> known = true ∧ parse_ip_ok o = true ∧ open_ok o = true).
Proof.
  unfold NewTUNDevice, createTUN, configureTUN, tun_steps_ok.
  destruct known; cbn [negb].
  2: { split; [split; [congruence|discriminate]|]. split; [congruence|].
       split; [discriminate|not_in_trace]. }
  destruct (addr_add_passes o), o as [pi op io lk mt ad up];
    cbn [parse_ip_ok open_ok ioctl_ok link_ok mtu_ok up_ok];
    destruct pi, op, io, lk, mt, up; cbn;
    (split; [split; first [reflexivity | discriminate | congruence]|]);
    (split; [first [congruence
                   | intros _; split; [reflexivity|split; [repeat constructor|not_in_trace]]]|]);
    (split; [first [discriminate | congruence | intros _ _ _ _; split; reflexivity]|]);
    first [solve [not_in_trace] | intros _; repeat split; reflexivity].
Qed.

(** The example: the address is on the interface already, and the device
    is created; with another error of [AddrAdd] the descriptor is closed. *)
Example NewTUNDevice_file_exists :
  NewTUNDevice true (mkTunOutcomes true true true true true (Some "file exists") true)
  = ([ParseTunIP; OpenTun; SetIff; LinkByName; LinkSetMTU; AddrAdd; LinkSetUp],
     Some (mkTUNDevice false)) ∧
  NewTUNDevice true (mkTunOutcomes true true true true true (Some "operation not permitted") true)
  = ([ParseTunIP; OpenTun; SetIff; LinkByName; LinkSetMTU; AddrAdd; CloseFd], None).
Proof. split; vm_compute; reflexivity. Qed.

(** ** The configuration and the command line *)

Lemma override_nonempty (flag field : string) :
  config.empty field = false -> config.empty (config.override flag field) = false.
Proof.
  intros Hf. unfold config.override. destruct (config.empty flag) eqn:E; assumption.
Qed.

(** X27.  The overrides of the command line keep a valid configuration valid.
    The configuration that [LoadServerConfig] or [LoadClientConfig] has
    validated is not validated again after the overrides; whatever the
    flags, [validateConfig] would accept it still, each field is the
    flag where one is given and the loaded value where none is, and a
    field that was not empty is not empty. *)
Theorem overrides_keep_valid :
  (∀ listenAddr tunDevice tunIP certFile keyFile cfg,
     config.validateConfig (config.Server cfg) = None ->
     config.validateConfig
       (config.Server (config.server_overrides listenAddr tunDevice tunIP certFile keyFile cfg))
     = None) ∧
  (∀ serverAddr tunDevice tunIP caCertFile cfg,
     config.validateConfig (config.Client cfg) = None ->
     config.validateConfig
       (config.Client (config.client_overrides serverAddr tunDevice tunIP caCertFile cfg))
     = None) ∧
  (∀ flag field,
     (flag ≠ EmptyString -> config.override flag field = flag) ∧
     (flag = EmptyString -> config.override flag field = field)).
Proof.
  split; [|split].
  - intros la td ti cf kf [a b c d e]. unfold config.validateConfig, config.server_overrides.
    cbn [config.ListenAddr config.sTunDevice config.sTunIP config.CertFile config.KeyFile].
    destruct (config.empty a) eqn:Ea; [discriminate|].
    destruct (config.empty b) eqn:Eb; [discriminate|].
    destruct (config.empty c) eqn:Ec; [discriminate|].
    destruct (config.empty d) eqn:Ed; [discriminate|].
    destruct (config.empty e) eqn:Ee; [discriminate|].
    intros _. rewrite !override_nonempty by assumption. reflexivity.
  - intros sa td ti ca [a b c d]. unfold config.validateConfig, config.client_overrides.
    cbn [config.ServerAddr config.cTunDevice config.cTunIP].
    destruct (config.empty a) eqn:Ea; [discriminate|].
    destruct (config.empty b) eqn:Eb; [discriminate|].
    destruct (config.empty c) eqn:Ec; [discriminate|].
    intros _. rewrite !override_nonempty by assumption. reflexivity.
  - intros flag field. unfold config.override, config.empty. split.
    + intros Hne. destruct (String.eqb_spec flag ""); [contradiction|reflexivity].
    + intros ->. reflexivity.
Qed.
